(** * osu! scorecard generator: the layout core of [public/script.js]

    A shallow embedding of the pure part of the browser script (score
    normalisation, presentation values, title and height fitting) and the
    properties the specification states about it.

    Conventions of the embedding.
    - A JavaScript string is a Rocq [string]; its characters are the code
      units of the ASCII range, which is the alphabet of the override
      fields, and a character beyond ASCII is held as the bytes of its
      UTF-8 form, as in a literal of this file.  [trim] and the digit
      tests are the ASCII fragment of the built-ins; [toUpperCase] maps
      the ASCII letters and the characters beyond ASCII whose upper-case
      form is made of ASCII letters, the only ones whose upper-case form
      can pass a test for the letters A to Z.  Display glyphs beyond
      ASCII occur only inside literals that are concatenated, never
      inspected.
    - A JavaScript Number is a [number]: [NaN], an infinity, or a finite
      value kept as an exact rational.  Binary64 rounding is not
      represented; [-0] is identified with [0].
    - The DOM and the two module-level variables are explicit arguments. *)

From Stdlib Require Import ZArith QArith Qround Qminmax Qabs Ascii String List Lia Bool.
From Stdlib Require Import DecimalString HexadecimalString DecimalPos DecimalN.
From stdpp Require Import base gmap.
Import ListNotations.

Local Open Scope string_scope.
Local Open Scope Z_scope.

#[local] Arguments String.append !_ _ / : simpl nomatch.

(** ** JavaScript strings *)

Module JsString.

Fixpoint len (s : string) : nat :=
  match s with
  | EmptyString => O
  | String _ s' => S (len s')
  end.

(** [s.length] *)
Definition length (s : string) : Z := Z.of_nat (len s).

Fixpoint take (n : nat) (s : string) : string :=
  match n, s with
  | O, _ => EmptyString
  | S _, EmptyString => EmptyString
  | S n', String c s' => String c (take n' s')
  end.

Fixpoint drop (n : nat) (s : string) : string :=
  match n, s with
  | O, _ => s
  | S _, EmptyString => EmptyString
  | S n', String _ s' => drop n' s'
  end.

(** [s.substring(start, end)]: both indices are clamped to [0, length]
    and swapped when [start > end]. *)
Definition substring (s : string) (start finish : Z) : string :=
  let l := length s in
  let a := Z.min (Z.max start 0) l in
  let b := Z.min (Z.max finish 0) l in
  let from := Z.min a b in
  let to := Z.max a b in
  take (Z.to_nat (to - from)) (drop (Z.to_nat from) s).

(** [s.slice(0, -1)]: everything but the last code unit. *)
Definition slice_0_m1 (s : string) : string := take (len s - 1) s.

Definition isEmpty (s : string) : bool :=
  match s with
  | EmptyString => true
  | String _ _ => false
  end.

(** White space of [trim], ASCII range: TAB, LF, VT, FF, CR, SP. *)
Definition isWhiteSpace (c : ascii) : bool :=
  let n := nat_of_ascii c in
  ((9 <=? n)%nat && (n <=? 13)%nat) || (n =? 32)%nat.

Fixpoint trimStart (s : string) : string :=
  match s with
  | EmptyString => EmptyString
  | String c s' => if isWhiteSpace c then trimStart s' else s
  end.

(** Drops the trailing white space: a white-space character is kept only
    when something that is kept follows it. *)
Fixpoint trimEnd (s : string) : string :=
  match s with
  | EmptyString => EmptyString
  | String c s' =>
      let r := trimEnd s' in
      if isWhiteSpace c && isEmpty r then EmptyString else String c r
  end.

(** A text of white space only. *)
Fixpoint allWhite (s : string) : bool :=
  match s with
  | EmptyString => true
  | String c s' => isWhiteSpace c && allWhite s'
  end.

(** [s.trim()] *)
Definition trim (s : string) : string := trimEnd (trimStart s).

Definition isLower (c : ascii) : bool :=
  let n := nat_of_ascii c in (97 <=? n)%nat && (n <=? 122)%nat.

Definition isUpper (c : ascii) : bool :=
  let n := nat_of_ascii c in (65 <=? n)%nat && (n <=? 90)%nat.

Definition upperChar (c : ascii) : ascii :=
  if isLower c then ascii_of_nat (nat_of_ascii c - 32) else c.

Fixpoint startsWith (p s : string) : bool :=
  match p, s with
  | EmptyString, _ => true
  | String _ _, EmptyString => false
  | String a p', String b s' => Ascii.eqb a b && startsWith p' s'
  end.

Definition isAscii (c : ascii) : bool := (nat_of_ascii c <? 128)%nat.

(** A byte of a character beyond ASCII. *)
Definition beyondAscii (c : ascii) : bool := negb (isAscii c).

(** The characters beyond ASCII whose upper-case form is made of ASCII
    letters, each with that form: sharp s, dotless i, long s and the
    Latin ligatures U+FB00 to U+FB06.  The upper-case form of every other
    character beyond ASCII holds a character beyond ASCII. *)
Definition specialCasing : list (string * string) :=
  [ ("ß", "SS"); ("ı", "I"); ("ſ", "S");
    ("ﬀ", "FF"); ("ﬁ", "FI"); ("ﬂ", "FL"); ("ﬃ", "FFI"); ("ﬄ", "FFL");
    ("ﬅ", "ST"); ("ﬆ", "ST") ].

(** The entry of the table whose character the text starts with. *)
Fixpoint upperForm (table : list (string * string)) (s : string)
  : option (string * string) :=
  match table with
  | [] => None
  | (key, form) :: rest =>
      if startsWith key s then Some (key, form) else upperForm rest s
  end.

(** The scan of [s.toUpperCase()], from left to right: a character of the
    table is replaced by its form, [skip] being the number of its bytes
    still to pass over; an ASCII letter is replaced by its capital; any
    other byte is kept: the bytes of another character beyond ASCII stay
    as they are, where the built-in may give another character beyond
    ASCII, which no test of the script tells apart. *)
Fixpoint upperFrom (skip : nat) (s : string) : string :=
  match s with
  | EmptyString => EmptyString
  | String c s' =>
      match skip with
      | S k => upperFrom k s'
      | O =>
          match upperForm specialCasing s with
          | Some (key, form) => form ++ upperFrom (len key - 1) s'
          | None => String (upperChar c) (upperFrom O s')
          end
      end
  end.

(** [s.toUpperCase()] *)
Definition toUpperCase (s : string) : string := upperFrom O s.

(** The scan of [s.split(sep)] for a non-empty [sep]: [cur] is the token
    being read and [skip] the number of separator characters still to
    pass over. *)
Fixpoint splitFrom (sep : string) (skip : nat) (cur s : string) : list string :=
  match s with
  | EmptyString => [cur]
  | String c s' =>
      match skip with
      | S k => splitFrom sep k cur s'
      | O =>
          if startsWith sep s
          then cur :: splitFrom sep (len sep - 1) EmptyString s'
          else splitFrom sep O (cur ++ String c EmptyString) s'
      end
  end.

(** [s.split(sep)], [sep] a non-empty string. *)
Definition split (s sep : string) : list string :=
  splitFrom sep O EmptyString s.

End JsString.

(** ** JavaScript numbers *)

Inductive number : Type :=
| NaN
| Infinity (negative : bool)
| Num (q : Q).

Module JsNumber.

Definition ofZ (z : Z) : number := Num (inject_Z z).

(** Truthiness of a Number: [NaN] and zero are falsy. *)
Definition truthy (n : number) : bool :=
  match n with
  | NaN => false
  | Infinity _ => true
  | Num q => negb (Qeq_bool q 0)
  end.

(** [Math.round]: the integer nearest to the argument, halves upwards. *)
Definition round (n : number) : number :=
  match n with
  | Num q => ofZ (Qfloor (q + (1 # 2)))
  | _ => n
  end.

(** [n / 100] *)
Definition div100 (n : number) : number :=
  match n with
  | Num q => Num (Qred (q / 100))
  | _ => n
  end.

Definition code (c : ascii) : Z := Z.of_nat (nat_of_ascii c).

(** Value of a character as a digit of the given radix. *)
Definition digitValue (radix : Z) (c : ascii) : option Z :=
  let n := code c in
  let d :=
    if (48 <=? n) && (n <=? 57) then Some (n - 48)
    else if (97 <=? n) && (n <=? 122) then Some (n - 87)
    else if (65 <=? n) && (n <=? 90) then Some (n - 55)
    else None in
  match d with
  | Some v => if v <? radix then Some v else None
  | None => None
  end.

(** Reads the longest prefix of digits: its value, the number of digits
    read and the rest of the string. *)
Fixpoint readDigits (radix : Z) (acc : Z) (count : nat) (s : string)
  : Z * nat * string :=
  match s with
  | EmptyString => (acc, count, s)
  | String c s' =>
      match digitValue radix c with
      | Some d => readDigits radix (acc * radix + d) (S count) s'
      | None => (acc, count, s)
      end
  end.

(** An optional sign: whether it is a minus, and the rest. *)
Definition readSign (s : string) : bool * string :=
  match s with
  | String "-" r => (true, r)
  | String "+" r => (false, r)
  | _ => (false, s)
  end.

Definition signed (negative : bool) (z : Z) : Z :=
  if negative then - z else z.

(** [parseInt(s)] without a radix argument: leading white space, a sign,
    a [0x] prefix selecting radix 16, then the longest run of digits;
    [NaN] when there is no digit.  The integer read is kept as it is
    written: the built-in rounds it to the nearest binary64 value, which
    leaves every integer up to 2^53 in absolute value unchanged. *)
Definition parseInt (s : string) : number :=
  let (negative, s1) := readSign (JsString.trimStart s) in
  let (radix, s2) :=
    match s1 with
    | String "0" (String "x" r) => (16, r)
    | String "0" (String "X" r) => (16, r)
    | _ => (10, s1)
    end in
  match readDigits radix 0 O s2 with
  | (_, O, _) => NaN
  | (m, S _, _) => ofZ (signed negative m)
  end.

(** [parseFloat(s)]: leading white space, a sign, then [Infinity] or the
    longest prefix that is a decimal literal (integer part, fraction,
    exponent); [NaN] when there is no digit before the exponent. *)
Definition parseFloat (s : string) : number :=
  let (negative, s1) := readSign (JsString.trimStart s) in
  if JsString.startsWith "Infinity" s1 then Infinity negative else
  let '(ip, ni, s2) := readDigits 10 0 O s1 in
  let '(fp, nf, s3) :=
    match s2 with
    | String "." r => readDigits 10 0 O r
    | _ => (0, O, s2)
    end in
  match (ni + nf)%nat with
  | O => NaN
  | S _ =>
      let exponent :=
        match s3 with
        | String e r =>
            if Ascii.eqb e "e" || Ascii.eqb e "E" then
              let (eneg, r1) := readSign r in
              match readDigits 10 0 O r1 with
              | (_, O, _) => 0
              | (ev, S _, _) => signed eneg ev
              end
            else 0
        | EmptyString => 0
        end in
      let mantissa := signed negative (ip * 10 ^ Z.of_nat nf + fp) in
      Num (Qred (inject_Z mantissa * Qpower 10 (exponent - Z.of_nat nf)))
  end.

End JsNumber.

(** ** Text helpers of the script *)

(** [truncateText(text, maxLength)] *)
Definition truncateText (text : string) (maxLength : Z) : string :=
  if JsString.length text >? maxLength
  then JsString.substring text 0 (maxLength - 2) ++ ".."
  else text.

(** The difficulty name as [generateScorecardHtml] prints it. *)
Definition difficultyLabel (difficulty : string) : string :=
  truncateText difficulty 32.

(** ** Data model *)

(** A mod descriptor: only the acronym is read. *)
Record Mod : Type := { acronym : string }.

(** What [getScoreOverrides()] returns: the text of the twelve override
    inputs, the empty string meaning that the field is not overridden. *)
Module Overrides.
Record t : Type := {
  score : string;
  count300 : string;
  count100 : string;
  count50 : string;
  countMiss : string;
  countSliderEnds : string;
  combo : string;
  accuracy : string;
  pp : string;
  rank : string;
  mods : string;
  leaderboard : string
}.

Definition none : t :=
  {| score := ""; count300 := ""; count100 := ""; count50 := "";
     countMiss := ""; countSliderEnds := ""; combo := ""; accuracy := "";
     pp := ""; rank := ""; mods := ""; leaderboard := "" |}.
End Overrides.

(** [data.score] of the server's reply to a score request, typed as the
    data model gives it. *)
Module Upstream.
Record t : Type := {
  score : number;
  classic_score : number;
  c300 : number;
  c100 : number;
  c50 : number;
  misses : number;
  cEnds : number;
  cSliders : number;
  max_combo : number;
  accuracy : number;
  pp : number;
  rank : string;
  mods : list Mod;
  leaderboard : number;
  full_combo : bool
}.
End Upstream.

Record Beatmap : Type := {
  title : string;
  difficulty : string;
  star_rating : Q;
  status : string
}.

(** The reply to a score request and the reply to a map request. *)
Record ScoreResponse : Type := {
  lazer : bool;
  score : Upstream.t;
  score_beatmap : Beatmap
}.

Record MapResponse : Type := { map_beatmap : Beatmap }.

(** The record [extractScoreData()] builds.  The map preview has no
    [classic_score] property: reading it gives [undefined], here [None]. *)
Module ScoreData.
Record t : Type := {
  score : number;
  classic_score : option number;
  c300 : number;
  c100 : number;
  c50 : number;
  misses : number;
  cEnds : number;
  cSliders : number;
  max_combo : number;
  accuracy : number;
  pp : number;
  rank : string;
  mods : list Mod;
  leaderboard : number;
  full_combo : bool
}.
End ScoreData.

(** ** Score normaliser *)

(** The test [/^[A-Z]{2}$/]. *)
Definition isModCode (code : string) : bool :=
  match code with
  | String a (String b EmptyString) => JsString.isUpper a && JsString.isUpper b
  | _ => false
  end.

(** [parseModsString(modsString)] *)
Definition parseModsString (modsString : string) : list Mod :=
  if JsString.isEmpty modsString || JsString.isEmpty (JsString.trim modsString)
  then []
  else
    let modCodes :=
      map (fun m => JsString.toUpperCase (JsString.trim m))
          (JsString.split modsString ",") in
    let validMods := List.filter isModCode modCodes in
    map (fun code => {| acronym := code |}) validMods.

(** [s !== ''] *)
Definition isSet (s : string) : bool := negb (JsString.isEmpty s).

(** [extractScoreData()], given the override inputs and the two current
    records; [None] is the [null] of the last line. *)
Definition extractScoreData (overrides : Overrides.t)
  (currentScoreData : option ScoreResponse)
  (currentMapData : option MapResponse) : option ScoreData.t :=
  let parseInt := JsNumber.parseInt in
  let parseFloat := JsNumber.parseFloat in
  match currentScoreData, currentMapData with
  | Some data, _ =>
      Some {|
        ScoreData.score :=
          if isSet (Overrides.score overrides)
          then parseInt (Overrides.score overrides)
          else (if lazer data then Upstream.score (score data)
                else Upstream.classic_score (score data));
        ScoreData.classic_score :=
          Some (if isSet (Overrides.score overrides)
                then parseInt (Overrides.score overrides)
                else Upstream.classic_score (score data));
        ScoreData.c300 :=
          if isSet (Overrides.count300 overrides)
          then parseInt (Overrides.count300 overrides)
          else Upstream.c300 (score data);
        ScoreData.c100 :=
          if isSet (Overrides.count100 overrides)
          then parseInt (Overrides.count100 overrides)
          else Upstream.c100 (score data);
        ScoreData.c50 :=
          if isSet (Overrides.count50 overrides)
          then parseInt (Overrides.count50 overrides)
          else Upstream.c50 (score data);
        ScoreData.misses :=
          if isSet (Overrides.countMiss overrides)
          then parseInt (Overrides.countMiss overrides)
          else Upstream.misses (score data);
        ScoreData.cEnds :=
          if isSet (Overrides.countSliderEnds overrides)
          then parseInt (Overrides.countSliderEnds overrides)
          else Upstream.cEnds (score data);
        ScoreData.max_combo :=
          if isSet (Overrides.combo overrides)
          then parseInt (Overrides.combo overrides)
          else Upstream.max_combo (score data);
        ScoreData.accuracy :=
          if isSet (Overrides.accuracy overrides)
          then JsNumber.div100 (parseFloat (Overrides.accuracy overrides))
          else Upstream.accuracy (score data);
        ScoreData.pp :=
          if isSet (Overrides.pp overrides)
          then parseFloat (Overrides.pp overrides)
          else Upstream.pp (score data);
        ScoreData.rank :=
          if isSet (Overrides.rank overrides)
          then Overrides.rank overrides
          else Upstream.rank (score data);
        ScoreData.mods :=
          if isSet (Overrides.mods overrides)
          then parseModsString (Overrides.mods overrides)
          else Upstream.mods (score data);
        ScoreData.leaderboard :=
          if isSet (Overrides.leaderboard overrides)
          then parseInt (Overrides.leaderboard overrides)
          else Upstream.leaderboard (score data);
        ScoreData.full_combo := Upstream.full_combo (score data);
        ScoreData.cSliders := Upstream.cSliders (score data)
      |}
  | None, Some _ =>
      Some {|
        ScoreData.score :=
          if isSet (Overrides.score overrides)
          then parseInt (Overrides.score overrides)
          else JsNumber.ofZ 0;
        ScoreData.classic_score := None;
        ScoreData.c300 :=
          if isSet (Overrides.count300 overrides)
          then parseInt (Overrides.count300 overrides)
          else JsNumber.ofZ 0;
        ScoreData.c100 :=
          if isSet (Overrides.count100 overrides)
          then parseInt (Overrides.count100 overrides)
          else JsNumber.ofZ 0;
        ScoreData.c50 :=
          if isSet (Overrides.count50 overrides)
          then parseInt (Overrides.count50 overrides)
          else JsNumber.ofZ 0;
        ScoreData.misses :=
          if isSet (Overrides.countMiss overrides)
          then parseInt (Overrides.countMiss overrides)
          else JsNumber.ofZ 0;
        ScoreData.cEnds :=
          if isSet (Overrides.countSliderEnds overrides)
          then parseInt (Overrides.countSliderEnds overrides)
          else JsNumber.ofZ 0;
        ScoreData.cSliders := JsNumber.ofZ 100;
        ScoreData.max_combo :=
          if isSet (Overrides.combo overrides)
          then parseInt (Overrides.combo overrides)
          else JsNumber.ofZ 0;
        ScoreData.accuracy :=
          if isSet (Overrides.accuracy overrides)
          then JsNumber.div100 (parseFloat (Overrides.accuracy overrides))
          else JsNumber.ofZ 0;
        ScoreData.pp :=
          if isSet (Overrides.pp overrides)
          then parseFloat (Overrides.pp overrides)
          else JsNumber.ofZ 0;
        ScoreData.rank :=
          if isSet (Overrides.rank overrides)
          then Overrides.rank overrides
          else "F";
        ScoreData.mods :=
          if isSet (Overrides.mods overrides)
          then parseModsString (Overrides.mods overrides)
          else [];
        ScoreData.leaderboard :=
          if isSet (Overrides.leaderboard overrides)
          then parseInt (Overrides.leaderboard overrides)
          else JsNumber.ofZ 0;
        ScoreData.full_combo := false
      |}
  | None, None => None
  end.

(** The number [generateScorecardHtml] passes to [formatScore] on the
    score line: [isLazer ? scoreData.score
                         : (scoreData.classic_score || scoreData.score)]. *)
Definition displayedScore (scoreData : ScoreData.t) (isLazer : bool) : number :=
  if isLazer then ScoreData.score scoreData
  else
    match ScoreData.classic_score scoreData with
    | Some classic =>
        if JsNumber.truthy classic then classic else ScoreData.score scoreData
    | None => ScoreData.score scoreData
    end.

(** ** Presentation calculator *)

(** How a call of the try block of [getGradientColour] ends. *)
Inductive completion (A : Type) : Type :=
| Normal (a : A)
| Throw.
Arguments Normal {A} a.
Arguments Throw {A}.

(** The three colour bytes [getImageData(x, y, 1, 1).data] starts with. *)
Record Pixel : Type := { red : N; green : N; blue : N }.

(** The canvas the gradient image was drawn on, with its 2d context:
    [getImageData x y] is [Throw] when the call raises. *)
Record Canvas : Type := {
  width : Z;
  height : Z;
  getImageData : Z -> Z -> completion Pixel
}.

(** [n.toString(16)] for a colour byte. *)
Definition toString16 (n : N) : string :=
  HexadecimalString.NilZero.string_of_uint (N.to_hex_uint n).

Fixpoint repeatChar (c : ascii) (n : nat) : string :=
  match n with
  | O => EmptyString
  | S n' => String c (repeatChar c n')
  end.

(** [s.padStart(targetLength, c)] for a one-character filler. *)
Definition padStart (s : string) (targetLength : nat) (c : ascii) : string :=
  repeatChar c (targetLength - JsString.len s) ++ s.

Definition hexColour (pixel : Pixel) : string :=
  "#" ++ padStart (toString16 (red pixel)) 2 "0"
      ++ padStart (toString16 (green pixel)) 2 "0"
      ++ padStart (toString16 (blue pixel)) 2 "0".

(** The fallback table of [getGradientColour]. *)
Definition colourMap : gmap Z string :=
  list_to_map
    [ (0, "#666666"); (1, "#4FC3F7"); (2, "#4CAF50"); (3, "#FFEB3B");
      (4, "#FF9800"); (5, "#FF5722"); (6, "#E91E63"); (7, "#9C27B0");
      (8, "#673AB7"); (9, "#3F51B5"); (10, "#000000") ].

Definition sentinelColour : string := "#ff6b6b".

(** [colourMap[index] || "#ff6b6b"] *)
Definition colourOrSentinel (index : Z) : string :=
  match colourMap !! index with
  | Some colour => if JsString.isEmpty colour then sentinelColour else colour
  | None => sentinelColour
  end.

(** The body of the try block: sample one pixel and print it. *)
Definition sampleColour (canvas : Canvas) (x y : Z) : completion string :=
  match getImageData canvas x y with
  | Normal pixel => Normal (hexColour pixel)
  | Throw => Throw
  end.

(** [getGradientColour(starRating)]; [gradient] is the pair of module
    variables [gradientCanvas], [gradientCtx], set together or not at all. *)
Definition getGradientColour (gradient : option Canvas) (starRating : Q)
  : completion string :=
  match gradient with
  | None =>
      let index := Z.min (Qfloor starRating) 10 in
      Normal (colourOrSentinel index)
  | Some gradientCanvas =>
      let clamped := Qmax 0 (Qmin 10 starRating) in
      let position := (clamped / 10)%Q in
      let x := Qfloor (position * inject_Z (width gradientCanvas - 1)) in
      let y := height gradientCanvas / 2 in
      match sampleColour gradientCanvas x y with
      | Normal colour => Normal colour
      | Throw => Normal sentinelColour
      end
  end.

(** [formatScore(score)] is [score.toLocaleString()], whose result depends
    on the locale of the browser: the formatter is a parameter. *)
Definition formatScore (toLocaleString : number -> string) (score : number)
  : string :=
  toLocaleString score.

(** [getPpDisplay(scoreData, isLoved)]; [ppOverride] is the text of the
    input of that name. *)
Definition getPpDisplay (toLocaleString : number -> string)
  (ppOverride : string) (scoreData : ScoreData.t) (isLoved : bool) : string :=
  if isLoved then
    if JsString.isEmpty ppOverride then "♥"
    else formatScore toLocaleString
           (JsNumber.round (JsNumber.parseFloat ppOverride)) ++ "pp ♥"
  else
    formatScore toLocaleString (JsNumber.round (ScoreData.pp scoreData)) ++ "pp".

(** [isLoved] as [updateScorecard] computes it. *)
Definition isLovedMap (beatmap : Beatmap) : bool :=
  String.eqb (status beatmap) "loved".

(** [ppDisplay] as [updateScorecard] computes it for the current map. *)
Definition ppDisplayFor (toLocaleString : number -> string)
  (ppOverride : string) (scoreData : ScoreData.t) (beatmap : Beatmap) : string :=
  getPpDisplay toLocaleString ppOverride scoreData (isLovedMap beatmap).

(** The decimal numeral of a natural number, as [String(n)] prints it. *)
Definition decimalNumeral (n : Z) : string :=
  DecimalString.NilZero.string_of_uint (N.to_uint (Z.to_N n)).

(** The en-US rendering of [toLocaleString]: digits grouped by three, at
    most three fraction digits. *)
Module EnUS.

Fixpoint groupFrom (remaining : nat) (s : string) : string :=
  match s with
  | EmptyString => EmptyString
  | String c s' =>
      let rest := groupFrom (remaining - 1) s' in
      match remaining with
      | S (S _) =>
          if ((remaining - 1) mod 3 =? 0)%nat
          then String c ("," ++ rest) else String c rest
      | _ => String c rest
      end
  end.

Definition group (s : string) : string := groupFrom (JsString.len s) s.

Fixpoint stripZeros (s : string) : string :=
  match s with
  | EmptyString => EmptyString
  | String c s' =>
      let r := stripZeros s' in
      if Ascii.eqb c "0" && JsString.isEmpty r then EmptyString else String c r
  end.

Definition fraction (thousandths : Z) : string :=
  let s := stripZeros (padStart (decimalNumeral thousandths) 3 "0") in
  if JsString.isEmpty s then EmptyString else "." ++ s.

Definition toLocaleString (n : number) : string :=
  match n with
  | NaN => "NaN"
  | Infinity negative => if negative then "-∞" else "∞"
  | Num q =>
      let m := Qfloor (Qabs q * 1000 + (1 # 2)) in
      (if Qlt_le_dec q 0 then "-" else "")
        ++ group (decimalNumeral (m / 1000)) ++ fraction (m mod 1000)
  end.

End EnUS.

(** ** Layout fitter *)

(** What the layout code reads from the page: the number of elements of
    class [mod-icon], whether an element of class [map-title] exists, and
    the scroll and client heights of the element of class [right-section]
    when there is one. *)
Record Box : Type := { scrollHeight : Z; clientHeight : Z }.

Record Document : Type := {
  modIcons : nat;
  mapTitle : bool;
  rightSection : option Box
}.

(** [calculateTitleSpace()] *)
Definition calculateTitleSpace (document : Document) : Z :=
  let scorecardWidth := 800 in
  let horizontalPadding := 40 in
  let modIconsLength := Z.of_nat (modIcons document) in
  let modIconsWidth := modIconsLength * 70 in
  let minSpacing := if modIconsLength >? 0 then 20 else 0 in
  let availableWidth :=
    scorecardWidth - horizontalPadding - modIconsWidth - minSpacing in
  Z.max 200 availableWidth.

Definition titleFont : string := "600 35px 'Fredoka', cursive".

(** [getTextWidth(text, font)]: the width the 2d context measures, rounded
    up.  The measure depends on the fonts of the browser: a parameter. *)
Definition getTextWidth (measureText : string -> string -> Q)
  (text font : string) : Z :=
  Qceiling (measureText font text).

(** The condition of the while loop of [adjustTitleSize]. *)
Definition stillTooWide (measureText : string -> string -> Q)
  (availableWidth : Z) (truncatedTitle : string) : bool :=
  (getTextWidth measureText (truncatedTitle ++ "..") titleFont >? availableWidth)
  && (JsString.length truncatedTitle >? 5).

(** The while loop of [adjustTitleSize]; [fuel] bounds the iterations. *)
Fixpoint truncateLoop (measureText : string -> string -> Q)
  (availableWidth : Z) (fuel : nat) (truncatedTitle : string) : string :=
  match fuel with
  | O => truncatedTitle
  | S fuel' =>
      if stillTooWide measureText availableWidth truncatedTitle
      then truncateLoop measureText availableWidth fuel'
             (JsString.slice_0_m1 truncatedTitle)
      else truncatedTitle
  end.

(** [adjustTitleSize(title)].  Every iteration of the loop removes one
    character and needs more than five of them, so the length of the title
    is fuel enough. *)
Definition adjustTitleSize (measureText : string -> string -> Q)
  (document : Document) (title : string) : string :=
  if negb (mapTitle document) then title
  else
    let availableWidth := calculateTitleSpace document in
    let textWidth := getTextWidth measureText title titleFont in
    if textWidth <=? availableWidth then title
    else
      let truncatedTitle :=
        truncateLoop measureText availableWidth (JsString.len title) title in
      if JsString.length truncatedTitle <? JsString.length title
      then truncatedTitle ++ ".."
      else truncatedTitle.

(** [calculateRequiredHeight(extraText, hasFullCombo)] *)
Definition calculateRequiredHeight (document : Document)
  (extraText : string) (hasFullCombo : bool) : Z :=
  let baseHeight := 600 in
  let additionalHeight := 0 in
  let additionalHeight :=
    if isSet extraText then
      let lines := Z.of_nat (List.length (JsString.split extraText "<br>")) in
      if lines >? 2 then additionalHeight + (lines - 2) * 30
      else additionalHeight
    else additionalHeight in
  let additionalHeight :=
    if hasFullCombo then
      match rightSection document with
      | Some box =>
          let contentHeight := scrollHeight box in
          let containerHeight := clientHeight box in
          if contentHeight >? containerHeight
          then additionalHeight
               + Z.max 0 (contentHeight - containerHeight + 20)
          else additionalHeight
      | None => additionalHeight
      end
    else additionalHeight in
  baseHeight + additionalHeight.

(** ** Further built-ins *)

(** The relational operators on Numbers: every comparison with [NaN] is
    false. *)
Module JsOrder.

Definition lt (a b : number) : bool :=
  match a, b with
  | NaN, _ => false
  | _, NaN => false
  | Infinity true, Infinity true => false
  | Infinity true, _ => true
  | _, Infinity true => false
  | Infinity false, _ => false
  | _, Infinity false => true
  | Num p, Num q => if Qlt_le_dec p q then true else false
  end.

Definition gt (a b : number) : bool := lt b a.

(** [a >= b] *)
Definition ge (a b : number) : bool :=
  match a, b with
  | NaN, _ => false
  | _, NaN => false
  | Num p, Num q => Qle_bool q p
  | Infinity false, _ => true
  | _, Infinity true => true
  | _, _ => false
  end.

End JsOrder.

(** The built-ins that print a Number, whose output for a fraction depends
    on the binary representation or on the locale: parameters. *)
Module Host.
Record t : Type := {
  toLocaleString : number -> string;
  toString : number -> string;
  toFixed2 : number -> string
}.
End Host.

(** [l.join(sep)] *)
Fixpoint join (sep : string) (l : list string) : string :=
  match l with
  | [] => EmptyString
  | [x] => x
  | x :: rest => x ++ sep ++ join sep rest
  end.

(** [s.includes(needle)] *)
Fixpoint includes (needle s : string) : bool :=
  JsString.startsWith needle s
  || match s with
     | EmptyString => false
     | String _ s' => includes needle s'
     end.

Fixpoint countChar (c : ascii) (s : string) : nat :=
  match s with
  | EmptyString => O
  | String x s' => ((if Ascii.eqb c x then 1 else 0) + countChar c s')%nat
  end.

Definition isDigitChar (c : ascii) : bool :=
  let n := nat_of_ascii c in (48 <=? n)%nat && (n <=? 57)%nat.

(** The characters [encodeURIComponent] leaves alone. *)
Definition isUnreserved (c : ascii) : bool :=
  JsString.isLower c || JsString.isUpper c || isDigitChar c
  || includes (String c EmptyString) "-_.!~*'()".

Definition hexDigit (n : nat) : ascii :=
  match JsString.drop n "0123456789ABCDEF" with
  | String c _ => c
  | EmptyString => "0"%char
  end.

Definition percentEncode (c : ascii) : string :=
  let n := nat_of_ascii c in
  String "%" (String (hexDigit (n / 16)) (String (hexDigit (n mod 16)) EmptyString)).

(** [encodeURIComponent(s)]: every character but the unreserved ones is
    escaped as [%XX]; a character beyond ASCII is escaped byte by byte
    of its UTF-8 form, which is how the text is held here. *)
Fixpoint encodeURIComponent (s : string) : string :=
  match s with
  | EmptyString => EmptyString
  | String c s' =>
      (if isUnreserved c then String c EmptyString else percentEncode c)
        ++ encodeURIComponent s'
  end.

(** Value of an upper-case hexadecimal digit, and the character an escape
    stands for; used to read an encoded text back. *)
Definition hexValue (c : ascii) : nat :=
  let n := nat_of_ascii c in
  if isDigitChar c then (n - 48)%nat else (n - 55)%nat.

Definition unescape (high low : ascii) : ascii :=
  ascii_of_nat (16 * hexValue high + hexValue low).

(** Reads an encoded text back, escape by escape; used to show that the
    encoding loses nothing. *)
Fixpoint unescapeAll (s : string) : string :=
  match s with
  | EmptyString => EmptyString
  | String c r =>
      if Ascii.eqb c "%" then
        match r with
        | String high (String low rest) =>
            String (unescape high low) (unescapeAll rest)
        | _ => String c (unescapeAll r)
        end
      else String c (unescapeAll r)
  end.

(** Every character of the text passes the test. *)
Fixpoint forallChars (p : ascii -> bool) (s : string) : bool :=
  match s with
  | EmptyString => true
  | String c r => p c && forallChars p r
  end.

(** The characters an encoded component is made of. *)
Definition isEncoded (c : ascii) : bool :=
  isUnreserved c || Ascii.eqb c "%".

(** A hexadecimal digit of either case, and a colour written [#rrggbb]. *)
Definition isHexDigit (c : ascii) : bool :=
  let n := nat_of_ascii c in
  isDigitChar c || ((97 <=? n)%nat && (n <=? 102)%nat)
  || ((65 <=? n)%nat && (n <=? 70)%nat).

Definition isHexColour (colour : string) : bool :=
  match colour with
  | String c digits =>
      Ascii.eqb c "#" && (JsString.len digits =? 6)%nat
      && forallChars isHexDigit digits
  | EmptyString => false
  end.

(** The canvas holds bytes: every colour component read is below 256. *)
Definition bytePixels (canvas : Canvas) : Prop :=
  forall x y pixel, getImageData canvas x y = Normal pixel ->
    (red pixel < 256)%N /\ (green pixel < 256)%N /\ (blue pixel < 256)%N.

(** ** Image references *)

(** [getProxiedImageUrl(type, originalUrl)] *)
Definition getProxiedImageUrl (type originalUrl : string) : string :=
  if JsString.isEmpty originalUrl then EmptyString
  else "/api/proxy-image/" ++ type ++ "?url=" ++ encodeURIComponent originalUrl.

(** The address [fetchImageAsDataUrl(imageUrl)] requests; [now] is
    [Date.now()]. *)
Definition bustUrl (imageUrl : string) (now : Z) : string :=
  imageUrl ++ (if includes "?" imageUrl then "&" else "?")
    ++ "_dl=" ++ decimalNumeral now.

(** ** User data *)

Module UserOverrides.
Record t : Type := {
  username : string;
  userRank : string;
  avatarUrl : string
}.
End UserOverrides.

(** [data.user] of the reply to a score request; the server sends [null]
    as rank for a player without a global rank. *)
Module UpstreamUser.
Record t : Type := {
  username : string;
  user_rank : option number;
  avatar_url : string;
  country : string
}.
End UpstreamUser.

(** The whole reply to a score request. *)
Record ScoreReply : Type := {
  response : ScoreResponse;
  user : UpstreamUser.t
}.

(** What [userData.userRank] can hold: a Number, the text of the override
    input, or [null]. *)
Inductive rankValue : Type :=
| RankNumber (n : number)
| RankText (text : string)
| RankNull.

Module UserData.
Record t : Type := {
  username : string;
  userRank : rankValue;
  avatarUrl : string;
  country : string
}.
End UserData.

Definition defaultAvatarUrl : string :=
  "https://osu.ppy.sh/images/layout/avatar-guest.png".

(** [extractUserData()] *)
Definition extractUserData (userOverrides : UserOverrides.t)
  (currentScoreData : option ScoreReply)
  (currentMapData : option MapResponse) : option UserData.t :=
  match currentScoreData, currentMapData with
  | Some data, _ =>
      Some {|
        UserData.username :=
          if isSet (UserOverrides.username userOverrides)
          then UserOverrides.username userOverrides
          else UpstreamUser.username (user data);
        UserData.userRank :=
          if isSet (UserOverrides.userRank userOverrides)
          then RankNumber (JsNumber.parseInt (UserOverrides.userRank userOverrides))
          else match UpstreamUser.user_rank (user data) with
               | Some n => RankNumber n
               | None => RankNull
               end;
        UserData.avatarUrl :=
          if isSet (UserOverrides.avatarUrl userOverrides)
          then UserOverrides.avatarUrl userOverrides
          else UpstreamUser.avatar_url (user data);
        UserData.country := UpstreamUser.country (user data)
      |}
  | None, Some _ =>
      Some {|
        UserData.username :=
          if isSet (UserOverrides.username userOverrides)
          then UserOverrides.username userOverrides
          else "Guest";
        UserData.userRank :=
          if isSet (UserOverrides.userRank userOverrides)
          then RankText (UserOverrides.userRank userOverrides)
          else RankNumber (JsNumber.ofZ 0);
        UserData.avatarUrl :=
          if isSet (UserOverrides.avatarUrl userOverrides)
          then UserOverrides.avatarUrl userOverrides
          else defaultAvatarUrl;
        UserData.country := "xx"
      |}
  | None, None => None
  end.

(** [getBeatmapData()] *)
Definition getBeatmapData (currentScoreData : option ScoreReply)
  (currentMapData : option MapResponse) : option Beatmap :=
  match currentScoreData, currentMapData with
  | Some data, _ => Some (score_beatmap (response data))
  | None, Some data => Some (map_beatmap data)
  | None, None => None
  end.

(** The text of the user-rank line, [#${formatScore(userData.userRank)}]:
    a Number is printed by the locale, a text prints as itself, and
    [null] has no [toLocaleString]. *)
Definition userRankLine (host : Host.t) (userData : UserData.t)
  : completion string :=
  match UserData.userRank userData with
  | RankNumber n => Normal ("#" ++ formatScore (Host.toLocaleString host) n)
  | RankText text => Normal ("#" ++ text)
  | RankNull => Throw
  end.

(** The avatar address [updateScorecard] puts in the card. *)
Definition avatarReference (userData : UserData.t) : string :=
  getProxiedImageUrl "avatar" (UserData.avatarUrl userData).

(** ** Override inputs *)

(** [/^([A-Z]{2})(,[A-Z]{2})*$/]: the part after the first code. *)
Fixpoint isModListTail (s : string) : bool :=
  match s with
  | EmptyString => true
  | String c (String a (String b r)) =>
      Ascii.eqb c "," && JsString.isUpper a && JsString.isUpper b
      && isModListTail r
  | _ => false
  end.

(** The test [/^([A-Z]{2})(,[A-Z]{2})*$/]. *)
Definition isModList (s : string) : bool :=
  match s with
  | String a (String b r) =>
      JsString.isUpper a && JsString.isUpper b && isModListTail r
  | _ => false
  end.

(** The valid codes of a mods text, in order: what [parseModsString]
    keeps of it. *)
Definition modCodes (text : string) : list string :=
  List.filter isModCode
    (map (fun m => JsString.toUpperCase (JsString.trim m))
       (JsString.split text ",")).

(** The blur handler of the mods input: the new text of the input and
    whether it gets the valid (green) styling. *)
Definition modsBlur (text : string) : string * bool :=
  let value := JsString.toUpperCase text in
  let text' :=
    if isSet value then
      let parts := JsString.split value "," in
      let validParts :=
        List.filter
          (fun part => (JsString.len part =? 0)%nat
                       || isModCode (JsString.trim part)) parts in
      let cleaned :=
        join ","
          (List.filter (fun part => (JsString.len part =? 2)%nat)
             (map JsString.trim validParts)) in
      cleaned
    else text in
  (text', JsString.isEmpty text' || isModList text').

(** The input handlers of [setupScoreValidation]: the new text of the
    input.  Assigning a Number to [value] stores its numeral. *)
Definition accuracyInput (text : string) : string :=
  let value := JsNumber.parseFloat text in
  let text := if JsOrder.lt value (JsNumber.ofZ 0) then "0" else text in
  if JsOrder.gt value (JsNumber.ofZ 100) then "100" else text.

Definition ppInput (text : string) : string :=
  let value := JsNumber.parseFloat text in
  if JsOrder.lt value (JsNumber.ofZ 0) then "0" else text.

Definition scoreInput (text : string) : string :=
  let value := JsNumber.parseInt text in
  let text := if JsOrder.lt value (JsNumber.ofZ 0) then "0" else text in
  if JsOrder.gt value (JsNumber.ofZ 999999999) then "999999999" else text.

(** The handler shared by the hit counts, the combo, the leaderboard
    position and the user rank. *)
Definition countInput (text : string) : string :=
  let value := JsNumber.parseInt text in
  if JsOrder.lt value (JsNumber.ofZ 0) then "0" else text.

Definition usernameInput (text : string) : string :=
  if JsString.length text >? 15 then JsString.substring text 0 15 else text.

(** The placeholder of the mods input in [populateOverrideFields]. *)
Definition modsPlaceholder (mods : list Mod) : string :=
  let modsString := join "," (map acronym mods) in
  if isSet modsString then modsString else "No mods".

(** [n * 100] *)
Definition times100 (n : number) : number :=
  match n with
  | Num q => Num (Qred (q * 100))
  | _ => n
  end.

(** [formatAccuracy(accuracy)] *)
Definition formatAccuracy (host : Host.t) (accuracy : number) : string :=
  Host.toFixed2 host (times100 accuracy).

(** The part of the form the fetch handlers write: the placeholders, the
    lazer checkbox and the visibility of the slider-ends column. *)
Module Form.
Record t : Type := {
  scoreOverride : string;
  count300 : string;
  count100 : string;
  count50 : string;
  countMiss : string;
  countSliderEnds : string;
  comboOverride : string;
  accuracyOverride : string;
  ppScoreOverride : string;
  leaderboardOverride : string;
  modsOverride : string;
  usernameOverride : string;
  userRankOverride : string;
  avatarUrlOverride : string;
  lazerScoringOverride : bool;
  sliderEndsShown : bool
}.
End Form.

(** [populateOverrideFields(data)]: the form it leaves and how it ends.
    The rank of the player is [null] for a player without a global rank,
    and [null.toString()] raises after the placeholders before it are
    written. *)
Definition populateOverrideFields (host : Host.t) (data : ScoreReply)
  (form : Form.t) : Form.t * completion unit :=
  let s := score (response data) in
  let written (userRank avatarUrl : string) (lazerBox sliderEnds : bool) :=
    {| Form.scoreOverride :=
         formatScore (Host.toLocaleString host)
           (if lazer (response data) then Upstream.score s
            else Upstream.classic_score s);
       Form.count300 := Host.toString host (Upstream.c300 s);
       Form.count100 := Host.toString host (Upstream.c100 s);
       Form.count50 := Host.toString host (Upstream.c50 s);
       Form.countMiss := Host.toString host (Upstream.misses s);
       Form.countSliderEnds := Host.toString host (Upstream.cEnds s);
       Form.comboOverride := Host.toString host (Upstream.max_combo s);
       Form.accuracyOverride := formatAccuracy host (Upstream.accuracy s);
       Form.ppScoreOverride :=
         Host.toString host (JsNumber.round (Upstream.pp s));
       Form.leaderboardOverride := Host.toString host (Upstream.leaderboard s);
       Form.modsOverride := modsPlaceholder (Upstream.mods s);
       Form.usernameOverride := UpstreamUser.username (user data);
       Form.userRankOverride := userRank;
       Form.avatarUrlOverride := avatarUrl;
       Form.lazerScoringOverride := lazerBox;
       Form.sliderEndsShown := sliderEnds |} in
  match UpstreamUser.user_rank (user data) with
  | Some rank =>
      (written (Host.toString host rank) (UpstreamUser.avatar_url (user data))
         (lazer (response data)) (lazer (response data)),
       Normal tt)
  | None =>
      (written (Form.userRankOverride form) (Form.avatarUrlOverride form)
         (Form.lazerScoringOverride form) (Form.sliderEndsShown form),
       Throw)
  end.

(** ** The current records *)

(** The two module variables, the form, and what the fetch handlers
    themselves switch on the page: the override panel, the
    performance-points input and the generate button. *)
Record AppState : Type := {
  currentScoreData : option ScoreReply;
  currentMapData : option MapResponse;
  form : Form.t;
  scoreOverridesShown : bool;
  ppInputShown : bool;
  generateDisabled : bool
}.

(** The catch block of [fetchScoreData]. *)
Definition scoreFetchFailed (st : AppState) : AppState :=
  {| currentScoreData := None;
     currentMapData := currentMapData st;
     form := form st;
     scoreOverridesShown := false;
     ppInputShown := ppInputShown st;
     generateDisabled := true |}.

(** [fetchScoreData] from the point where the reply [data] is parsed. *)
Definition scoreFetched (host : Host.t) (data : ScoreReply) (st : AppState)
  : AppState :=
  let st1 :=
    {| currentScoreData := Some data;
       currentMapData := None;
       form := form st;
       scoreOverridesShown := true;
       ppInputShown := isLovedMap (score_beatmap (response data));
       generateDisabled := generateDisabled st |} in
  match populateOverrideFields host data (form st1) with
  | (form', Normal _) =>
      {| currentScoreData := currentScoreData st1;
         currentMapData := currentMapData st1;
         form := form';
         scoreOverridesShown := scoreOverridesShown st1;
         ppInputShown := ppInputShown st1;
         generateDisabled := false |}
  | (form', Throw) =>
      scoreFetchFailed
        {| currentScoreData := currentScoreData st1;
           currentMapData := currentMapData st1;
           form := form';
           scoreOverridesShown := scoreOverridesShown st1;
           ppInputShown := ppInputShown st1;
           generateDisabled := generateDisabled st1 |}
  end.

(** [fetchMapData] from the point where the reply [data] is parsed. *)
Definition mapFetched (data : MapResponse) (st : AppState) : AppState :=
  {| currentScoreData := None;
     currentMapData := Some data;
     form := form st;
     scoreOverridesShown := true;
     ppInputShown := isLovedMap (map_beatmap data);
     generateDisabled := false |}.

(** The catch block of [fetchMapData]. *)
Definition mapFetchFailed (st : AppState) : AppState :=
  {| currentScoreData := currentScoreData st;
     currentMapData := None;
     form := form st;
     scoreOverridesShown := false;
     ppInputShown := ppInputShown st;
     generateDisabled := true |}.

(** How a fetch can end. *)
Inductive FetchOutcome : Type :=
| ScoreReplied (data : ScoreReply)
| ScoreFailed
| MapReplied (data : MapResponse)
| MapFailed.

Definition step (host : Host.t) (st : AppState) (outcome : FetchOutcome)
  : AppState :=
  match outcome with
  | ScoreReplied data => scoreFetched host data st
  | ScoreFailed => scoreFetchFailed st
  | MapReplied data => mapFetched data st
  | MapFailed => mapFetchFailed st
  end.

(** The state after a sequence of fetches has ended, in that order. *)
Definition run (host : Host.t) (st : AppState) (outcomes : list FetchOutcome)
  : AppState :=
  fold_left (step host) outcomes st.

(** Some record is loaded: the test [currentScoreData || currentMapData]. *)
Definition loaded (st : AppState) : bool :=
  match currentScoreData st, currentMapData st with
  | None, None => false
  | _, _ => true
  end.

(** At most one of the two records is set. *)
Definition exclusive (st : AppState) : Prop :=
  currentScoreData st = None \/ currentMapData st = None.

(** What holds once a fetch has ended: at most one record is set, the
    generate button is enabled exactly when the override panel is shown,
    and the panel is shown only with a record loaded. *)
Definition settled (st : AppState) : Prop :=
  exclusive st /\
  scoreOverridesShown st = negb (generateDisabled st) /\
  (scoreOverridesShown st = true -> loaded st = true).

(** The rank the server puts in its reply:
    [userData.statistics?.global_rank || null]. *)
Definition serverUserRank (global_rank : option number) : option number :=
  match global_rank with
  | Some n => if JsNumber.truthy n then Some n else None
  | None => None
  end.

(** ** Pieces of [updateScorecard] *)

(** [value.replace(/\n/g, '<br>')] *)
Fixpoint replaceNewlines (value : string) : string :=
  match value with
  | EmptyString => EmptyString
  | String c r =>
      if Ascii.eqb c "010" then "<br>" ++ replaceNewlines r
      else String c (replaceNewlines r)
  end.

(** [fullComboText] *)
Definition fullComboText (fullComboOverride : bool)
  (currentScoreData : option ScoreReply) (scoreData : ScoreData.t) : string :=
  if fullComboOverride
     || (match currentScoreData with
         | Some _ => ScoreData.full_combo scoreData
         | None => false
         end)
  then "Full Combo!" else "".

(** The height [updateScorecard] asks for through
    [adjustScorecardHeight(extraText, fullComboText !== "")], given the
    text of the extra-text area and the full-combo checkbox.  The call is
    made once the card holding the text is in the page: [document] is
    the page as measured then, so its right section is measured with the
    text in it, and another text means another [document]. *)
Definition scorecardHeight (document : Document) (textarea : string)
  (fullComboOverride : bool) (currentScoreData : option ScoreReply)
  (scoreData : ScoreData.t) : Z :=
  calculateRequiredHeight document (replaceNewlines textarea)
    (isSet (fullComboText fullComboOverride currentScoreData scoreData)).

(** ** Right-section size classes *)

Record SizeClass : Type := { className : string; maxWidth : Q }.

Definition ppSizes : list SizeClass :=
  [ {| className := "size-large"; maxWidth := 300 |};
    {| className := "size-medium"; maxWidth := 250 |};
    {| className := "size-small"; maxWidth := 200 |};
    {| className := "size-tiny"; maxWidth := 150 |} ].

Definition fcSizes : list SizeClass :=
  [ {| className := "size-large"; maxWidth := 250 |};
    {| className := "size-medium"; maxWidth := 200 |};
    {| className := "size-small"; maxWidth := 150 |} ].

(** The [for ... break] loop over a size table: the first entry whose
    threshold the available width reaches. *)
Fixpoint firstFitting (sizes : list SizeClass) (availableWidth : Q)
  : option SizeClass :=
  match sizes with
  | [] => None
  | size :: rest =>
      if Qle_bool (maxWidth size) availableWidth then Some size
      else firstFitting rest availableWidth
  end.

(** A table whose thresholds never grow from one entry to a later one. *)
Definition descending (sizes : list SizeClass) : Prop :=
  forall before size after size',
    sizes = (before ++ size :: after)%list -> In size' after ->
    (maxWidth size' <= maxWidth size)%Q.

(** What [adjustRightSectionSizes] reads and writes: the widths of the
    card and of its left section when those elements exist, whether the
    right section exists, the class of the performance text and the class
    and text of the full-combo banner when those elements exist. *)
Record RightSection : Type := {
  scorecardWidth : option Q;
  leftWidth : option Q;
  rightPresent : bool;
  ppClass : option string;
  fullCombo : option (string * string)
}.

(** [adjustRightSectionSizes()] *)
Definition adjustRightSectionSizes (page : RightSection) : RightSection :=
  match scorecardWidth page, leftWidth page, rightPresent page with
  | Some cardWidth, Some sectionWidth, true =>
      let availableWidth := (cardWidth - (sectionWidth + 50))%Q in
      {| scorecardWidth := scorecardWidth page;
         leftWidth := leftWidth page;
         rightPresent := rightPresent page;
         ppClass :=
           match ppClass page with
           | Some old =>
               match firstFitting ppSizes availableWidth with
               | Some size => Some ("pp " ++ className size)
               | None => Some old
               end
           | None => None
           end;
         fullCombo :=
           match fullCombo page with
           | Some (old, text) =>
               if isSet text then
                 match firstFitting fcSizes availableWidth with
                 | Some size => Some ("full-combo " ++ className size, text)
                 | None => Some (old, text)
                 end
               else Some (old, text)
           | None => None
           end |}
  | _, _, _ => page
  end.

(** ** The specification's wording, for comparison *)

Module Spec.

(** Field resolution as the specification words it: the override when it
    is present and parses to a valid value, else the upstream value,
    else the documented default. *)
Definition resolveField {A : Type} (override upstream : option A)
  (default : A) : A :=
  match override, upstream with
  | Some v, _ => v
  | None, Some u => u
  | None, None => default
  end.

(** An override text read as a count: present, and an integer. *)
Definition validCount (text : string) : option number :=
  if isSet text then
    match JsNumber.parseInt text with
    | NaN => None
    | n => Some n
    end
  else None.

(** The two totals of a score record, "override-aware". *)
Definition modernTotal (overrides : Overrides.t) (data : ScoreResponse)
  : number :=
  if isSet (Overrides.score overrides)
  then JsNumber.parseInt (Overrides.score overrides)
  else Upstream.score (score data).

Definition classicTotal (overrides : Overrides.t) (data : ScoreResponse)
  : number :=
  if isSet (Overrides.score overrides)
  then JsNumber.parseInt (Overrides.score overrides)
  else Upstream.classic_score (score data).

(** Score value selection as worded: the modern total in modern mode,
    the classic total in classic mode. *)
Definition displayedScore (overrides : Overrides.t) (data : ScoreResponse)
  (isLazer : bool) : number :=
  if isLazer then modernTotal overrides data else classicTotal overrides data.

(** The override text when set, parsed; otherwise the fallback. *)
Definition overrideOr {A : Type} (text : string) (parse : string -> A)
  (otherwise : A) : A :=
  if isSet text then parse text else otherwise.


(** Number of lines of the auxiliary text: none for an empty text, else
    the number of segments separated by [<br>]. *)
Definition lineCount (extraText : string) : Z :=
  if isSet extraText
  then Z.of_nat (List.length (JsString.split extraText "<br>"))
  else 0.

(** Vertical sizing as worded: the base height, 30 per line beyond the
    first two, and the overflow of the right section (content height
    minus container height, floored at 0) when the banner is shown. *)
Definition requiredHeight (document : Document) (extraText : string)
  (hasFullCombo : bool) : Z :=
  600 + 30 * Z.max 0 (lineCount extraText - 2)
    + (if hasFullCombo then
         match rightSection document with
         | Some box =>
             if scrollHeight box >? clientHeight box
             then Z.max 0 (scrollHeight box - clientHeight box)
             else 0
         | None => 0
         end
       else 0).

(** The same with the 20 units the code adds to a positive overflow. *)
Definition requiredHeightPadded (document : Document) (extraText : string)
  (hasFullCombo : bool) : Z :=
  600 + 30 * Z.max 0 (lineCount extraText - 2)
    + (if hasFullCombo then
         match rightSection document with
         | Some box =>
             if scrollHeight box >? clientHeight box
             then scrollHeight box - clientHeight box + 20
             else 0
         | None => 0
         end
       else 0).

(** Title width as worded: container width minus padding minus the icons
    minus the spacing when there is an icon, floored at the minimum. *)
Definition titleSpace (icons : nat) : Z :=
  Z.max 200
    (800 - 40 - Z.of_nat icons * 70
     - (match icons with O => 0 | S _ => 20 end)).

Definition isLetter (c : ascii) : bool :=
  JsString.isLower c || JsString.isUpper c.

(** Exactly two letters. *)
Definition isTwoLetters (token : string) : bool :=
  match token with
  | String a (String b EmptyString) => isLetter a && isLetter b
  | _ => false
  end.

(** Mods parsing as worded: split on commas, trim, drop what is not
    exactly two letters, upper-case. *)
Definition parseMods (modsString : string) : list Mod :=
  map (fun token => {| acronym := JsString.toUpperCase token |})
    (List.filter isTwoLetters
       (map JsString.trim (JsString.split modsString ","))).

End Spec.

(** Sample records used in the examples below. *)
Module Sample.

Definition beatmap : Beatmap :=
  {| title := "Blue Zenith"; difficulty := "FOUR DIMENSIONS";
     star_rating := 52 # 10; status := "ranked" |}.


Definition upstream : Upstream.t :=
  {| Upstream.score := JsNumber.ofZ 1000000;
     Upstream.classic_score := JsNumber.ofZ 987654;
     Upstream.c300 := JsNumber.ofZ 500;
     Upstream.c100 := JsNumber.ofZ 10;
     Upstream.c50 := JsNumber.ofZ 0;
     Upstream.misses := JsNumber.ofZ 1;
     Upstream.cEnds := JsNumber.ofZ 40;
     Upstream.cSliders := JsNumber.ofZ 42;
     Upstream.max_combo := JsNumber.ofZ 800;
     Upstream.accuracy := Num (97 # 100);
     Upstream.pp := Num (7274 # 10);
     Upstream.rank := "S";
     Upstream.mods := [ {| acronym := "HD" |} ];
     Upstream.leaderboard := JsNumber.ofZ 12;
     Upstream.full_combo := false |}.

(** A score set on the stable client: the server flags it not lazer. *)
Definition stableScore : ScoreResponse :=
  {| lazer := false; score := upstream; score_beatmap := beatmap |}.

Definition lazerScore : ScoreResponse :=
  {| lazer := true; score := upstream; score_beatmap := beatmap |}.

(** A lazer score of 5 points whose classic total is 0. *)
Definition zeroClassic : ScoreResponse :=
  {| lazer := true;
     score :=
       {| Upstream.score := JsNumber.ofZ 5;
          Upstream.classic_score := JsNumber.ofZ 0;
          Upstream.c300 := JsNumber.ofZ 0;
          Upstream.c100 := JsNumber.ofZ 0;
          Upstream.c50 := JsNumber.ofZ 1;
          Upstream.misses := JsNumber.ofZ 300;
          Upstream.cEnds := JsNumber.ofZ 0;
          Upstream.cSliders := JsNumber.ofZ 42;
          Upstream.max_combo := JsNumber.ofZ 1;
          Upstream.accuracy := Num (1 # 1000);
          Upstream.pp := JsNumber.ofZ 0;
          Upstream.rank := "D";
          Upstream.mods := [];
          Upstream.leaderboard := JsNumber.ofZ 0;
          Upstream.full_combo := false |};
     score_beatmap := beatmap |}.

Definition mapOnly : MapResponse := {| map_beatmap := beatmap |}.

(** The 300 count overridden by a text that is no number. *)
Definition badCount : Overrides.t :=
  {| Overrides.score := ""; Overrides.count300 := "abc";
     Overrides.count100 := ""; Overrides.count50 := "";
     Overrides.countMiss := ""; Overrides.countSliderEnds := "";
     Overrides.combo := ""; Overrides.accuracy := ""; Overrides.pp := "";
     Overrides.rank := ""; Overrides.mods := ""; Overrides.leaderboard := "" |}.

Definition someOverrides : Overrides.t :=
  {| Overrides.score := "123456"; Overrides.count300 := "";
     Overrides.count100 := "7"; Overrides.count50 := "";
     Overrides.countMiss := ""; Overrides.countSliderEnds := "";
     Overrides.combo := ""; Overrides.accuracy := "98.5"; Overrides.pp := "";
     Overrides.rank := "A"; Overrides.mods := "HD, dt ,xx1";
     Overrides.leaderboard := "" |}.


(** A page with two mod icons whose right section overflows by 10. *)
Definition page : Document :=
  {| modIcons := 2; mapTitle := true;
     rightSection := Some {| scrollHeight := 110; clientHeight := 100 |} |}.


(** A measure that gives every character the same width, 20. *)
Definition fixedPitch (font text : string) : Q :=
  inject_Z (20 * JsString.length text).

Definition longDifficulty : string :=
  "Extra Stage: The Unforgiving Ascent to Nowhere".

Definition longTitle : string :=
  "The Quick Brown Fox Jumps Over The Lazy Dog".


(** A page with nine mod icons. *)
Definition crowdedPage : Document :=
  {| modIcons := 9; mapTitle := true; rightSection := None |}.


(** A measure that gives every character the width 1000. *)
Definition hugePitch (font text : string) : Q :=
  inject_Z (1000 * JsString.length text).


(** A card 800 wide whose left section takes 480. *)
Definition rightSide : RightSection :=
  {| scorecardWidth := Some 800%Q; leftWidth := Some 480%Q; rightPresent := true;
     ppClass := Some "pp"; fullCombo := Some ("full-combo", "Full Combo!") |}.


(** Four lines typed in the extra-text area. *)
Definition fourLines : string :=
  String.concat (String "010" EmptyString)
    ["first try"; "no misses"; "played blind"; "hands hurt"].


Definition player : UpstreamUser.t :=
  {| UpstreamUser.username := "Mrekk"; UpstreamUser.user_rank := Some (JsNumber.ofZ 1);
     UpstreamUser.avatar_url := "https://a.ppy.sh/7562902?1.jpeg";
     UpstreamUser.country := "AU" |}.

(** A player the ranking does not list. *)
Definition newcomer : UpstreamUser.t :=
  {| UpstreamUser.username := "Fresh"; UpstreamUser.user_rank := None;
     UpstreamUser.avatar_url := ""; UpstreamUser.country := "DE" |}.

Definition rankedReply : ScoreReply :=
  {| response := stableScore; user := player |}.

Definition unrankedReply : ScoreReply :=
  {| response := stableScore; user := newcomer |}.

Definition zeroReply : ScoreReply :=
  {| response := zeroClassic; user := player |}.


Definition threeMods : list Mod :=
  [ {| acronym := "HD" |}; {| acronym := "DT" |}; {| acronym := "CL" |} ].


(** The overrides after the handlers ran on a score of 2000000000 and an
    accuracy of 250. *)
Definition typedOverrides : Overrides.t :=
  {| Overrides.score := scoreInput "2000000000"; Overrides.count300 := "";
     Overrides.count100 := ""; Overrides.count50 := "";
     Overrides.countMiss := ""; Overrides.countSliderEnds := "";
     Overrides.combo := ""; Overrides.accuracy := accuracyInput "250";
     Overrides.pp := ""; Overrides.rank := ""; Overrides.mods := "";
     Overrides.leaderboard := "" |}.


(** Only the user rank is overridden. *)
Definition rankTyped : UserOverrides.t :=
  {| UserOverrides.username := ""; UserOverrides.userRank := "12345";
     UserOverrides.avatarUrl := "" |}.


(** A canvas of 100 by 10 pixels whose red grows and whose blue falls
    from left to right. *)
Definition ramp : Canvas :=
  {| width := 100; height := 10;
     getImageData := fun x y =>
       Normal {| red := Z.to_N x; green := 0; blue := Z.to_N (255 - x) |} |}.


(** A canvas of 11 by 2 pixels with small byte components. *)
Definition dimRamp : Canvas :=
  {| width := 11; height := 2;
     getImageData := fun x y =>
       Normal {| red := Z.to_N x mod 256; green := Z.to_N (2 * x) mod 256;
                 blue := 0 mod 256 |} |}.


(** A host that prints the integers the samples use: the integer part of
    a Number as its decimal numeral, the en-US grouping for the locale. *)
Definition host : Host.t :=
  {| Host.toLocaleString := EnUS.toLocaleString;
     Host.toString := fun n =>
       match n with
       | Num q => (if Qlt_le_dec q 0 then "-" else "")
                    ++ decimalNumeral (Z.abs (Qfloor q))
       | Infinity negative => if negative then "-Infinity" else "Infinity"
       | NaN => "NaN"
       end;
     Host.toFixed2 := fun n =>
       match n with
       | Num q =>
           let m := Qfloor (Qabs q * 100 + (1 # 2)) in
           (if Qlt_le_dec q 0 then "-" else "")
             ++ decimalNumeral (m / 100) ++ "."
             ++ padStart (decimalNumeral (m mod 100)) 2 "0"
       | Infinity negative => if negative then "-Infinity" else "Infinity"
       | NaN => "NaN"
       end |}.

(** The page before anything is loaded. *)
Definition blankForm : Form.t :=
  {| Form.scoreOverride := ""; Form.count300 := ""; Form.count100 := "";
     Form.count50 := ""; Form.countMiss := ""; Form.countSliderEnds := "";
     Form.comboOverride := ""; Form.accuracyOverride := "";
     Form.ppScoreOverride := ""; Form.leaderboardOverride := "";
     Form.modsOverride := ""; Form.usernameOverride := "";
     Form.userRankOverride := ""; Form.avatarUrlOverride := "";
     Form.lazerScoringOverride := false; Form.sliderEndsShown := false |}.

Definition freshPage : AppState :=
  {| currentScoreData := None;
     currentMapData := None;
     form := blankForm;
     scoreOverridesShown := false;
     ppInputShown := false;
     generateDisabled := true |}.

End Sample.

(** ** Properties *)

(** *** The built-ins on sample inputs *)

Example parseInt_samples :
  JsNumber.parseInt "  -12abc" = JsNumber.ofZ (-12) /\
  JsNumber.parseInt "0x1f" = JsNumber.ofZ 31 /\
  JsNumber.parseInt "007" = JsNumber.ofZ 7 /\
  JsNumber.parseInt "abc" = NaN /\
  JsNumber.parseInt ".5" = NaN /\
  JsNumber.parseInt "-" = NaN.
Proof. repeat split; reflexivity. Qed.

Example parseFloat_samples :
  JsNumber.parseFloat " 98.76%" = Num (2469 # 25) /\
  JsNumber.parseFloat "1.5e2x" = Num 150 /\
  JsNumber.parseFloat "-.5e-1" = Num (-1 # 20) /\
  JsNumber.parseFloat "1.e" = Num 1 /\
  JsNumber.parseFloat "e5" = NaN /\
  JsNumber.parseFloat "-Infinity" = Infinity true.
Proof. repeat split; vm_compute; reflexivity. Qed.

Example round_samples :
  JsNumber.round (Num (5 # 2)) = JsNumber.ofZ 3 /\
  JsNumber.round (Num (-5 # 2)) = JsNumber.ofZ (-2) /\
  JsNumber.round (Num (7274 # 10)) = JsNumber.ofZ 727 /\
  JsNumber.round NaN = NaN.
Proof. repeat split; vm_compute; reflexivity. Qed.

Example string_samples :
  JsString.trim "  a b  " = "a b" /\
  JsString.toUpperCase "hd1" = "HD1" /\
  JsString.split "HD, dt ,xx1" "," = ["HD"; " dt "; "xx1"] /\
  JsString.split "" "," = [""] /\
  JsString.split "a<br>b<br><br>" "<br>" = ["a"; "b"; ""; ""] /\
  JsString.substring "abcdef" 4 1 = "bcd" /\
  JsString.slice_0_m1 "abc" = "ab".
Proof. repeat split; reflexivity. Qed.

Example toUpperCase_samples :
  JsString.toUpperCase "Straße 1,ﬁx" = "STRASSE 1,FIX" /\
  JsString.toUpperCase "ıſ" = "IS".
Proof. repeat split; reflexivity. Qed.

Example toLocaleString_samples :
  map EnUS.toLocaleString
    [JsNumber.ofZ 987654; JsNumber.ofZ 0; JsNumber.ofZ (-1234567);
     Num (12345678 # 10000); JsNumber.ofZ 1000; NaN]
  = ["987,654"; "0"; "-1,234,567"; "1,234.568"; "1,000"; "NaN"].
Proof. vm_compute. reflexivity. Qed.

Example hexColour_sample :
  hexColour {| red := 255; green := 0; blue := 171 |} = "#ff00ab".
Proof. reflexivity. Qed.

Section StringFacts.

Lemma len_append (s t : string) :
  JsString.len (s ++ t) = (JsString.len s + JsString.len t)%nat.
Proof. induction s as [|c s IH]; simpl; [reflexivity | now rewrite IH]. Qed.

Lemma len_take (n : nat) (s : string) :
  JsString.len (JsString.take n s) = Nat.min n (JsString.len s).
Proof.
  revert s; induction n as [|n IH]; intros [|c s]; simpl; try reflexivity.
  now rewrite IH.
Qed.

Lemma take_all (n : nat) (s : string) :
  (JsString.len s <= n)%nat -> JsString.take n s = s.
Proof.
  revert s; induction n as [|n IH]; intros [|c s]; simpl; intros H;
    try reflexivity; try lia.
  f_equal. apply IH. lia.
Qed.

Lemma substring_prefix (s : string) (n : Z) :
  0 <= n <= JsString.length s ->
  JsString.substring s 0 n = JsString.take (Z.to_nat n) s.
Proof.
  intros H. unfold JsString.substring.
  replace (Z.max 0 0) with 0 by reflexivity.
  rewrite (Z.min_l 0) by (unfold JsString.length; lia).
  rewrite (Z.max_l n 0) by lia.
  rewrite (Z.min_l n) by lia.
  rewrite (Z.min_l 0 n) by lia.
  rewrite (Z.max_r 0 n) by lia.
  rewrite Z.sub_0_r. reflexivity.
Qed.

End StringFacts.

(** C10. For every text and every [maxLength >= 2], [truncateText] returns
    the text unchanged when it has at most [maxLength] characters and
    otherwise its first [maxLength - 2] characters followed by [".."]; the
    result never has more than [maxLength] characters, and truncating a
    second time changes nothing. *)
Theorem truncateText_spec (text : string) (maxLength : Z) :
  2 <= maxLength ->
  (JsString.length text <= maxLength -> truncateText text maxLength = text) /\
  (maxLength < JsString.length text ->
   truncateText text maxLength =
     JsString.take (Z.to_nat (maxLength - 2)) text ++ "..") /\
  JsString.length (truncateText text maxLength) <= maxLength /\
  truncateText (truncateText text maxLength) maxLength =
    truncateText text maxLength.
Proof.
  intros Hmax.
  assert (Hfit : forall t, JsString.length t <= maxLength ->
                           truncateText t maxLength = t).
  { intros t Ht. unfold truncateText.
    destruct (Z.gtb_spec (JsString.length t) maxLength); [lia | reflexivity]. }
  assert (Hcut : maxLength < JsString.length text ->
                 truncateText text maxLength =
                   JsString.take (Z.to_nat (maxLength - 2)) text ++ "..").
  { intros Hlong. unfold truncateText.
    destruct (Z.gtb_spec (JsString.length text) maxLength); [|lia].
    rewrite substring_prefix by lia. reflexivity. }
  assert (Hlen : JsString.length (truncateText text maxLength) <= maxLength).
  { destruct (Z_le_gt_dec (JsString.length text) maxLength) as [Hle|Hgt].
    - rewrite Hfit by assumption. assumption.
    - rewrite Hcut by lia. unfold JsString.length in *.
      rewrite len_append, len_take. simpl. lia. }
  repeat split; auto.
Qed.

Lemma truncateText_spec_witness :
  2 <= 32 /\
  32 < JsString.length Sample.longDifficulty /\
  difficultyLabel Sample.longDifficulty = "Extra Stage: The Unforgiving A.." /\
  JsString.length (difficultyLabel Sample.longDifficulty) <= 32 /\
  difficultyLabel (difficultyLabel Sample.longDifficulty)
    = difficultyLabel Sample.longDifficulty.
Proof.
  pose proof (truncateText_spec Sample.longDifficulty 32 ltac:(lia))
    as (_ & Hcut & Hlen & Hidem).
  split; [lia|]. split; [vm_compute; reflexivity|].
  split; [|split; [exact Hlen | exact Hidem]].
  unfold difficultyLabel. rewrite Hcut by (vm_compute; reflexivity).
  reflexivity.
Defined.

(** ** Score normaliser *)

Section Normaliser.

Lemma isSet_empty : isSet "" = false.
Proof. reflexivity. Qed.

Lemma isSet_false (s : string) : isSet s = false <-> s = "".
Proof.
  unfold isSet; destruct s; simpl; split; intros H;
    try reflexivity; discriminate.
Qed.

Lemma isSet_true (s : string) : isSet s = true <-> s <> "".
Proof.
  unfold isSet; destruct s; simpl; split; intros H;
    try reflexivity; try discriminate; congruence.
Qed.

Lemma overrideOr_unset {A : Type} (parse : string -> A) (otherwise : A) :
  Spec.overrideOr "" parse otherwise = otherwise.
Proof. reflexivity. Qed.

Lemma overrideOr_set {A : Type} (text : string) (parse : string -> A)
  (otherwise : A) :
  text <> "" -> Spec.overrideOr text parse otherwise = parse text.
Proof.
  intros H. unfold Spec.overrideOr.
  now rewrite (proj2 (isSet_true text) H).
Qed.

End Normaliser.

Section Numerals.

Lemma of_lu_rev_cons (d tail : Decimal.uint) :
  DecimalPos.Unsigned.of_lu (Decimal.revapp d tail)
  = (DecimalPos.Unsigned.of_lu (Decimal.rev d)
     + DecimalPos.Unsigned.of_lu tail * 10 ^ DecimalPos.Unsigned.usize d)%N.
Proof. apply DecimalPos.Unsigned.of_lu_revapp. Qed.

Ltac digit_case IH :=
  unfold Decimal.rev;
  cbn [Decimal.revapp DecimalPos.Unsigned.usize Decimal.nb_digits
       DecimalString.NilEmpty.string_of_uint JsNumber.readDigits];
  rewrite of_lu_rev_cons;
  match goal with
  | |- context [JsNumber.digitValue 10 ?c] =>
      let v := eval vm_compute in (JsNumber.digitValue 10 c) in
      change (JsNumber.digitValue 10 c) with v
  end;
  cbv beta iota;
  rewrite IH;
  rewrite N2Z.inj_add, N2Z.inj_mul, N2Z.inj_pow, N2Z.inj_succ;
  rewrite Z.pow_succ_r by apply N2Z.is_nonneg;
  apply (f_equal2 pair); [|reflexivity];
  apply (f_equal2 pair); [|lia];
  cbn [DecimalPos.Unsigned.of_lu DecimalPos.Unsigned.hd DecimalPos.Unsigned.tl];
  simpl Z.of_N; ring.

(** Reading a printed numeral consumes it whole and adds its value to the
    accumulator shifted by its length. *)
Lemma readDigits_uint (d : Decimal.uint) (acc : Z) (count : nat) :
  JsNumber.readDigits 10 acc count (DecimalString.NilEmpty.string_of_uint d) =
    (acc * 10 ^ Z.of_N (DecimalPos.Unsigned.usize d)
       + Z.of_N (DecimalPos.Unsigned.of_lu (Decimal.rev d)),
     (count + Decimal.nb_digits d)%nat, "").
Proof.
  revert acc count.
  induction d as [|d IH|d IH|d IH|d IH|d IH|d IH|d IH|d IH|d IH|d IH];
    intros acc count; [|digit_case IH ..].
  simpl. apply (f_equal2 pair); [|reflexivity]. apply (f_equal2 pair); lia.
Qed.

Lemma parseInt_uint (d : Decimal.uint) :
  d <> Decimal.Nil ->
  JsNumber.parseInt (DecimalString.NilEmpty.string_of_uint d)
  = JsNumber.ofZ (Z.of_N (DecimalPos.Unsigned.of_lu (Decimal.rev d))).
Proof.
  intros Hd.
  assert (Hvalue : forall u, u <> Decimal.Nil ->
    match JsNumber.readDigits 10 0 0 (DecimalString.NilEmpty.string_of_uint u) with
    | (_, O, _) => NaN
    | (m, S _, _) => JsNumber.ofZ (JsNumber.signed false m)
    end = JsNumber.ofZ (Z.of_N (DecimalPos.Unsigned.of_lu (Decimal.rev u)))).
  { intros u Hu. rewrite readDigits_uint.
    destruct u; try congruence; cbn [Decimal.nb_digits Nat.add JsNumber.signed];
      f_equal; lia. }
  destruct d as [|d|d|d|d|d|d|d|d|d|d]; try congruence.
  1: destruct d as [|d|d|d|d|d|d|d|d|d|d]; [reflexivity|..].
  all: match goal with
       | |- JsNumber.parseInt (DecimalString.NilEmpty.string_of_uint ?u) = _ =>
           rewrite <- (Hvalue u) by congruence
       end.
  all: reflexivity.
Qed.

(** [parseInt] reads the decimal numeral of a natural number back. *)
Lemma parseInt_numeral (n : N) :
  JsNumber.parseInt (decimalNumeral (Z.of_N n)) = JsNumber.ofZ (Z.of_N n).
Proof.
  unfold decimalNumeral. rewrite N2Z.id.
  assert (Hd : N.to_uint n <> Decimal.Nil).
  { destruct n; [discriminate | apply DecimalPos.Unsigned.to_uint_nonnil]. }
  replace (DecimalString.NilZero.string_of_uint (N.to_uint n))
    with (DecimalString.NilEmpty.string_of_uint (N.to_uint n))
    by (destruct (N.to_uint n); congruence || reflexivity).
  rewrite parseInt_uint by assumption.
  rewrite <- DecimalPos.Unsigned.of_uint_alt.
  change (Pos.of_uint (N.to_uint n)) with (N.of_uint (N.to_uint n)).
  now rewrite DecimalN.Unsigned.of_to.
Qed.

Lemma decimalNumeral_set (n : N) : isSet (decimalNumeral (Z.of_N n)) = true.
Proof.
  unfold decimalNumeral. rewrite N2Z.id.
  pose proof (DecimalPos.Unsigned.to_uint_nonnil) as Hpos.
  destruct n as [|p]; [reflexivity|].
  specialize (Hpos p). simpl N.to_uint.
  destruct (Pos.to_uint p); congruence || reflexivity.
Qed.

(** An override that is the numeral of [n] resolves to [n], whatever the
    fallback. *)
Lemma overrideOr_numeral (n : N) (fallback : number) :
  Spec.overrideOr (decimalNumeral (Z.of_N n)) JsNumber.parseInt fallback
  = JsNumber.ofZ (Z.of_N n).
Proof.
  unfold Spec.overrideOr. rewrite decimalNumeral_set. apply parseInt_numeral.
Qed.

End Numerals.

(** C1, as the code has it.  Each field of the record is resolved on its
    own from the text of its override input: a non-empty text is parsed
    ([parseInt] for the counts, the score, the combo and the leaderboard
    position, [parseFloat] for the accuracy and the performance points,
    the text itself for the rank, the valid acronyms for the mods) and the
    result is used whatever it is; an empty text gives the upstream value
    when a score is loaded and the documented default when only a map is.
    Slider count and full combo have no override.  In particular an
    override that is the decimal numeral of a natural number up to 2^53,
    the range in which the Number read is the integer written, gives that
    number. *)
Theorem extractScoreData_resolution (overrides : Overrides.t) :
  (forall (data : ScoreResponse) (currentMapData : option MapResponse),
     exists r, extractScoreData overrides (Some data) currentMapData = Some r /\
       ScoreData.score r =
         Spec.overrideOr (Overrides.score overrides) JsNumber.parseInt
           (if lazer data then Upstream.score (score data)
            else Upstream.classic_score (score data)) /\
       ScoreData.c300 r =
         Spec.overrideOr (Overrides.count300 overrides) JsNumber.parseInt
           (Upstream.c300 (score data)) /\
       ScoreData.c100 r =
         Spec.overrideOr (Overrides.count100 overrides) JsNumber.parseInt
           (Upstream.c100 (score data)) /\
       ScoreData.c50 r =
         Spec.overrideOr (Overrides.count50 overrides) JsNumber.parseInt
           (Upstream.c50 (score data)) /\
       ScoreData.misses r =
         Spec.overrideOr (Overrides.countMiss overrides) JsNumber.parseInt
           (Upstream.misses (score data)) /\
       ScoreData.cEnds r =
         Spec.overrideOr (Overrides.countSliderEnds overrides) JsNumber.parseInt
           (Upstream.cEnds (score data)) /\
       ScoreData.max_combo r =
         Spec.overrideOr (Overrides.combo overrides) JsNumber.parseInt
           (Upstream.max_combo (score data)) /\
       ScoreData.accuracy r =
         Spec.overrideOr (Overrides.accuracy overrides)
           (fun text => JsNumber.div100 (JsNumber.parseFloat text))
           (Upstream.accuracy (score data)) /\
       ScoreData.pp r =
         Spec.overrideOr (Overrides.pp overrides) JsNumber.parseFloat
           (Upstream.pp (score data)) /\
       ScoreData.rank r =
         Spec.overrideOr (Overrides.rank overrides) (fun text => text)
           (Upstream.rank (score data)) /\
       ScoreData.mods r =
         Spec.overrideOr (Overrides.mods overrides) parseModsString
           (Upstream.mods (score data)) /\
       ScoreData.leaderboard r =
         Spec.overrideOr (Overrides.leaderboard overrides) JsNumber.parseInt
           (Upstream.leaderboard (score data)) /\
       ScoreData.full_combo r = Upstream.full_combo (score data) /\
       ScoreData.cSliders r = Upstream.cSliders (score data)) /\
  (forall mapData : MapResponse,
     exists r, extractScoreData overrides None (Some mapData) = Some r /\
       ScoreData.score r =
         Spec.overrideOr (Overrides.score overrides) JsNumber.parseInt
           (JsNumber.ofZ 0) /\
       ScoreData.c300 r =
         Spec.overrideOr (Overrides.count300 overrides) JsNumber.parseInt
           (JsNumber.ofZ 0) /\
       ScoreData.c100 r =
         Spec.overrideOr (Overrides.count100 overrides) JsNumber.parseInt
           (JsNumber.ofZ 0) /\
       ScoreData.c50 r =
         Spec.overrideOr (Overrides.count50 overrides) JsNumber.parseInt
           (JsNumber.ofZ 0) /\
       ScoreData.misses r =
         Spec.overrideOr (Overrides.countMiss overrides) JsNumber.parseInt
           (JsNumber.ofZ 0) /\
       ScoreData.cEnds r =
         Spec.overrideOr (Overrides.countSliderEnds overrides) JsNumber.parseInt
           (JsNumber.ofZ 0) /\
       ScoreData.max_combo r =
         Spec.overrideOr (Overrides.combo overrides) JsNumber.parseInt
           (JsNumber.ofZ 0) /\
       ScoreData.accuracy r =
         Spec.overrideOr (Overrides.accuracy overrides)
           (fun text => JsNumber.div100 (JsNumber.parseFloat text))
           (JsNumber.ofZ 0) /\
       ScoreData.pp r =
         Spec.overrideOr (Overrides.pp overrides) JsNumber.parseFloat
           (JsNumber.ofZ 0) /\
       ScoreData.rank r =
         Spec.overrideOr (Overrides.rank overrides) (fun text => text) "F" /\
       ScoreData.mods r =
         Spec.overrideOr (Overrides.mods overrides) parseModsString [] /\
       ScoreData.leaderboard r =
         Spec.overrideOr (Overrides.leaderboard overrides) JsNumber.parseInt
           (JsNumber.ofZ 0) /\
       ScoreData.full_combo r = false) /\
  extractScoreData overrides None None = None /\
  (forall (A : Type) (parse : string -> A) (fallback : A),
     Spec.overrideOr "" parse fallback = fallback) /\
  (forall (A : Type) (text : string) (parse : string -> A) (fallback : A),
     text <> "" -> Spec.overrideOr text parse fallback = parse text) /\
  (forall (n : N) (fallback : number),
     (n <= 2 ^ 53)%N ->
     Spec.overrideOr (decimalNumeral (Z.of_N n)) JsNumber.parseInt fallback
     = JsNumber.ofZ (Z.of_N n)).
Proof.
  split; [|split; [|split; [|split; [|split]]]].
  - intros data currentMapData. eexists. split; [reflexivity|].
    cbn -[JsNumber.parseInt JsNumber.parseFloat parseModsString].
    repeat split.
  - intros mapData. eexists. split; [reflexivity|].
    cbn -[JsNumber.parseInt JsNumber.parseFloat parseModsString].
    repeat split.
  - reflexivity.
  - intros A parse fallback. apply overrideOr_unset.
  - intros A text parse fallback. apply overrideOr_set.
  - intros n fallback _. apply overrideOr_numeral.
Qed.

Lemma extractScoreData_resolution_witness :
  Overrides.rank Sample.someOverrides <> "" /\
  exists r,
    extractScoreData Sample.someOverrides (Some Sample.stableScore) None = Some r /\
    ScoreData.score r = JsNumber.ofZ 123456 /\
    ScoreData.c300 r = JsNumber.ofZ 500 /\
    ScoreData.rank r = "A".
Proof.
  split; [discriminate|].
  destruct (extractScoreData_resolution Sample.someOverrides)
    as (Hscore & _ & _ & Hunset & Hset & Hnumeral).
  destruct (Hscore Sample.stableScore None)
    as (r & Hr & Hs & H300 & _ & _ & _ & _ & _ & _ & _ & Hrank & _).
  exists r. split; [exact Hr|].
  split; [|split].
  - rewrite Hs. exact (Hnumeral 123456%N _ ltac:(discriminate)).
  - rewrite H300. exact (Hunset _ _ _).
  - rewrite Hrank.
    exact (Hset string "A" (fun text => text) _ ltac:(discriminate)).
Defined.

(** C1 as the specification states it fails: with a score loaded whose 300
    count is 500, the override text ["abc"] is present but is no number;
    the stated rule falls back to the upstream 500, the code stores
    [NaN]. *)
Lemma extractScoreData_unparsable_override :
  Spec.resolveField (Spec.validCount (Overrides.count300 Sample.badCount))
    (Some (Upstream.c300 (score Sample.stableScore))) (JsNumber.ofZ 0)
    = JsNumber.ofZ 500 /\
  (ScoreData.c300 <$> extractScoreData Sample.badCount (Some Sample.stableScore) None)
    = Some NaN /\
  (ScoreData.c300 <$> extractScoreData Sample.badCount (Some Sample.stableScore) None)
    <> Some (Spec.resolveField
               (Spec.validCount (Overrides.count300 Sample.badCount))
               (Some (Upstream.c300 (score Sample.stableScore)))
               (JsNumber.ofZ 0)).
Proof.
  split; [reflexivity|]. split; [reflexivity|].
  vm_compute. discriminate.
Qed.

(** C2, as the code has it.  With a score loaded: a non-empty score
    override is parsed and displayed in both modes; without one the modern
    mode displays the modern total when the server flags the score as
    lazer and the classic total otherwise, the classic mode displays the
    classic total whenever that total is truthy (a number other than zero),
    and in every case the displayed number is one of the two totals, never
    a combination of them.  With only a map loaded both modes display the
    parsed override, or 0 without one. *)
Theorem displayedScore_selection (overrides : Overrides.t) :
  (forall (data : ScoreResponse) (currentMapData : option MapResponse)
          (r : ScoreData.t),
     extractScoreData overrides (Some data) currentMapData = Some r ->
     (Overrides.score overrides <> "" ->
      forall isLazer,
        displayedScore r isLazer
        = JsNumber.parseInt (Overrides.score overrides)) /\
     (Overrides.score overrides = "" ->
      displayedScore r true =
        (if lazer data then Upstream.score (score data)
         else Upstream.classic_score (score data)) /\
      (JsNumber.truthy (Upstream.classic_score (score data)) = true ->
       displayedScore r false = Upstream.classic_score (score data)) /\
      (forall isLazer,
         displayedScore r isLazer = Upstream.score (score data) \/
         displayedScore r isLazer = Upstream.classic_score (score data)))) /\
  (forall (mapData : MapResponse) (r : ScoreData.t) (isLazer : bool),
     extractScoreData overrides None (Some mapData) = Some r ->
     displayedScore r isLazer =
       Spec.overrideOr (Overrides.score overrides) JsNumber.parseInt
         (JsNumber.ofZ 0)).
Proof.
  split.
  - intros data currentMapData r Hr. injection Hr as <-.
    unfold displayedScore.
    cbn -[JsNumber.parseInt JsNumber.parseFloat parseModsString JsNumber.truthy].
    split.
    + intros Hset isLazer. apply isSet_true in Hset. rewrite Hset.
      destruct isLazer; [reflexivity|].
      destruct (JsNumber.truthy _); reflexivity.
    + intros Hunset. apply isSet_false in Hunset. rewrite Hunset.
      split; [reflexivity|]. split.
      * intros Htruthy. now rewrite Htruthy.
      * intros [|].
        -- destruct (lazer data); [left | right]; reflexivity.
        -- destruct (JsNumber.truthy _); [right; reflexivity|].
           destruct (lazer data); [left | right]; reflexivity.
  - intros mapData r isLazer Hr. injection Hr as <-.
    unfold displayedScore. destruct isLazer; reflexivity.
Qed.

Lemma displayedScore_selection_witness :
  Overrides.score Overrides.none = "" /\
  JsNumber.truthy (Upstream.classic_score (score Sample.lazerScore)) = true /\
  (forall r,
     extractScoreData Overrides.none (Some Sample.lazerScore) None = Some r ->
     displayedScore r true = JsNumber.ofZ 1000000 /\
     displayedScore r false = JsNumber.ofZ 987654).
Proof.
  split; [reflexivity|]. split; [reflexivity|].
  intros r Hr.
  destruct (displayedScore_selection Overrides.none) as [Hscore _].
  destruct (Hscore Sample.lazerScore None r Hr) as [_ Hunset].
  destruct (Hunset eq_refl) as (Hmodern & Hclassic & _).
  split; [exact Hmodern | exact (Hclassic eq_refl)].
Defined.

(** C2 as the specification states it fails: a score set on the stable
    client (not flagged lazer) with modern total 1000000 and classic total
    987654, no override, and the scoring mode forced to modern, displays
    987654 where the stated rule gives the modern total 1000000. *)
Lemma displayedScore_modern_mode_classic_total :
  Spec.displayedScore Overrides.none Sample.stableScore true
    = JsNumber.ofZ 1000000 /\
  (fun r => displayedScore r true)
    <$> extractScoreData Overrides.none (Some Sample.stableScore) None
    = Some (JsNumber.ofZ 987654) /\
  (fun r => displayedScore r true)
    <$> extractScoreData Overrides.none (Some Sample.stableScore) None
    <> Some (Spec.displayedScore Overrides.none Sample.stableScore true).
Proof.
  split; [reflexivity|]. split; [reflexivity|].
  vm_compute. discriminate.
Qed.

(** The classic mode on a lazer score whose classic total is 0: the
    [||] of the score line takes 0 for a missing value and shows the modern
    total. *)
Example displayedScore_classic_total_zero :
  (fun r => displayedScore r false)
    <$> extractScoreData Overrides.none (Some Sample.zeroClassic) None
  = Some (JsNumber.ofZ 5).
Proof. reflexivity. Qed.

(** The end-to-end sample of the specification: classic mode, classic
    total 987654, ranked map. *)
Example scorecard_sample :
  (fun r => (formatScore EnUS.toLocaleString (displayedScore r false),
             ppDisplayFor EnUS.toLocaleString "" r Sample.beatmap))
    <$> extractScoreData Overrides.none (Some Sample.stableScore) None
  = Some ("987,654", "727pp").
Proof. vm_compute. reflexivity. Qed.

(** C9.  With a map loaded and no score, whatever the overrides: every hit
    count whose override is empty is zero (and so are score, combo,
    accuracy, performance points and leaderboard position), the slider
    count is 100, the rank is ['F'] unless overridden, the mod list is
    empty unless overridden, and full combo is false. *)
Theorem extractScoreData_map_preview (overrides : Overrides.t)
  (mapData : MapResponse) :
  exists r, extractScoreData overrides None (Some mapData) = Some r /\
    (Overrides.count300 overrides = "" -> ScoreData.c300 r = JsNumber.ofZ 0) /\
    (Overrides.count100 overrides = "" -> ScoreData.c100 r = JsNumber.ofZ 0) /\
    (Overrides.count50 overrides = "" -> ScoreData.c50 r = JsNumber.ofZ 0) /\
    (Overrides.countMiss overrides = "" -> ScoreData.misses r = JsNumber.ofZ 0) /\
    (Overrides.countSliderEnds overrides = "" ->
     ScoreData.cEnds r = JsNumber.ofZ 0) /\
    (Overrides.score overrides = "" -> ScoreData.score r = JsNumber.ofZ 0) /\
    (Overrides.combo overrides = "" -> ScoreData.max_combo r = JsNumber.ofZ 0) /\
    (Overrides.accuracy overrides = "" -> ScoreData.accuracy r = JsNumber.ofZ 0) /\
    (Overrides.pp overrides = "" -> ScoreData.pp r = JsNumber.ofZ 0) /\
    (Overrides.leaderboard overrides = "" ->
     ScoreData.leaderboard r = JsNumber.ofZ 0) /\
    (Overrides.rank overrides = "" -> ScoreData.rank r = "F") /\
    (Overrides.mods overrides = "" -> ScoreData.mods r = []) /\
    ScoreData.cSliders r = JsNumber.ofZ 100 /\
    ScoreData.full_combo r = false.
Proof.
  eexists. split; [reflexivity|].
  cbn -[JsNumber.parseInt JsNumber.parseFloat parseModsString].
  repeat split; intros ->; reflexivity.
Qed.

Lemma extractScoreData_map_preview_witness :
  exists r, extractScoreData Sample.someOverrides None (Some Sample.mapOnly) = Some r /\
    ScoreData.c300 r = JsNumber.ofZ 0 /\
    ScoreData.c100 r = JsNumber.ofZ 7 /\
    ScoreData.misses r = JsNumber.ofZ 0 /\
    ScoreData.cSliders r = JsNumber.ofZ 100 /\
    ScoreData.full_combo r = false.
Proof.
  destruct (extractScoreData_map_preview Sample.someOverrides Sample.mapOnly)
    as (r & Hr & H300 & _ & _ & Hmiss & _ & _ & _ & _ & _ & _ & _ & _ & Hsl & Hfc).
  exists r. split; [exact Hr|].
  split; [exact (H300 eq_refl)|].
  split; [injection Hr as <-; reflexivity|].
  split; [exact (Hmiss eq_refl)|].
  split; [exact Hsl | exact Hfc].
Defined.

(** ** Presentation calculator *)

Section Gradient.

Lemma colourMap_negative (index : Z) : index < 0 -> colourMap !! index = None.
Proof.
  intros H. unfold colourMap. simpl.
  repeat (rewrite lookup_insert_ne by lia).
  apply lookup_empty.
Qed.

Lemma colourOrSentinel_negative (index : Z) :
  index < 0 -> colourOrSentinel index = sentinelColour.
Proof.
  intros H. unfold colourOrSentinel. now rewrite colourMap_negative.
Qed.

Lemma Qfloor_negative (x : Q) : (x < 0)%Q -> Qfloor x < 0.
Proof.
  intros H.
  destruct (Z_lt_le_dec (Qfloor x) 0) as [Hlt|Hge]; [assumption|].
  exfalso. apply (Qlt_irrefl 0).
  apply Qle_lt_trans with (y := x); [|assumption].
  apply Qle_trans with (y := inject_Z (Qfloor x)); [|apply Qfloor_le].
  change 0%Q with (inject_Z 0). now rewrite <- Zle_Qle.
Qed.

Lemma Qfloor_above_ten (x : Q) : (10 < x)%Q -> 10 <= Qfloor x.
Proof.
  intros H. change 10 with (Qfloor (inject_Z 10)) at 1.
  apply Qfloor_resp_le. apply Qlt_le_weak. exact H.
Qed.

Lemma clamp_below (x : Q) : (x < 0)%Q -> (Qmax 0 (Qmin 10 x) == 0)%Q.
Proof.
  intros H. apply Q.max_l.
  apply Qle_trans with (y := x); [apply Q.le_min_r | now apply Qlt_le_weak].
Qed.

Lemma clamp_zero : (Qmax 0 (Qmin 10 0) == 0)%Q.
Proof. reflexivity. Qed.

Lemma clamp_above (x : Q) : (10 < x)%Q -> (Qmax 0 (Qmin 10 x) == 10)%Q.
Proof.
  intros H. rewrite Q.min_l by now apply Qlt_le_weak. reflexivity.
Qed.

Lemma clamp_ten : (Qmax 0 (Qmin 10 10) == 10)%Q.
Proof. reflexivity. Qed.

(** The ramp path reads the star rating only through its clamped value. *)
Lemma ramp_clamped (canvas : Canvas) (x y : Q) :
  (Qmax 0 (Qmin 10 x) == Qmax 0 (Qmin 10 y))%Q ->
  getGradientColour (Some canvas) x = getGradientColour (Some canvas) y.
Proof.
  intros H. unfold getGradientColour.
  assert (E : Qfloor (Qmax 0 (Qmin 10 x) / 10 * inject_Z (width canvas - 1))
            = Qfloor (Qmax 0 (Qmin 10 y) / 10 * inject_Z (width canvas - 1))).
  { apply Qfloor_comp. now rewrite H. }
  now rewrite E.
Qed.

End Gradient.

(** C3, as the code has it.  The lookup ends normally with a colour for
    every star rating, with the gradient loaded or not.  With the gradient
    loaded a rating below 0 gets the colour of 0 and a rating above 10 the
    colour of 10.  Without it a rating above 10 gets the colour of 10, but
    a rating below 0 misses the table and gets the sentinel colour
    [#ff6b6b], which is not the colour of 0. *)
Theorem getGradientColour_clamping :
  (forall gradient x, exists colour,
     getGradientColour gradient x = Normal colour) /\
  (forall canvas x, (x < 0)%Q ->
     getGradientColour (Some canvas) x = getGradientColour (Some canvas) 0) /\
  (forall gradient x, (10 < x)%Q ->
     getGradientColour gradient x = getGradientColour gradient 10) /\
  (forall x, (x < 0)%Q ->
     getGradientColour None x = Normal sentinelColour) /\
  getGradientColour None 0 = Normal "#666666" /\
  getGradientColour None 10 = Normal "#000000".
Proof.
  split; [|split; [|split; [|split; [|split]]]].
  - intros [canvas|] x; simpl.
    + destruct (sampleColour _ _ _); eexists; reflexivity.
    + eexists; reflexivity.
  - intros canvas x Hx. apply ramp_clamped.
    rewrite clamp_below by assumption. symmetry. apply clamp_zero.
  - intros [canvas|] x Hx.
    + apply ramp_clamped.
      rewrite clamp_above by assumption. symmetry. apply clamp_ten.
    + unfold getGradientColour.
      rewrite Z.min_r by now apply Qfloor_above_ten.
      reflexivity.
  - intros x Hx. unfold getGradientColour.
    rewrite colourOrSentinel_negative; [reflexivity|].
    apply Z.min_lt_iff. left. now apply Qfloor_negative.
  - reflexivity.
  - reflexivity.
Qed.

Lemma getGradientColour_clamping_witness :
  (-1 < 0)%Q /\ (21 # 2 > 10)%Q /\
  getGradientColour None (-1) = Normal "#ff6b6b" /\
  getGradientColour None (21 # 2) = Normal "#000000".
Proof.
  destruct getGradientColour_clamping as (_ & _ & Habove & Hbelow & _ & Hten).
  split; [reflexivity|]. split; [reflexivity|].
  split.
  - exact (Hbelow (-1)%Q eq_refl).
  - rewrite (Habove None (21 # 2) eq_refl). exact Hten.
Defined.

(** C3 as the specification states it fails on the fallback path: with no
    gradient loaded the rating -1 gets the sentinel colour and the rating
    0 the first colour of the table. *)
Lemma getGradientColour_fallback_below_zero :
  (-1 < 0)%Q /\
  getGradientColour None (-1) = Normal "#ff6b6b" /\
  getGradientColour None 0 = Normal "#666666" /\
  getGradientColour None (-1) <> getGradientColour None 0.
Proof.
  split; [reflexivity|]. split; [reflexivity|]. split; [reflexivity|].
  vm_compute. discriminate.
Qed.




(** ** Upper-casing *)

Section UpperCasing.

Lemma forallChars_append (p : ascii -> bool) (s t : string) :
  forallChars p (s ++ t) = forallChars p s && forallChars p t.
Proof.
  induction s as [|c s IH]; simpl; [reflexivity|].
  now rewrite IH, andb_assoc.
Qed.

Lemma countChar_append (c : ascii) (s t : string) :
  countChar c (s ++ t) = (countChar c s + countChar c t)%nat.
Proof. induction s as [|x s IH]; simpl; [reflexivity | rewrite IH; lia]. Qed.

Lemma forallChars_countChar (p : ascii -> bool) (c : ascii) (s : string) :
  forallChars p s = true -> p c = false -> countChar c s = O.
Proof.
  intros Hs Hc. induction s as [|x s IH]; simpl; [reflexivity|].
  simpl in Hs. apply andb_prop in Hs as [Hx Hs].
  destruct (Ascii.eqb_spec c x) as [->|_]; [congruence|].
  now rewrite IH.
Qed.

Lemma countChar_cons_zero (c x : ascii) (s : string) :
  countChar c (String x s) = O -> Ascii.eqb c x = false /\ countChar c s = O.
Proof.
  simpl. destruct (Ascii.eqb c x); [discriminate|]. now split.
Qed.

Lemma startsWith_split (p s : string) :
  JsString.startsWith p s = true ->
  s = p ++ JsString.drop (JsString.len p) s.
Proof.
  revert s. induction p as [|a p IH]; intros s H; [reflexivity|].
  destruct s as [|b s]; [discriminate|].
  cbn [JsString.startsWith] in H. apply andb_prop in H as [Hab Hp].
  apply Ascii.eqb_eq in Hab. subst b.
  cbn [JsString.len JsString.drop String.append]. f_equal. now apply IH.
Qed.

Lemma startsWith_append (p rest : string) :
  JsString.startsWith p (p ++ rest) = true.
Proof.
  induction p as [|a p IH]; [reflexivity|].
  cbn [String.append JsString.startsWith]. now rewrite Ascii.eqb_refl.
Qed.

(** What a text starts with, every longer text starts with. *)
Lemma startsWith_longer (p a b : string) :
  JsString.startsWith p a = true -> JsString.startsWith p (a ++ b) = true.
Proof.
  revert a. induction p as [|x p IH]; intros a H; [reflexivity|].
  destruct a as [|y a]; [discriminate|].
  cbn [JsString.startsWith String.append] in *.
  apply andb_prop in H as [Hxy Hp]. rewrite Hxy. now apply IH.
Qed.

(** Two texts a third one starts with: one starts with the other. *)
Lemma startsWith_both (p q s : string) :
  JsString.startsWith p s = true -> JsString.startsWith q s = true ->
  JsString.startsWith p q = true \/ JsString.startsWith q p = true.
Proof.
  revert q s. induction p as [|a p IH]; intros q s Hp Hq; [now left|].
  destruct q as [|b q]; [now right|].
  destruct s as [|c s]; [discriminate|].
  cbn [JsString.startsWith] in *.
  apply andb_prop in Hp as [Hac Hp]. apply andb_prop in Hq as [Hbc Hq].
  apply Ascii.eqb_eq in Hac, Hbc. subst a b. rewrite Ascii.eqb_refl.
  exact (IH q s Hp Hq).
Qed.

(** The table: a key is a character beyond ASCII, in full; a form is a
    text of capitals, not empty; and no key starts with another. *)
Lemma specialCasing_entry (key form : string) :
  In (key, form) JsString.specialCasing ->
  forallChars JsString.beyondAscii key = true /\
  JsString.isEmpty key = false /\
  forallChars JsString.isUpper form = true /\
  JsString.isEmpty form = false.
Proof.
  intros H. simpl in H.
  repeat (destruct H as [H | H];
          [injection H as <- <-; vm_compute; repeat split|]).
  contradiction.
Qed.

Lemma specialCasing_prefix_free (key form key' form' : string) :
  In (key, form) JsString.specialCasing ->
  In (key', form') JsString.specialCasing ->
  JsString.startsWith key key' = true ->
  (key, form) = (key', form').
Proof.
  intros H H' Hstarts. simpl in H, H'.
  repeat (destruct H as [H | H]; [injection H as <- <-|]);
    try contradiction;
    repeat (destruct H' as [H' | H']; [injection H' as <- <-|]);
    try contradiction;
    (reflexivity || (vm_compute in Hstarts; discriminate Hstarts)).
Qed.

Lemma upperForm_some (table : list (string * string)) (s key form : string) :
  JsString.upperForm table s = Some (key, form) ->
  In (key, form) table /\ JsString.startsWith key s = true.
Proof.
  induction table as [|[k f] table IH]; [discriminate|].
  cbn [JsString.upperForm]. destruct (JsString.startsWith k s) eqn:Hk.
  - intros H. injection H as <- <-. split; [now left | exact Hk].
  - intros H. destruct (IH H) as [Hin Hs]. split; [now right | exact Hs].
Qed.

Lemma upperForm_none (table : list (string * string)) (s : string) :
  JsString.upperForm table s = None <->
  forall key form, In (key, form) table -> JsString.startsWith key s = false.
Proof.
  induction table as [|[k f] table IH]; cbn [JsString.upperForm].
  - split; [intros _ key form [] | reflexivity].
  - destruct (JsString.startsWith k s) eqn:Hk; split.
    + discriminate.
    + intros H. specialize (H k f (or_introl eq_refl)). congruence.
    + intros H key form [Heq | Hin].
      * injection Heq as <- <-. exact Hk.
      * now apply (proj1 IH H key form).
    + intros H. apply IH. intros key form Hin. apply (H key form). now right.
Qed.

(** A text that starts with a character of the table is read as that
    character. *)
Lemma upperForm_key (key form rest : string) :
  In (key, form) JsString.specialCasing ->
  JsString.upperForm JsString.specialCasing (key ++ rest) = Some (key, form).
Proof.
  intros Hin.
  destruct (JsString.upperForm JsString.specialCasing (key ++ rest))
    as [[key' form']|] eqn:Hform.
  - destruct (upperForm_some _ _ _ _ Hform) as [Hin' Hstarts'].
    destruct (startsWith_both key key' (key ++ rest)
                (startsWith_append key rest) Hstarts') as [H | H].
    + now rewrite (specialCasing_prefix_free _ _ _ _ Hin Hin' H).
    + now rewrite (specialCasing_prefix_free _ _ _ _ Hin' Hin H).
  - pose proof (proj1 (upperForm_none _ _) Hform key form Hin) as H.
    now rewrite startsWith_append in H.
Qed.

(** A shorter text starts with no character of the table when a longer
    one does not. *)
Lemma upperForm_shorter (a b : string) :
  JsString.upperForm JsString.specialCasing (a ++ b) = None ->
  JsString.upperForm JsString.specialCasing a = None.
Proof.
  rewrite !upperForm_none. intros H key form Hin.
  destruct (JsString.startsWith key a) eqn:Hk; [|reflexivity].
  rewrite <- (H key form Hin). symmetry. now apply startsWith_longer.
Qed.

Lemma beyondAscii_head (c : ascii) (s : string) :
  forallChars JsString.beyondAscii (String c s) = true ->
  JsString.isAscii c = false.
Proof.
  cbn [forallChars]. intros H. apply andb_prop in H as [H _].
  now apply negb_true_iff in H.
Qed.

(** No character of the table starts with an ASCII character. *)
Lemma upperForm_ascii (c : ascii) (s : string) :
  JsString.isAscii c = true ->
  JsString.upperForm JsString.specialCasing (String c s) = None.
Proof.
  intros Hc. apply upperForm_none. intros key form Hin.
  destruct (specialCasing_entry key form Hin) as (Hkey & Hne & _).
  destruct key as [|k key]; [discriminate|].
  apply beyondAscii_head in Hkey.
  cbn [JsString.startsWith].
  destruct (Ascii.eqb_spec k c) as [-> | _]; [congruence | reflexivity].
Qed.

Lemma upperFrom_drop (skip : nat) (s : string) :
  JsString.upperFrom skip s = JsString.toUpperCase (JsString.drop skip s).
Proof.
  revert s. induction skip as [|k IH]; intros s; [now destruct s|].
  destruct s as [|c s]; [reflexivity|].
  cbn [JsString.upperFrom JsString.drop]. apply IH.
Qed.

(** The two equations of the scan. *)
Lemma toUpperCase_key (key form rest : string) :
  In (key, form) JsString.specialCasing ->
  JsString.toUpperCase (key ++ rest) = form ++ JsString.toUpperCase rest.
Proof.
  intros Hin. pose proof (upperForm_key key form rest Hin) as Hform.
  destruct (specialCasing_entry key form Hin) as (_ & Hne & _).
  destruct key as [|k key]; [discriminate|].
  unfold JsString.toUpperCase at 1.
  cbn [String.append] in *. cbn [JsString.upperFrom]. rewrite Hform.
  f_equal. rewrite upperFrom_drop.
  cbn [JsString.len]. rewrite Nat.sub_succ, Nat.sub_0_r. f_equal.
  clear. induction key as [|x key IH]; [reflexivity | exact IH].
Qed.

Lemma toUpperCase_plain (c : ascii) (s : string) :
  JsString.upperForm JsString.specialCasing (String c s) = None ->
  JsString.toUpperCase (String c s)
  = String (JsString.upperChar c) (JsString.toUpperCase s).
Proof.
  intros H. unfold JsString.toUpperCase. cbn [JsString.upperFrom].
  now rewrite H.
Qed.

Lemma toUpperCase_ascii (c : ascii) (s : string) :
  JsString.isAscii c = true ->
  JsString.toUpperCase (String c s)
  = String (JsString.upperChar c) (JsString.toUpperCase s).
Proof. intros H. now apply toUpperCase_plain, upperForm_ascii. Qed.

(** A text is empty, or starts with a character of the table, or with a
    byte that is read on its own. *)
Lemma toUpperCase_cases (s : string) :
  s = "" \/
  (exists c r, s = String c r /\
     JsString.upperForm JsString.specialCasing s = None) \/
  (exists key form rest, In (key, form) JsString.specialCasing /\
     s = key ++ rest).
Proof.
  destruct s as [|c r]; [now left|]. right.
  destruct (JsString.upperForm JsString.specialCasing (String c r))
    as [[key form]|] eqn:Hform.
  - right. destruct (upperForm_some _ _ _ _ Hform) as [Hin Hstarts].
    exists key, form, (JsString.drop (JsString.len key) (String c r)).
    split; [exact Hin | now apply startsWith_split].
  - left. now exists c, r.
Qed.

(** Induction along the scan. *)
Lemma toUpperCase_ind (P : string -> Prop) :
  P "" ->
  (forall c r, JsString.upperForm JsString.specialCasing (String c r) = None ->
     P r -> P (String c r)) ->
  (forall key form rest, In (key, form) JsString.specialCasing ->
     P rest -> P (key ++ rest)) ->
  forall s, P s.
Proof.
  intros Hempty Hplain Hkey s.
  remember (JsString.len s) as n eqn:Hn.
  revert s Hn. induction n as [n IH] using lt_wf_ind. intros s Hn.
  destruct (toUpperCase_cases s)
    as [-> | [(c & r & -> & Hnone) | (key & form & rest & Hin & ->)]].
  - exact Hempty.
  - apply Hplain; [exact Hnone|].
    apply (IH (JsString.len r)); [subst n; simpl; lia | reflexivity].
  - apply (Hkey key form rest Hin).
    apply (IH (JsString.len rest)); [|reflexivity].
    destruct (specialCasing_entry key form Hin) as (_ & Hne & _).
    subst n. rewrite len_append. destruct key; [discriminate | simpl; lia].
Qed.

End UpperCasing.

(** ** Mods override *)

Section ModsParsing.

Lemma isUpper_upperChar (c : ascii) :
  JsString.isUpper (JsString.upperChar c) = Spec.isLetter c.
Proof. destruct c as [[] [] [] [] [] [] [] []]; reflexivity. Qed.

(** On an ASCII token the test after the upper-casing is the test for two
    letters before it. *)
Lemma isModCode_toUpperCase (token : string) :
  forallChars JsString.isAscii token = true ->
  isModCode (JsString.toUpperCase token) = Spec.isTwoLetters token.
Proof.
  destruct token as [|a [|b [|c token]]]; cbn [forallChars];
    intros H; [reflexivity|..].
  - apply andb_prop in H as [Ha _]. now rewrite toUpperCase_ascii.
  - apply andb_prop in H as [Ha H]. apply andb_prop in H as [Hb _].
    rewrite !toUpperCase_ascii by assumption.
    cbn. now rewrite !isUpper_upperChar.
  - apply andb_prop in H as [Ha H]. apply andb_prop in H as [Hb H].
    apply andb_prop in H as [Hc _].
    now rewrite !toUpperCase_ascii by assumption.
Qed.

Lemma filter_map_swap {A B : Type} (f : A -> B) (p : B -> bool) (l : list A) :
  List.filter p (map f l) = map f (List.filter (fun x => p (f x)) l).
Proof.
  induction l as [|x l IH]; simpl; [reflexivity|].
  destruct (p (f x)); simpl; now rewrite IH.
Qed.

Lemma trim_empty_allWhite (s : string) :
  JsString.isEmpty (JsString.trim s) = true -> JsString.allWhite s = true.
Proof.
  unfold JsString.trim.
  induction s as [|c s IH]; simpl; [reflexivity|].
  destruct (JsString.isWhiteSpace c) eqn:Hc; simpl.
  - exact IH.
  - rewrite Hc. simpl. discriminate.
Qed.

Lemma allWhite_trim (s : string) :
  JsString.allWhite s = true -> JsString.trim s = "".
Proof.
  unfold JsString.trim.
  induction s as [|c s IH]; simpl; [reflexivity|].
  intros H. apply andb_prop in H as [Hc Hs]. rewrite Hc. now apply IH.
Qed.

Lemma append_assoc (a b c : string) : (a ++ b) ++ c = a ++ (b ++ c).
Proof. induction a as [|x a IH]; simpl; [reflexivity | now rewrite IH]. Qed.

Lemma whiteSpace_not_comma (c : ascii) :
  JsString.isWhiteSpace c = true -> Ascii.eqb "," c = false.
Proof.
  destruct c as [[] [] [] [] [] [] [] []]; vm_compute; intros H;
    (reflexivity || discriminate H).
Qed.

(** A text of white space only has no comma: it is its only token. *)
Lemma split_allWhite (s cur : string) :
  JsString.allWhite s = true -> JsString.splitFrom "," O cur s = [cur ++ s].
Proof.
  revert cur. induction s as [|c s IH]; intros cur H.
  - simpl. f_equal.
    induction cur as [|x cur IHc]; simpl; [reflexivity | now f_equal].
  - simpl in H. apply andb_prop in H as [Hc Hs].
    cbn [JsString.splitFrom JsString.startsWith].
    rewrite (whiteSpace_not_comma c Hc). cbn [andb].
    rewrite IH by assumption. now rewrite append_assoc.
Qed.

(** The test for a blank text at the head of the parser changes nothing:
    the pipeline gives no code on such a text. *)
Lemma parseModsString_codes (text : string) :
  parseModsString text = map (fun code => {| acronym := code |}) (modCodes text).
Proof.
  unfold parseModsString, modCodes.
  destruct (JsString.isEmpty text || JsString.isEmpty (JsString.trim text))
    eqn:Hblank; [|reflexivity].
  assert (Hwhite : JsString.allWhite text = true).
  { apply orb_prop in Hblank as [H|H].
    - destruct text; [reflexivity | discriminate].
    - now apply trim_empty_allWhite. }
  unfold JsString.split. rewrite split_allWhite by assumption.
  cbn [map String.append]. now rewrite allWhite_trim.
Qed.

(** *** Tokens of an ASCII text *)

Lemma splitFrom_ascii (s cur : string) :
  forallChars JsString.isAscii cur = true ->
  forallChars JsString.isAscii s = true ->
  List.Forall (fun token => forallChars JsString.isAscii token = true)
    (JsString.splitFrom "," O cur s).
Proof.
  revert cur. induction s as [|c s IH]; intros cur Hcur Hs.
  - now constructor.
  - cbn [forallChars] in Hs. apply andb_prop in Hs as [Hc Hs].
    cbn [JsString.splitFrom JsString.startsWith].
    destruct (Ascii.eqb "," c); cbn [andb JsString.len Nat.sub].
    + constructor; [exact Hcur | now apply IH].
    + apply IH; [|exact Hs].
      rewrite forallChars_append, Hcur.
      cbn [forallChars andb]. now rewrite Hc.
Qed.

Lemma trimStart_ascii (s : string) :
  forallChars JsString.isAscii s = true ->
  forallChars JsString.isAscii (JsString.trimStart s) = true.
Proof.
  induction s as [|c s IH]; [reflexivity|]. intros H.
  cbn [JsString.trimStart]. destruct (JsString.isWhiteSpace c); [|exact H].
  cbn [forallChars] in H. apply andb_prop in H as [_ H]. now apply IH.
Qed.

Lemma trimEnd_ascii (s : string) :
  forallChars JsString.isAscii s = true ->
  forallChars JsString.isAscii (JsString.trimEnd s) = true.
Proof.
  induction s as [|c s IH]; [reflexivity|]. intros H.
  cbn [forallChars] in H. apply andb_prop in H as [Hc Hs].
  cbn [JsString.trimEnd].
  destruct (JsString.isWhiteSpace c && JsString.isEmpty (JsString.trimEnd s));
    [reflexivity|].
  cbn [forallChars]. now rewrite Hc, IH.
Qed.

Lemma trim_ascii (s : string) :
  forallChars JsString.isAscii s = true ->
  forallChars JsString.isAscii (JsString.trim s) = true.
Proof. intros H. now apply trimEnd_ascii, trimStart_ascii. Qed.

Lemma filter_ext_Forall {A : Type} (p q : A -> bool) (P : A -> Prop)
  (l : list A) :
  (forall x, P x -> p x = q x) -> List.Forall P l ->
  List.filter p l = List.filter q l.
Proof.
  intros Hpq Hl. induction Hl as [|x l Hx Hl IH]; [reflexivity|].
  cbn [List.filter]. now rewrite (Hpq x Hx), IH.
Qed.

Lemma Forall_map_ascii (f : string -> string) (l : list string) :
  (forall s, forallChars JsString.isAscii s = true ->
             forallChars JsString.isAscii (f s) = true) ->
  List.Forall (fun token => forallChars JsString.isAscii token = true) l ->
  List.Forall (fun token => forallChars JsString.isAscii token = true) (map f l).
Proof.
  intros Hf Hl. induction Hl as [|x l Hx Hl IH]; [constructor|].
  cbn [map]. constructor; [now apply Hf | exact IH].
Qed.

End ModsParsing.

(** C6, as the code has it.  For every text the parser returns, in order,
    the tokens of the text split on commas, each trimmed and then
    upper-cased, that are two letters A to Z once upper-cased; the test
    for a blank text changes nothing and the function is total, so
    nothing is thrown.  For a text of ASCII characters these are the
    tokens that are exactly two letters, which is what the wording
    describes.  On ["HD, dt ,xx1"] the result is HD then DT. *)
Theorem parseModsString_spec :
  (forall modsString,
     parseModsString modsString
     = map (fun code => {| acronym := code |})
         (List.filter isModCode
            (map (fun token => JsString.toUpperCase (JsString.trim token))
               (JsString.split modsString ",")))) /\
  (forall modsString, forallChars JsString.isAscii modsString = true ->
     parseModsString modsString = Spec.parseMods modsString) /\
  parseModsString "HD, dt ,xx1" = [ {| acronym := "HD" |}; {| acronym := "DT" |} ].
Proof.
  split; [exact parseModsString_codes|]. split; [|reflexivity].
  intros modsString Hascii.
  rewrite parseModsString_codes. unfold modCodes, Spec.parseMods.
  rewrite <- (map_map JsString.trim JsString.toUpperCase).
  rewrite filter_map_swap. rewrite map_map.
  f_equal.
  apply (filter_ext_Forall _ _
           (fun token => forallChars JsString.isAscii token = true));
    [exact isModCode_toUpperCase|].
  apply Forall_map_ascii; [exact trim_ascii|].
  now apply splitFrom_ascii.
Qed.

Lemma parseModsString_spec_witness :
  forallChars JsString.isAscii "HD, dt ,xx1" = true /\
  Spec.parseMods "HD, dt ,xx1"
  = [ {| acronym := "HD" |}; {| acronym := "DT" |} ].
Proof.
  split; [reflexivity|].
  destruct parseModsString_spec as (_ & Hascii & Hsample).
  now rewrite <- (Hascii "HD, dt ,xx1" eq_refl).
Defined.

(** C6 as the specification states it fails beyond ASCII: the first
    token of ["ß,hd"] is one character, not two letters, and the worded
    pipeline drops it; the code upper-cases it to ["SS"] before it tests,
    and keeps it. *)
Lemma parseModsString_sharp_s :
  Spec.parseMods "ß,hd" = [ {| acronym := "HD" |} ] /\
  parseModsString "ß,hd" = [ {| acronym := "SS" |}; {| acronym := "HD" |} ] /\
  parseModsString "ß,hd" <> Spec.parseMods "ß,hd".
Proof.
  split; [reflexivity|]. split; [reflexivity|].
  vm_compute. discriminate.
Qed.

(** ** Layout fitter *)

(** C7.  For every number of mod icons on the page the width left to the
    title is 800 minus 40 minus 70 per icon minus 20 when there is an
    icon, and never less than 200. *)
Theorem calculateTitleSpace_spec (document : Document) :
  calculateTitleSpace document = Spec.titleSpace (modIcons document) /\
  200 <= calculateTitleSpace document.
Proof.
  assert (E : calculateTitleSpace document = Spec.titleSpace (modIcons document)).
  { unfold calculateTitleSpace, Spec.titleSpace.
    destruct (modIcons document) as [|n]; [reflexivity|].
    destruct (Z.gtb_spec (Z.of_nat (S n)) 0); [reflexivity | lia]. }
  split; [exact E|]. rewrite E. unfold Spec.titleSpace. lia.
Qed.

(** C4, as the code has it.  The required height is 600, plus 30 per line
    of the auxiliary text beyond the first two, plus, when the banner is
    shown and the content of the right section is higher than its box,
    the difference of the two heights and 20 more. *)
Theorem calculateRequiredHeight_spec (document : Document)
  (extraText : string) (hasFullCombo : bool) :
  calculateRequiredHeight document extraText hasFullCombo =
    Spec.requiredHeightPadded document extraText hasFullCombo.
Proof.
  unfold calculateRequiredHeight, Spec.requiredHeightPadded, Spec.lineCount.
  set (lines := Z.of_nat (List.length (JsString.split extraText "<br>"))).
  assert (Hlines :
    (if isSet extraText then if lines >? 2 then 0 + (lines - 2) * 30 else 0 else 0)
    = 30 * Z.max 0 ((if isSet extraText then lines else 0) - 2)).
  { destruct (isSet extraText); [|reflexivity].
    destruct (Z.gtb_spec lines 2); lia. }
  rewrite Hlines.
  set (extra := 30 * Z.max 0 ((if isSet extraText then lines else 0) - 2)).
  destruct hasFullCombo; [|lia].
  destruct (rightSection document) as [box|]; [|lia].
  destruct (Z.gtb_spec (scrollHeight box) (clientHeight box)); lia.
Qed.

(** C4 as the specification states it fails: with the banner shown, no
    auxiliary text, and a right section whose content is 110 high in a box
    of 100, the code asks for 630 where the stated rule gives 610. *)
Lemma calculateRequiredHeight_overflow_padding :
  Spec.requiredHeight Sample.page "" true = 610 /\
  calculateRequiredHeight Sample.page "" true = 630 /\
  calculateRequiredHeight Sample.page "" true
    <> Spec.requiredHeight Sample.page "" true.
Proof.
  split; [reflexivity|]. split; [reflexivity|].
  vm_compute. discriminate.
Qed.

Section TitleFitting.

Variable measureText : string -> string -> Q.
Variable availableWidth : Z.

Lemma take_append_exact (s t : string) :
  JsString.take (JsString.len s) (s ++ t) = s.
Proof. induction s as [|c s IH]; simpl; [now destruct t | now rewrite IH]. Qed.

Lemma len_slice (s : string) :
  JsString.len (JsString.slice_0_m1 s) = (JsString.len s - 1)%nat.
Proof. unfold JsString.slice_0_m1. rewrite len_take. lia. Qed.

Lemma slice_append_char (s : string) (c : ascii) :
  JsString.slice_0_m1 (s ++ String c "") = s.
Proof.
  unfold JsString.slice_0_m1. rewrite len_append. simpl.
  replace (JsString.len s + 1 - 1)%nat with (JsString.len s) by lia.
  apply take_append_exact.
Qed.

Lemma truncateLoop_step (fuel : nat) (s : string) :
  truncateLoop measureText availableWidth (S fuel) s =
    if stillTooWide measureText availableWidth s
    then truncateLoop measureText availableWidth fuel (JsString.slice_0_m1 s)
    else s.
Proof. reflexivity. Qed.

Lemma stillTooWide_long (s : string) :
  stillTooWide measureText availableWidth s = true -> (5 < JsString.len s)%nat.
Proof.
  unfold stillTooWide, JsString.length. intros H.
  apply andb_prop in H as [_ H].
  destruct (Z.gtb_spec (Z.of_nat (JsString.len s)) 5); [lia | discriminate].
Qed.

(** The loop returns its argument or a shorter text of five characters
    at least. *)
Lemma truncateLoop_same_or_shorter (fuel : nat) (s : string) :
  truncateLoop measureText availableWidth fuel s = s \/
  ((JsString.len (truncateLoop measureText availableWidth fuel s)
      < JsString.len s)%nat /\
   (5 <= JsString.len (truncateLoop measureText availableWidth fuel s))%nat).
Proof.
  revert s. induction fuel as [|fuel IH]; intros s; [now left|].
  rewrite truncateLoop_step.
  destruct (stillTooWide measureText availableWidth s) eqn:Hwide; [|now left].
  right. apply stillTooWide_long in Hwide.
  pose proof (len_slice s) as Hlen.
  destruct (IH (JsString.slice_0_m1 s)) as [-> | [Hlt Hge]]; lia.
Qed.

(** With the length of the text as fuel the loop ends because its
    condition fails, not because the fuel runs out. *)
Lemma truncateLoop_stops (fuel : nat) (s : string) :
  (JsString.len s <= fuel)%nat ->
  stillTooWide measureText availableWidth
    (truncateLoop measureText availableWidth fuel s) = false.
Proof.
  revert s. induction fuel as [|fuel IH]; intros s Hfuel.
  - change (truncateLoop measureText availableWidth 0 s) with s.
    destruct (stillTooWide measureText availableWidth s) eqn:Hwide;
      [|reflexivity].
    apply stillTooWide_long in Hwide. lia.
  - rewrite truncateLoop_step.
    destruct (stillTooWide measureText availableWidth s) eqn:Hwide;
      [|exact Hwide].
    apply IH. rewrite len_slice. lia.
Qed.

(** More fuel than the length of the text changes nothing. *)
Lemma truncateLoop_fuel (fuel fuel' : nat) (s : string) :
  (JsString.len s <= fuel)%nat -> (JsString.len s <= fuel')%nat ->
  truncateLoop measureText availableWidth fuel s
  = truncateLoop measureText availableWidth fuel' s.
Proof.
  revert fuel' s. induction fuel as [|fuel IH]; intros [|fuel'] s H H';
    try reflexivity.
  - rewrite truncateLoop_step.
    destruct (stillTooWide measureText availableWidth s) eqn:Hwide;
      [|reflexivity].
    apply stillTooWide_long in Hwide. lia.
  - rewrite truncateLoop_step.
    destruct (stillTooWide measureText availableWidth s) eqn:Hwide;
      [|reflexivity].
    apply stillTooWide_long in Hwide. lia.
  - rewrite !truncateLoop_step.
    destruct (stillTooWide measureText availableWidth s); [|reflexivity].
    apply IH; rewrite len_slice; lia.
Qed.

Hypothesis full_stop_widens : forall s,
  getTextWidth measureText s titleFont
    <= getTextWidth measureText (s ++ ".") titleFont.

(** A five-character text with its ellipsis that is still too wide comes
    back from the loop as the five characters alone. *)
Lemma truncateLoop_floor (k : string) :
  JsString.len k = 5%nat ->
  getTextWidth measureText (k ++ "..") titleFont > availableWidth ->
  truncateLoop measureText availableWidth
    (JsString.len (k ++ "..")) (k ++ "..") = k.
Proof.
  intros Hlen Hwide.
  assert (E2 : k ++ ".." = (k ++ ".") ++ ".") by now rewrite append_assoc.
  assert (E3 : (k ++ ".") ++ ".." = (k ++ "..") ++ ".")
    by now rewrite !append_assoc.
  assert (E4 : (k ++ "..") ++ ".." = ((k ++ "..") ++ ".") ++ ".")
    by now rewrite !append_assoc.
  pose proof (full_stop_widens (k ++ "..")) as Hw3.
  pose proof (full_stop_widens ((k ++ "..") ++ ".")) as Hw4.
  assert (Hk : stillTooWide measureText availableWidth k = false).
  { unfold stillTooWide, JsString.length. rewrite Hlen.
    now rewrite andb_false_r. }
  assert (H1 : stillTooWide measureText availableWidth (k ++ "..") = true).
  { unfold stillTooWide, JsString.length. rewrite len_append, Hlen.
    rewrite andb_true_r. rewrite E4.
    destruct (Z.gtb_spec
      (getTextWidth measureText (((k ++ "..") ++ ".") ++ ".") titleFont)
      availableWidth); [reflexivity | lia]. }
  assert (H2 : stillTooWide measureText availableWidth (k ++ ".") = true).
  { unfold stillTooWide, JsString.length. rewrite len_append, Hlen.
    rewrite andb_true_r. rewrite E3.
    destruct (Z.gtb_spec
      (getTextWidth measureText ((k ++ "..") ++ ".") titleFont)
      availableWidth); [reflexivity | lia]. }
  rewrite len_append, Hlen. simpl JsString.len.
  change (5 + 2)%nat with 7%nat.
  rewrite truncateLoop_step, H1. rewrite E2 at 1. rewrite slice_append_char.
  rewrite truncateLoop_step, H2. rewrite slice_append_char.
  rewrite truncateLoop_step, Hk. reflexivity.
Qed.

End TitleFitting.

(** C8.  For a text measure under which a full stop appended to a text
    never makes it narrower, every page and every title: a title that fits
    the available width is returned unchanged, and fitting the result of a
    fitting again returns that result, whether it was truncated or not. *)
Theorem adjustTitleSize_idempotent (measureText : string -> string -> Q)
  (document : Document) (title : string) :
  (forall s,
     getTextWidth measureText s titleFont
       <= getTextWidth measureText (s ++ ".") titleFont) ->
  (getTextWidth measureText title titleFont <= calculateTitleSpace document ->
   adjustTitleSize measureText document title = title) /\
  adjustTitleSize measureText document
    (adjustTitleSize measureText document title)
  = adjustTitleSize measureText document title.
Proof.
  intros Hmono.
  set (available := calculateTitleSpace document).
  assert (Hfits : forall t,
    getTextWidth measureText t titleFont <= available ->
    adjustTitleSize measureText document t = t).
  { intros t Ht. unfold adjustTitleSize. fold available.
    destruct (mapTitle document); simpl; [|reflexivity].
    destruct (Z.leb_spec (getTextWidth measureText t titleFont) available);
      [reflexivity | lia]. }
  split; [exact (Hfits title)|].
  destruct (Z_le_gt_dec (getTextWidth measureText title titleFont) available)
    as [Hle|Hgt].
  { now rewrite !(Hfits title Hle). }
  unfold adjustTitleSize at 2 3. fold available.
  destruct (mapTitle document) eqn:Hdoc; simpl;
    [|unfold adjustTitleSize; now rewrite Hdoc].
  destruct (Z.leb_spec (getTextWidth measureText title titleFont) available)
    as [Hle|_]; [lia|].
  set (k := truncateLoop measureText available (JsString.len title) title).
  pose proof (truncateLoop_same_or_shorter measureText available
                (JsString.len title) title) as Hshape.
  pose proof (truncateLoop_stops measureText available
                (JsString.len title) title (Nat.le_refl _)) as Hstop.
  fold k in Hshape, Hstop.
  destruct Hshape as [Hsame | [Hshort Hfive]].
  - (* nothing was removed: the result is the title itself *)
    rewrite Hsame.
    rewrite Z.ltb_irrefl.
    unfold adjustTitleSize. fold available. rewrite Hdoc. simpl.
    destruct (Z.leb_spec (getTextWidth measureText title titleFont) available)
      as [Hle|_]; [lia|].
    fold k. rewrite Hsame. now rewrite Z.ltb_irrefl.
  - (* characters were removed: the result carries the ellipsis *)
    assert (Hlt : (JsString.length k <? JsString.length title) = true).
    { apply Z.ltb_lt. unfold JsString.length. lia. }
    rewrite Hlt.
    destruct (Z_le_gt_dec
      (getTextWidth measureText (k ++ "..") titleFont) available) as [Hok|Hwide].
    + now apply Hfits.
    + assert (Hlen : JsString.len k = 5%nat).
      { apply andb_false_iff in Hstop as [Hstop|Hstop].
        - destruct (Z.gtb_spec
            (getTextWidth measureText (k ++ "..") titleFont) available);
            [discriminate | lia].
        - unfold JsString.length in Hstop.
          destruct (Z.gtb_spec (Z.of_nat (JsString.len k)) 5);
            [discriminate | lia]. }
      unfold adjustTitleSize. fold available. rewrite Hdoc. simpl.
      destruct (Z.leb_spec
        (getTextWidth measureText (k ++ "..") titleFont) available)
        as [Hle|_]; [lia|].
      rewrite (truncateLoop_floor measureText available Hmono k Hlen Hwide).
      unfold JsString.length. rewrite len_append, Hlen. reflexivity.
Qed.

Lemma fixedPitch_full_stop (s : string) :
  getTextWidth Sample.fixedPitch s titleFont
    <= getTextWidth Sample.fixedPitch (s ++ ".") titleFont.
Proof.
  unfold getTextWidth, Sample.fixedPitch, JsString.length.
  rewrite !Qceiling_Z, len_append. lia.
Qed.

Lemma adjustTitleSize_idempotent_witness :
  (forall s,
     getTextWidth Sample.fixedPitch s titleFont
       <= getTextWidth Sample.fixedPitch (s ++ ".") titleFont) /\
  adjustTitleSize Sample.fixedPitch Sample.page Sample.longTitle
    = "The Quick Brown Fox Jumps Ov.." /\
  adjustTitleSize Sample.fixedPitch Sample.page "The Quick Brown Fox Jumps Ov.."
    = "The Quick Brown Fox Jumps Ov..".
Proof.
  split; [exact fixedPitch_full_stop|].
  assert (E : adjustTitleSize Sample.fixedPitch Sample.page Sample.longTitle
              = "The Quick Brown Fox Jumps Ov..") by (vm_compute; reflexivity).
  split; [exact E|].
  rewrite <- E.
  exact (proj2 (adjustTitleSize_idempotent Sample.fixedPitch Sample.page
                  Sample.longTitle fixedPitch_full_stop)).
Defined.

(** * Further properties of the script *)

(** ** Title fitting: what the truncation keeps *)

Section TitleShape.

Variable measureText : string -> string -> Q.
Variable availableWidth : Z.

Lemma take_take (m n : nat) (s : string) :
  (m <= n)%nat -> JsString.take m (JsString.take n s) = JsString.take m s.
Proof.
  revert n s. induction m as [|m IH]; intros [|n] [|c s] H; simpl;
    try reflexivity; try lia.
  f_equal. apply IH. lia.
Qed.

Lemma truncateLoop_le (fuel : nat) (s : string) :
  (JsString.len (truncateLoop measureText availableWidth fuel s)
     <= JsString.len s)%nat.
Proof.
  destruct (truncateLoop_same_or_shorter measureText availableWidth fuel s)
    as [-> | [H _]]; lia.
Qed.

(** The loop returns a prefix of its argument. *)
Lemma truncateLoop_prefix (fuel : nat) (s : string) :
  truncateLoop measureText availableWidth fuel s
  = JsString.take
      (JsString.len (truncateLoop measureText availableWidth fuel s)) s.
Proof.
  revert s. induction fuel as [|fuel IH]; intros s.
  - simpl. now rewrite take_all.
  - rewrite truncateLoop_step.
    destruct (stillTooWide measureText availableWidth s) eqn:Hwide.
    + rewrite IH at 1. unfold JsString.slice_0_m1 at 2.
      apply take_take.
      pose proof (truncateLoop_le fuel (JsString.slice_0_m1 s)).
      rewrite len_slice in *. lia.
    + now rewrite take_all.
Qed.

(** Every prefix longer than the one the loop returns was tested and
    found too wide. *)
Lemma truncateLoop_skipped (fuel : nat) (s : string) (m : nat) :
  (JsString.len (truncateLoop measureText availableWidth fuel s) < m
     <= JsString.len s)%nat ->
  stillTooWide measureText availableWidth (JsString.take m s) = true.
Proof.
  revert s. induction fuel as [|fuel IH]; intros s Hm.
  - simpl in Hm. lia.
  - rewrite truncateLoop_step in Hm.
    destruct (stillTooWide measureText availableWidth s) eqn:Hwide; [|lia].
    destruct (Nat.eq_dec m (JsString.len s)) as [-> | Hne].
    + now rewrite take_all.
    + rewrite <- (take_take m (JsString.len s - 1) s) by lia.
      apply IH. fold (JsString.slice_0_m1 s). rewrite len_slice. lia.
Qed.

End TitleShape.

(** X1.  The fitted title is the title itself or a proper prefix of it,
    five characters long at least, followed by [".."]; a title of five
    characters or fewer is never cut, and the result is at most one
    character longer than the title. *)
Theorem adjustTitleSize_shape (measureText : string -> string -> Q)
  (document : Document) (title : string) :
  (adjustTitleSize measureText document title = title \/
   exists n, (5 <= n < JsString.len title)%nat /\
     adjustTitleSize measureText document title
     = JsString.take n title ++ "..") /\
  ((JsString.len title <= 5)%nat ->
   adjustTitleSize measureText document title = title) /\
  (JsString.len (adjustTitleSize measureText document title)
     <= JsString.len title + 1)%nat.
Proof.
  set (available := calculateTitleSpace document).
  set (k := truncateLoop measureText available (JsString.len title) title).
  assert (Hcases :
    adjustTitleSize measureText document title = title \/
    ((5 <= JsString.len k < JsString.len title)%nat /\
     adjustTitleSize measureText document title
     = JsString.take (JsString.len k) title ++ "..")).
  { unfold adjustTitleSize. fold available. fold k.
    destruct (mapTitle document); simpl; [|now left].
    destruct (getTextWidth measureText title titleFont <=? available);
      [now left|].
    destruct (truncateLoop_same_or_shorter measureText available
                (JsString.len title) title) as [Hsame | [Hlt Hge]];
      fold k in Hsame || fold k in Hlt, Hge.
    - left. rewrite Hsame. now rewrite Z.ltb_irrefl.
    - right. split; [lia|].
      assert (Hz : (JsString.length k <? JsString.length title) = true).
      { apply Z.ltb_lt. unfold JsString.length. lia. }
      rewrite Hz. f_equal. apply truncateLoop_prefix. }
  split; [|split].
  - destruct Hcases as [H | [Hn H]]; [now left | right; eauto].
  - intros Hshort. destruct Hcases as [H | [Hn _]]; [exact H | lia].
  - destruct Hcases as [-> | [Hn ->]]; [lia|].
    rewrite len_append, len_take. simpl. lia.
Qed.

(** X2.  When the title element exists and the title is wider than the
    available width, the fitting keeps the longest prefix it can: every
    longer prefix, ellipsis appended, is wider than the available width,
    and the prefix kept with its ellipsis fits unless the five-character
    floor stopped the loop. *)
Theorem adjustTitleSize_longest_prefix (measureText : string -> string -> Q)
  (document : Document) (title : string) :
  mapTitle document = true ->
  getTextWidth measureText title titleFont > calculateTitleSpace document ->
  exists n, (n <= JsString.len title)%nat /\
    adjustTitleSize measureText document title
    = (if (n <? JsString.len title)%nat
       then JsString.take n title ++ ".." else title) /\
    (forall m, (n < m <= JsString.len title)%nat ->
       getTextWidth measureText (JsString.take m title ++ "..") titleFont
         > calculateTitleSpace document /\ (5 < m)%nat) /\
    (getTextWidth measureText (JsString.take n title ++ "..") titleFont
       <= calculateTitleSpace document \/ (n <= 5)%nat).
Proof.
  intros Hdoc Hwide.
  set (available := calculateTitleSpace document) in *.
  set (k := truncateLoop measureText available (JsString.len title) title).
  exists (JsString.len k).
  assert (Hle : (JsString.len k <= JsString.len title)%nat)
    by apply truncateLoop_le.
  assert (Hk : k = JsString.take (JsString.len k) title)
    by apply truncateLoop_prefix.
  split; [exact Hle|]. split; [|split].
  - unfold adjustTitleSize. fold available. fold k. rewrite Hdoc. simpl.
    destruct (Z.leb_spec (getTextWidth measureText title titleFont) available);
      [lia|].
    destruct (Nat.ltb_spec (JsString.len k) (JsString.len title)) as [Hlt|Hge].
    + assert (Hz : (JsString.length k <? JsString.length title) = true).
      { apply Z.ltb_lt. unfold JsString.length. lia. }
      rewrite Hz. now rewrite <- Hk.
    + assert (Hz : (JsString.length k <? JsString.length title) = false).
      { apply Z.ltb_ge. unfold JsString.length. lia. }
      rewrite Hz. rewrite Hk. apply take_all. lia.
  - intros m Hm.
    pose proof (truncateLoop_skipped measureText available
                  (JsString.len title) title m Hm) as Htoo.
    pose proof (stillTooWide_long _ _ _ Htoo) as Hlong.
    rewrite len_take in Hlong.
    unfold stillTooWide in Htoo. apply andb_prop in Htoo as [Htoo _].
    split; [|lia].
    destruct (Z.gtb_spec
      (getTextWidth measureText (JsString.take m title ++ "..") titleFont)
      available); [lia | discriminate].
  - pose proof (truncateLoop_stops measureText available
                  (JsString.len title) title (Nat.le_refl _)) as Hstop.
    fold k in Hstop. rewrite <- Hk.
    unfold stillTooWide in Hstop.
    apply andb_false_iff in Hstop as [Hstop|Hstop].
    + left. destruct (Z.gtb_spec
        (getTextWidth measureText (k ++ "..") titleFont) available);
        [discriminate | lia].
    + right. unfold JsString.length in Hstop.
      destruct (Z.gtb_spec (Z.of_nat (JsString.len k)) 5);
        [discriminate | lia].
Qed.

Lemma adjustTitleSize_longest_prefix_witness :
  mapTitle Sample.page = true /\
  getTextWidth Sample.fixedPitch Sample.longTitle titleFont
    > calculateTitleSpace Sample.page /\
  exists n, (n <= JsString.len Sample.longTitle)%nat /\
    adjustTitleSize Sample.fixedPitch Sample.page Sample.longTitle
    = (if (n <? JsString.len Sample.longTitle)%nat
       then JsString.take n Sample.longTitle ++ ".." else Sample.longTitle).
Proof.
  split; [reflexivity|]. split; [vm_compute; reflexivity|].
  destruct (adjustTitleSize_longest_prefix Sample.fixedPitch Sample.page
              Sample.longTitle eq_refl ltac:(vm_compute; reflexivity))
    as (n & Hn & Hres & _).
  exists n. split; [exact Hn | exact Hres].
Defined.

(** X3.  More mod icons never leave more room for the title: the
    available width is 760 without icons, 740 minus 70 per icon for one
    to seven icons, and stays at the floor of 200 from eight icons on. *)
Theorem calculateTitleSpace_by_icons (document document' : Document) :
  ((modIcons document <= modIcons document')%nat ->
   calculateTitleSpace document' <= calculateTitleSpace document) /\
  (modIcons document = O -> calculateTitleSpace document = 760) /\
  ((1 <= modIcons document <= 7)%nat ->
   calculateTitleSpace document = 740 - 70 * Z.of_nat (modIcons document)) /\
  ((8 <= modIcons document)%nat -> calculateTitleSpace document = 200).
Proof.
  unfold calculateTitleSpace.
  destruct (Z.gtb_spec (Z.of_nat (modIcons document)) 0);
    destruct (Z.gtb_spec (Z.of_nat (modIcons document')) 0);
    repeat split; intros; lia.
Qed.

Lemma calculateTitleSpace_by_icons_witness :
  (modIcons Sample.page <= modIcons Sample.crowdedPage)%nat /\
  (1 <= modIcons Sample.page <= 7)%nat /\
  (8 <= modIcons Sample.crowdedPage)%nat /\
  calculateTitleSpace Sample.page = 600 /\
  calculateTitleSpace Sample.crowdedPage = 200 /\
  calculateTitleSpace Sample.crowdedPage <= calculateTitleSpace Sample.page.
Proof.
  destruct (calculateTitleSpace_by_icons Sample.page Sample.crowdedPage)
    as (Hmono & _ & Hfew & _).
  destruct (calculateTitleSpace_by_icons Sample.crowdedPage Sample.page)
    as (_ & _ & _ & Hmany).
  assert (H1 : (modIcons Sample.page <= modIcons Sample.crowdedPage)%nat)
    by (simpl; lia).
  assert (H2 : (1 <= modIcons Sample.page <= 7)%nat) by (simpl; lia).
  assert (H3 : (8 <= modIcons Sample.crowdedPage)%nat) by (simpl; lia).
  split; [exact H1|]. split; [exact H2|]. split; [exact H3|].
  split; [exact (Hfew H2)|]. split; [exact (Hmany H3) | exact (Hmono H1)].
Defined.

Lemma adjustTitleSize_shape_witness :
  (JsString.len "Tiny" <= 5)%nat /\
  adjustTitleSize Sample.hugePitch Sample.page "Tiny" = "Tiny" /\
  adjustTitleSize Sample.hugePitch Sample.page "Sixsix" = "Sixsi.." /\
  (JsString.len (adjustTitleSize Sample.hugePitch Sample.page "Sixsix")
     <= JsString.len "Sixsix" + 1)%nat.
Proof.
  destruct (adjustTitleSize_shape Sample.hugePitch Sample.page "Tiny")
    as (_ & Hshort & _).
  destruct (adjustTitleSize_shape Sample.hugePitch Sample.page "Sixsix")
    as (_ & _ & Hlen).
  assert (H5 : (JsString.len "Tiny" <= 5)%nat) by (simpl; lia).
  split; [exact H5|]. split; [exact (Hshort H5)|].
  split; [vm_compute; reflexivity | exact Hlen].
Defined.

(** ** Right-section size classes *)

Section SizeClasses.

(** The loop stops at the first entry that fits: the entries before it do
    not fit, and if none fits nothing is returned. *)
Lemma firstFitting_first (sizes : list SizeClass) (availableWidth : Q) :
  match firstFitting sizes availableWidth with
  | Some size =>
      exists before after, sizes = (before ++ size :: after)%list /\
        (maxWidth size <= availableWidth)%Q /\
        Forall (fun s => (availableWidth < maxWidth s)%Q) before
  | None => Forall (fun s => (availableWidth < maxWidth s)%Q) sizes
  end.
Proof.
  induction sizes as [|size rest IH]; simpl; [constructor|].
  destruct (Qle_bool (maxWidth size) availableWidth) eqn:Hfit.
  - exists [], rest. split; [reflexivity|].
    split; [now apply Qle_bool_iff | constructor].
  - assert (Hlt : (availableWidth < maxWidth size)%Q).
    { apply Qnot_le_lt. intros Hle. apply Qle_bool_iff in Hle. congruence. }
    destruct (firstFitting rest availableWidth) as [found|].
    + destruct IH as (before & after & -> & Hle & Hbefore).
      exists (size :: before), after. split; [reflexivity|].
      split; [exact Hle | now constructor].
    + now constructor.
Qed.

(** In a table of descending thresholds the entry found is the one with
    the largest threshold the available width reaches. *)
Lemma firstFitting_largest (sizes : list SizeClass) (availableWidth : Q)
  (size : SizeClass) :
  descending sizes ->
  firstFitting sizes availableWidth = Some size ->
  In size sizes /\ (maxWidth size <= availableWidth)%Q /\
  forall size', In size' sizes -> (maxWidth size' <= availableWidth)%Q ->
    (maxWidth size' <= maxWidth size)%Q.
Proof.
  intros Hdesc Hfound.
  pose proof (firstFitting_first sizes availableWidth) as Hfirst.
  rewrite Hfound in Hfirst.
  destruct Hfirst as (before & after & Hsplit & Hle & Hbefore).
  split; [rewrite Hsplit; apply in_or_app; right; now left|].
  split; [exact Hle|].
  intros size' Hin Hfits. rewrite Hsplit in Hin.
  apply in_app_or in Hin as [Hin | [<- | Hin]].
  - rewrite List.Forall_forall in Hbefore. specialize (Hbefore _ Hin).
    exfalso. apply (Qlt_irrefl availableWidth).
    now apply Qlt_le_trans with (y := maxWidth size').
  - apply Qle_refl.
  - exact (Hdesc before size after size' Hsplit Hin).
Qed.

Lemma firstFitting_none (sizes : list SizeClass) (availableWidth : Q) :
  firstFitting sizes availableWidth = None <->
  Forall (fun s => (availableWidth < maxWidth s)%Q) sizes.
Proof.
  split.
  - intros Hnone. pose proof (firstFitting_first sizes availableWidth) as H.
    now rewrite Hnone in H.
  - induction 1 as [|size rest Hlt _ IH]; simpl; [reflexivity|].
    destruct (Qle_bool (maxWidth size) availableWidth) eqn:Hfit; [|exact IH].
    apply Qle_bool_iff in Hfit. exfalso. apply (Qlt_irrefl availableWidth).
    now apply Qlt_le_trans with (y := maxWidth size).
Qed.

End SizeClasses.

Ltac descending_table :=
  intros before size after size' Hsplit Hin;
  repeat (destruct before as [|? before];
          [ injection Hsplit as <- <-; simpl in Hin;
            repeat (destruct Hin as [<- | Hin]); try contradiction;
            unfold Qle; simpl; lia
          | injection Hsplit as <- Hsplit ]);
  destruct before; discriminate.

Lemma ppSizes_descending : descending ppSizes.
Proof. descending_table. Qed.

Lemma fcSizes_descending : descending fcSizes.
Proof. descending_table. Qed.

(** Below the smallest threshold of a table nothing fits; from it on
    something does. *)
Lemma firstFitting_threshold (sizes : list SizeClass) (availableWidth : Q)
  (smallest : SizeClass) :
  In smallest sizes ->
  (forall s, In s sizes -> (maxWidth smallest <= maxWidth s)%Q) ->
  ((availableWidth < maxWidth smallest)%Q ->
   firstFitting sizes availableWidth = None) /\
  ((maxWidth smallest <= availableWidth)%Q ->
   exists size, firstFitting sizes availableWidth = Some size).
Proof.
  intros Hin Hmin. split.
  - intros Hlt. apply firstFitting_none. apply List.Forall_forall.
    intros s Hs. now apply Qlt_le_trans with (y := maxWidth smallest); auto.
  - intros Hle. destruct (firstFitting sizes availableWidth) eqn:Hfound;
      [eauto|].
    apply firstFitting_none in Hfound.
    rewrite List.Forall_forall in Hfound. specialize (Hfound _ Hin).
    exfalso. apply (Qlt_irrefl availableWidth).
    now apply Qlt_le_trans with (y := maxWidth smallest).
Qed.

(** X4.  When the card, its left section and its right section exist,
    with the available width the width of the card minus the width of the
    left section minus 50: the performance text gets the class of the
    largest threshold the available width reaches (300, 250, 200, 150)
    and keeps its class below 150; the full-combo banner with a text gets
    the class of the largest of 250, 200, 150 reached and keeps its class
    below 150; a banner without text is never touched. *)
Theorem adjustRightSectionSizes_largest_class (page : RightSection)
  (cardWidth sectionWidth : Q) :
  scorecardWidth page = Some cardWidth ->
  leftWidth page = Some sectionWidth ->
  rightPresent page = true ->
  (forall old, ppClass page = Some old ->
     ((cardWidth - (sectionWidth + 50) < 150)%Q ->
      ppClass (adjustRightSectionSizes page) = Some old) /\
     ((150 <= cardWidth - (sectionWidth + 50))%Q ->
      exists size, In size ppSizes /\
        ppClass (adjustRightSectionSizes page) = Some ("pp " ++ className size) /\
        (maxWidth size <= cardWidth - (sectionWidth + 50))%Q /\
        forall size', In size' ppSizes ->
          (maxWidth size' <= cardWidth - (sectionWidth + 50))%Q ->
          (maxWidth size' <= maxWidth size)%Q)) /\
  (forall old text, fullCombo page = Some (old, text) -> text <> "" ->
     ((cardWidth - (sectionWidth + 50) < 150)%Q ->
      fullCombo (adjustRightSectionSizes page) = Some (old, text)) /\
     ((150 <= cardWidth - (sectionWidth + 50))%Q ->
      exists size, In size fcSizes /\
        fullCombo (adjustRightSectionSizes page)
        = Some ("full-combo " ++ className size, text) /\
        (maxWidth size <= cardWidth - (sectionWidth + 50))%Q /\
        forall size', In size' fcSizes ->
          (maxWidth size' <= cardWidth - (sectionWidth + 50))%Q ->
          (maxWidth size' <= maxWidth size)%Q)) /\
  (forall old, fullCombo page = Some (old, "") ->
     fullCombo (adjustRightSectionSizes page) = Some (old, "")).
Proof.
  intros Hcard Hleft Hright.
  set (available := (cardWidth - (sectionWidth + 50))%Q).
  assert (Hpp : In {| className := "size-tiny"; maxWidth := 150 |} ppSizes)
    by (simpl; tauto).
  assert (Hfc : In {| className := "size-small"; maxWidth := 150 |} fcSizes)
    by (simpl; tauto).
  assert (Hppmin : forall s, In s ppSizes -> (150 <= maxWidth s)%Q).
  { intros s Hs. simpl in Hs.
    repeat (destruct Hs as [<- | Hs]); try contradiction;
      unfold Qle; simpl; lia. }
  assert (Hfcmin : forall s, In s fcSizes -> (150 <= maxWidth s)%Q).
  { intros s Hs. simpl in Hs.
    repeat (destruct Hs as [<- | Hs]); try contradiction;
      unfold Qle; simpl; lia. }
  destruct (firstFitting_threshold ppSizes available _ Hpp Hppmin)
    as [Hppnone Hppsome].
  destruct (firstFitting_threshold fcSizes available _ Hfc Hfcmin)
    as [Hfcnone Hfcsome].
  unfold adjustRightSectionSizes. rewrite Hcard, Hleft, Hright.
  fold available. cbn [ppClass fullCombo].
  split; [|split].
  - intros old Hold. rewrite Hold. split.
    + intros Hlt. now rewrite (Hppnone Hlt).
    + intros Hge. destruct (Hppsome Hge) as [size Hsize]. rewrite Hsize.
      exists size.
      destruct (firstFitting_largest ppSizes available size
                  ppSizes_descending Hsize) as (Hin & Hle & Hmax).
      repeat split; assumption.
  - intros old text Hold Htext. rewrite Hold.
    rewrite (proj2 (isSet_true text) Htext). split.
    + intros Hlt. now rewrite (Hfcnone Hlt).
    + intros Hge. destruct (Hfcsome Hge) as [size Hsize]. rewrite Hsize.
      exists size.
      destruct (firstFitting_largest fcSizes available size
                  fcSizes_descending Hsize) as (Hin & Hle & Hmax).
      repeat split; assumption.
  - intros old Hold. now rewrite Hold.
Qed.

Lemma adjustRightSectionSizes_largest_class_witness :
  scorecardWidth Sample.rightSide = Some 800%Q /\
  leftWidth Sample.rightSide = Some 480%Q /\
  rightPresent Sample.rightSide = true /\
  (150 <= 800 - (480 + 50))%Q /\
  ppClass (adjustRightSectionSizes Sample.rightSide) = Some "pp size-medium" /\
  fullCombo (adjustRightSectionSizes Sample.rightSide)
  = Some ("full-combo size-large", "Full Combo!").
Proof.
  destruct (adjustRightSectionSizes_largest_class Sample.rightSide 800%Q 480%Q
              eq_refl eq_refl eq_refl) as (Hpp & Hfc & _).
  assert (Hge : (150 <= 800 - (480 + 50))%Q) by (unfold Qle; simpl; lia).
  destruct (Hpp "pp" eq_refl) as [_ Hppge].
  destruct (Hppge Hge) as (size & _ & Hclass & _).
  destruct (Hfc "full-combo" "Full Combo!" eq_refl ltac:(discriminate))
    as [_ Hfcge].
  destruct (Hfcge Hge) as (size' & _ & Hclass' & _).
  repeat split; try reflexivity; try exact Hge.
Defined.

(** When the card, its left section or its right section is missing
    from the page, [adjustRightSectionSizes] changes nothing. *)
Lemma adjustRightSectionSizes_missing (page : RightSection) :
  scorecardWidth page = None \/ leftWidth page = None
    \/ rightPresent page = false ->
  adjustRightSectionSizes page = page.
Proof.
  unfold adjustRightSectionSizes.
  intros [H | [H | H]]; rewrite H;
    destruct (scorecardWidth page); try destruct (leftWidth page);
    reflexivity.
Qed.

(** ** Height of the card and the extra text *)

Section ExtraText.

(** In a text without [<] every line break the replacement writes ends
    one segment, and nothing else does. *)
Lemma split_replaceNewlines (value cur : string) :
  countChar "<" value = O ->
  List.length (JsString.splitFrom "<br>" O cur (replaceNewlines value))
  = S (countChar "010" value).
Proof.
  revert cur. induction value as [|c r IH]; intros cur Hangle;
    [reflexivity|].
  apply countChar_cons_zero in Hangle as [Hc Hr].
  cbn [replaceNewlines countChar].
  rewrite (Ascii.eqb_sym "010" c).
  destruct (Ascii.eqb c "010") eqn:Hnl.
  - change ("<br>" ++ replaceNewlines r)
      with (String "<" (String "b" (String "r" (String ">" (replaceNewlines r))))).
    change (JsString.splitFrom "<br>" 0 cur
              (String "<" (String "b" (String "r" (String ">" (replaceNewlines r))))))
      with (cur :: JsString.splitFrom "<br>" 0 "" (replaceNewlines r)).
    cbn [List.length]. now rewrite IH.
  - cbn [JsString.splitFrom JsString.startsWith].
    rewrite Hc. cbn [andb]. now rewrite IH.
Qed.

Lemma replaceNewlines_set (value : string) :
  isSet (replaceNewlines value) = isSet value.
Proof.
  destruct value as [|c r]; [reflexivity|]. simpl.
  destruct (Ascii.eqb c "010"); reflexivity.
Qed.

End ExtraText.

(** X5.  For a text of the extra-text area without [<], on the page as
    it is measured once the card holding that text is rendered: the
    height asked for is 600, plus 30 for every line break of the text
    beyond the first, whatever else the text holds, plus, only when the
    banner is shown (the full-combo box checked, or a score loaded that is
    a full combo) and the right section overflows, the overflow and 20.
    It is never below 600 plus the share of the text, and on a map
    preview with the box unchecked it is exactly that, whatever the page
    measures. *)
Theorem scorecardHeight_by_line_breaks (document : Document)
  (textarea : string) (fullComboOverride : bool)
  (currentScoreData : option ScoreReply) (scoreData : ScoreData.t) :
  countChar "<" textarea = O ->
  let lines := 30 * Z.max 0 (Z.of_nat (countChar "010" textarea) - 1) in
  let banner :=
    fullComboOverride
    || match currentScoreData with
       | Some _ => ScoreData.full_combo scoreData
       | None => false
       end in
  let overflow :=
    match rightSection document with
    | Some box =>
        if scrollHeight box >? clientHeight box
        then scrollHeight box - clientHeight box + 20
        else 0
    | None => 0
    end in
  scorecardHeight document textarea fullComboOverride currentScoreData scoreData
  = 600 + lines + (if banner then overflow else 0) /\
  600 + lines
  <= scorecardHeight document textarea fullComboOverride
       currentScoreData scoreData /\
  (fullComboOverride = false -> currentScoreData = None ->
   scorecardHeight document textarea fullComboOverride currentScoreData scoreData
   = 600 + lines).
Proof.
  intros Hangle lines banner overflow.
  assert (Hheight :
    scorecardHeight document textarea fullComboOverride currentScoreData
      scoreData
    = 600 + lines + (if banner then overflow else 0)).
  { unfold scorecardHeight, calculateRequiredHeight.
    rewrite replaceNewlines_set.
    unfold JsString.split. rewrite split_replaceNewlines by assumption.
    fold (countChar "010" textarea).
    set (breaks := countChar "010" textarea) in *.
    assert (Hlines :
      (if isSet textarea
       then if Z.of_nat (S breaks) >? 2
            then 0 + (Z.of_nat (S breaks) - 2) * 30 else 0
       else 0) = lines).
    { subst lines. destruct textarea as [|c r]; [reflexivity|].
      cbn [isSet JsString.isEmpty negb].
      destruct (Z.gtb_spec (Z.of_nat (S breaks)) 2); lia. }
    rewrite Hlines.
    assert (Hbanner :
      isSet (fullComboText fullComboOverride currentScoreData scoreData)
      = banner).
    { subst banner. unfold fullComboText.
      destruct (fullComboOverride || _); reflexivity. }
    rewrite Hbanner. subst overflow.
    destruct banner; [|lia].
    destruct (rightSection document) as [box|]; [|lia].
    destruct (Z.gtb_spec (scrollHeight box) (clientHeight box)); lia. }
  split; [exact Hheight|]. split.
  - rewrite Hheight. subst overflow.
    destruct banner; [|lia].
    destruct (rightSection document) as [box|]; [|lia].
    destruct (Z.gtb_spec (scrollHeight box) (clientHeight box)); lia.
  - intros Hbox Hnone. rewrite Hheight. subst banner.
    rewrite Hbox, Hnone. cbn. lia.
Qed.

Lemma scorecardHeight_by_line_breaks_witness :
  countChar "<" Sample.fourLines = O /\
  countChar "010" Sample.fourLines = 3%nat /\
  (forall scoreData,
     scorecardHeight Sample.page Sample.fourLines false None scoreData = 660 /\
     scorecardHeight Sample.page Sample.fourLines true None scoreData = 690).
Proof.
  split; [reflexivity|]. split; [reflexivity|].
  intros scoreData. split.
  - destruct (scorecardHeight_by_line_breaks Sample.page Sample.fourLines false
                None scoreData eq_refl) as (_ & _ & Hpreview).
    rewrite (Hpreview eq_refl eq_refl). reflexivity.
  - destruct (scorecardHeight_by_line_breaks Sample.page Sample.fourLines true
                None scoreData eq_refl) as (Hheight & _).
    rewrite Hheight. reflexivity.
Defined.

(** ** The current records under the fetch handlers *)

Section FetchHandlers.

Variable host : Host.t.

Lemma step_settled (st : AppState) (outcome : FetchOutcome) :
  settled (step host st outcome).
Proof.
  destruct outcome as [data | | data |]; unfold settled, exclusive, loaded;
    cbn [step scoreFetchFailed mapFetched mapFetchFailed
         currentScoreData currentMapData scoreOverridesShown generateDisabled
         negb].
  - unfold scoreFetched, populateOverrideFields.
    destruct (UpstreamUser.user_rank (user data)); cbn; repeat split;
      auto; discriminate.
  - repeat split; auto; discriminate.
  - repeat split; auto.
  - repeat split; auto; discriminate.
Qed.

Lemma run_snoc (st : AppState) (outcomes : list FetchOutcome)
  (outcome : FetchOutcome) :
  run host st (outcomes ++ [outcome])%list
  = step host (run host st outcomes) outcome.
Proof. unfold run. now rewrite fold_left_app. Qed.

End FetchHandlers.

(** X6.  Whatever fetches end in whatever order: if at most one of the
    score record and the map record was set before, at most one is set
    after; and once at least one fetch has ended, the generate button is
    enabled exactly when the override panel is shown, which happens only
    with a record loaded. *)
Theorem run_keeps_one_record (host : Host.t) (st : AppState)
  (outcomes : list FetchOutcome) :
  ((currentScoreData st = None \/ currentMapData st = None) ->
   currentScoreData (run host st outcomes) = None
   \/ currentMapData (run host st outcomes) = None) /\
  (outcomes <> [] ->
   (currentScoreData (run host st outcomes) = None
    \/ currentMapData (run host st outcomes) = None) /\
   scoreOverridesShown (run host st outcomes)
   = negb (generateDisabled (run host st outcomes)) /\
   (scoreOverridesShown (run host st outcomes) = true ->
    loaded (run host st outcomes) = true)).
Proof.
  assert (Hlast : outcomes <> [] -> settled (run host st outcomes)).
  { intros Hne. destruct (exists_last Hne) as (front & outcome & ->).
    rewrite run_snoc. apply step_settled. }
  split.
  - intros Hinit. destruct outcomes as [|o rest]; [exact Hinit|].
    apply Hlast. discriminate.
  - exact Hlast.
Qed.

Lemma run_keeps_one_record_witness :
  [MapReplied Sample.mapOnly; ScoreReplied Sample.rankedReply; MapFailed]
    <> [] /\
  (forall host st,
     let st' := run host st
                  [MapReplied Sample.mapOnly; ScoreReplied Sample.rankedReply;
                   MapFailed] in
     (currentScoreData st' = None \/ currentMapData st' = None) /\
     currentScoreData st' = Some Sample.rankedReply /\
     scoreOverridesShown st' = false).
Proof.
  split; [discriminate|].
  intros host st st'.
  destruct (run_keeps_one_record host st
              [MapReplied Sample.mapOnly; ScoreReplied Sample.rankedReply;
               MapFailed]) as [_ Hsettled].
  destruct (Hsettled ltac:(discriminate)) as (Hone & _ & _).
  split; [exact Hone|]. split; reflexivity.
Defined.

(** X7.  A score whose player has no global rank cannot be loaded.  The
    server sends [null] as rank when the rank is missing or zero; on such
    a reply [fetchScoreData] ends in its error branch: no score record
    and no map record is left, even if a map preview was loaded before,
    the generate button is disabled and the panel hidden, while the
    placeholders written before the failure are those of the failed
    score and the lazer box keeps its old state.  With a rank the record
    is loaded. *)
Theorem scoreFetched_without_rank (host : Host.t) (data : ScoreReply)
  (st : AppState) :
  (forall global_rank,
     serverUserRank global_rank = None <->
     global_rank = None \/
     exists n, global_rank = Some n /\ JsNumber.truthy n = false) /\
  (UpstreamUser.user_rank (user data) = None ->
   currentScoreData (scoreFetched host data st) = None /\
   currentMapData (scoreFetched host data st) = None /\
   generateDisabled (scoreFetched host data st) = true /\
   scoreOverridesShown (scoreFetched host data st) = false /\
   Form.usernameOverride (form (scoreFetched host data st))
   = UpstreamUser.username (user data) /\
   Form.modsOverride (form (scoreFetched host data st))
   = modsPlaceholder (Upstream.mods (score (response data))) /\
   Form.lazerScoringOverride (form (scoreFetched host data st))
   = Form.lazerScoringOverride (form st)) /\
  (UpstreamUser.user_rank (user data) <> None ->
   currentScoreData (scoreFetched host data st) = Some data /\
   currentMapData (scoreFetched host data st) = None /\
   generateDisabled (scoreFetched host data st) = false /\
   Form.lazerScoringOverride (form (scoreFetched host data st))
   = lazer (response data)).
Proof.
  split; [|split].
  - intros [n|]; simpl.
    + destruct (JsNumber.truthy n) eqn:Ht; split.
      * discriminate.
      * intros [H | (m & H & Hm)]; [discriminate|].
        injection H as <-. congruence.
      * intros _. right. eauto.
      * reflexivity.
    + split; [now left | reflexivity].
  - intros Hrank. unfold scoreFetched, populateOverrideFields.
    rewrite Hrank. cbn. repeat split.
  - intros Hrank. unfold scoreFetched, populateOverrideFields.
    destruct (UpstreamUser.user_rank (user data)); [|congruence].
    cbn. repeat split.
Qed.

Lemma scoreFetched_without_rank_witness :
  UpstreamUser.user_rank (user Sample.unrankedReply) = None /\
  UpstreamUser.user_rank (user Sample.rankedReply) <> None /\
  (forall host st,
     loaded (scoreFetched host Sample.unrankedReply
               (mapFetched Sample.mapOnly st)) = false /\
     currentScoreData (scoreFetched host Sample.rankedReply st)
     = Some Sample.rankedReply).
Proof.
  split; [reflexivity|]. split; [discriminate|].
  intros host st.
  destruct (scoreFetched_without_rank host Sample.unrankedReply
              (mapFetched Sample.mapOnly st)) as (_ & Hnull & _).
  destruct (Hnull eq_refl) as (Hscore & Hmap & _).
  destruct (scoreFetched_without_rank host Sample.rankedReply st)
    as (_ & _ & Hranked).
  destruct (Hranked ltac:(discriminate)) as (Hloaded & _).
  split; [|exact Hloaded].
  unfold loaded. now rewrite Hscore, Hmap.
Defined.

(** X8.  Right after a score is loaded, with no override typed, the score
    line shows the total that matches the server's detection, the modern
    total of a lazer score and the classic total of any other, for every
    value of these totals: the lazer box is set from the server's flag,
    and the classic record holds the classic total twice. *)
Theorem displayedScore_after_load (host : Host.t) (data : ScoreReply)
  (st : AppState) :
  UpstreamUser.user_rank (user data) <> None ->
  exists r,
    extractScoreData Overrides.none
      (response <$> currentScoreData (scoreFetched host data st))
      (currentMapData (scoreFetched host data st)) = Some r /\
    displayedScore r
      (Form.lazerScoringOverride (form (scoreFetched host data st)))
    = (if lazer (response data)
       then Upstream.score (score (response data))
       else Upstream.classic_score (score (response data))).
Proof.
  intros Hrank. unfold scoreFetched, populateOverrideFields.
  destruct (UpstreamUser.user_rank (user data)); [|congruence].
  cbn. eexists. split; [reflexivity|].
  unfold displayedScore. cbn.
  destruct (lazer (response data)); [reflexivity|].
  destruct (JsNumber.truthy _); reflexivity.
Qed.

Lemma displayedScore_after_load_witness :
  UpstreamUser.user_rank (user Sample.zeroReply) <> None /\
  (forall host st, exists r,
     extractScoreData Overrides.none
       (response <$> currentScoreData (scoreFetched host Sample.zeroReply st))
       (currentMapData (scoreFetched host Sample.zeroReply st)) = Some r /\
     displayedScore r
       (Form.lazerScoringOverride (form (scoreFetched host Sample.zeroReply st)))
     = JsNumber.ofZ 5).
Proof.
  split; [discriminate|].
  intros host st.
  exact (displayedScore_after_load host Sample.zeroReply st
           ltac:(discriminate)).
Defined.

(** ** The mods input: parser, placeholder and blur handler *)

Section ModsInput.

Lemma split_length (text cur : string) :
  List.length (JsString.splitFrom "," O cur text) = S (countChar "," text).
Proof.
  revert cur. induction text as [|c r IH]; intros cur; [reflexivity|].
  cbn [JsString.splitFrom JsString.startsWith countChar].
  destruct (Ascii.eqb "," c); cbn [andb JsString.len Nat.sub List.length];
    now rewrite IH.
Qed.

Lemma filter_length_le {A : Type} (p : A -> bool) (l : list A) :
  (List.length (List.filter p l) <= List.length l)%nat.
Proof.
  induction l as [|x l IH]; simpl; [lia|]. destruct (p x); simpl; lia.
Qed.

(** *** Splitting on commas, token by token *)

Lemma append_empty (s : string) : s ++ "" = s.
Proof. induction s as [|c s IH]; simpl; [reflexivity | now rewrite IH]. Qed.

(** The token being read is a prefix of the first token returned. *)
Lemma splitFrom_cur (s cur : string) :
  JsString.splitFrom "," O cur s
  = match JsString.split s "," with
    | token :: tokens => (cur ++ token) :: tokens
    | [] => [cur]
    end.
Proof.
  unfold JsString.split.
  revert cur. induction s as [|c s IH]; intros cur.
  - cbn. now rewrite append_empty.
  - cbn [JsString.splitFrom JsString.startsWith].
    destruct (Ascii.eqb "," c); cbn [andb JsString.len Nat.sub].
    + now rewrite append_empty.
    + rewrite (IH (cur ++ String c "")), (IH ("" ++ String c "")).
      destruct (JsString.splitFrom "," 0 "" s) as [|token tokens];
        [reflexivity|].
      now rewrite append_assoc.
Qed.

Lemma split_comma (s : string) :
  JsString.split (String "," s) "," = "" :: JsString.split s ",".
Proof. reflexivity. Qed.

Lemma split_other (c : ascii) (s : string) :
  Ascii.eqb "," c = false ->
  JsString.split (String c s) ","
  = match JsString.split s "," with
    | token :: tokens => String c token :: tokens
    | [] => [String c ""]
    end.
Proof.
  intros Hc. unfold JsString.split at 1.
  cbn [JsString.splitFrom JsString.startsWith]. rewrite Hc. cbn [andb].
  now rewrite splitFrom_cur.
Qed.

Lemma split_tokens (s : string) :
  exists token tokens, JsString.split s "," = token :: tokens.
Proof.
  unfold JsString.split.
  enough (H : forall cur, exists token tokens,
                JsString.splitFrom "," O cur s = token :: tokens)
    by apply H.
  induction s as [|c s IH]; intros cur; [now exists cur, []|].
  cbn [JsString.splitFrom JsString.startsWith].
  destruct (Ascii.eqb "," c); cbn [andb JsString.len Nat.sub]; [|apply IH].
  now eexists _, _.
Qed.

(** A text without comma in front of a text only lengthens its first
    token. *)
Lemma split_prepend (a s token : string) (tokens : list string) :
  countChar "," a = O ->
  JsString.split s "," = token :: tokens ->
  JsString.split (a ++ s) "," = (a ++ token) :: tokens.
Proof.
  intros Ha Hs. induction a as [|c a IH]; [exact Hs|].
  apply countChar_cons_zero in Ha as [Hc Ha].
  cbn [String.append]. rewrite (split_other c _ Hc). now rewrite (IH Ha).
Qed.

(** The first token is the text up to its first comma. *)
Lemma split_first (s token : string) (tokens : list string) :
  JsString.split s "," = token :: tokens -> exists rest, s = token ++ rest.
Proof.
  revert token tokens. induction s as [|c s IH]; intros token tokens H.
  - injection H as <- _. now exists "".
  - destruct (Ascii.eqb "," c) eqn:Hc.
    + apply Ascii.eqb_eq in Hc. subst c. rewrite split_comma in H.
      injection H as <- _. now eexists.
    + rewrite (split_other c s Hc) in H.
      destruct (split_tokens s) as (first & others & Hs).
      rewrite Hs in H. injection H as <- _.
      destruct (IH first others Hs) as (rest & Hrest).
      exists rest. cbn [String.append]. now rewrite <- Hrest.
Qed.

(** *** Upper-casing commutes with splitting and trimming *)

Lemma upperChar_comma (c : ascii) :
  Ascii.eqb "," (JsString.upperChar c) = Ascii.eqb "," c.
Proof. destruct c as [[] [] [] [] [] [] [] []]; reflexivity. Qed.

Lemma upperChar_white (c : ascii) :
  JsString.isWhiteSpace (JsString.upperChar c) = JsString.isWhiteSpace c.
Proof. destruct c as [[] [] [] [] [] [] [] []]; reflexivity. Qed.

Lemma upperChar_idem (c : ascii) :
  JsString.upperChar (JsString.upperChar c) = JsString.upperChar c.
Proof. destruct c as [[] [] [] [] [] [] [] []]; reflexivity. Qed.

Lemma upperChar_beyond (c : ascii) :
  JsString.beyondAscii (JsString.upperChar c) = true ->
  JsString.upperChar c = c.
Proof.
  destruct c as [[] [] [] [] [] [] [] []]; vm_compute; intros H;
    (reflexivity || discriminate H).
Qed.

Lemma isUpper_ascii (c : ascii) :
  JsString.isUpper c = true -> JsString.isAscii c = true.
Proof.
  destruct c as [[] [] [] [] [] [] [] []]; vm_compute; intros H;
    (reflexivity || discriminate H).
Qed.

Lemma isUpper_fixed (c : ascii) :
  JsString.isUpper c = true -> JsString.upperChar c = c.
Proof.
  destruct c as [[] [] [] [] [] [] [] []]; vm_compute; intros H;
    (reflexivity || discriminate H).
Qed.

Lemma isUpper_not_beyond (c : ascii) :
  JsString.isUpper c = true -> JsString.beyondAscii c = false.
Proof.
  intros H. unfold JsString.beyondAscii. now rewrite (isUpper_ascii c H).
Qed.

Lemma isUpper_not_white (c : ascii) :
  JsString.isUpper c = true -> JsString.isWhiteSpace c = false.
Proof.
  destruct c as [[] [] [] [] [] [] [] []]; vm_compute; intros H;
    (reflexivity || discriminate H).
Qed.

Lemma beyondAscii_not_white (c : ascii) :
  JsString.beyondAscii c = true -> JsString.isWhiteSpace c = false.
Proof.
  destruct c as [[] [] [] [] [] [] [] []]; vm_compute; intros H;
    (reflexivity || discriminate H).
Qed.

(** The capitals in front of a text are left as they are. *)
Lemma toUpperCase_capitals (a b : string) :
  forallChars JsString.isUpper a = true ->
  JsString.toUpperCase (a ++ b) = a ++ JsString.toUpperCase b.
Proof.
  induction a as [|c a IH]; [reflexivity|]. cbn [forallChars].
  intros H. apply andb_prop in H as [Hc Ha].
  cbn [String.append].
  rewrite toUpperCase_ascii by now apply isUpper_ascii.
  now rewrite (isUpper_fixed c Hc), (IH Ha).
Qed.

Lemma toUpperCase_empty (s : string) :
  JsString.isEmpty (JsString.toUpperCase s) = JsString.isEmpty s.
Proof.
  destruct (toUpperCase_cases s)
    as [-> | [(c & r & -> & Hnone) | (key & form & rest & Hin & ->)]].
  - reflexivity.
  - now rewrite toUpperCase_plain.
  - rewrite (toUpperCase_key key form rest Hin).
    destruct (specialCasing_entry key form Hin) as (_ & Hkey & _ & Hform).
    destruct key; [discriminate|]. destruct form; [discriminate|]. reflexivity.
Qed.

(** The bytes of a character beyond ASCII that the upper-cased text
    starts with are bytes the text itself starts with. *)
Lemma startsWith_toUpperCase (key s : string) :
  forallChars JsString.beyondAscii key = true ->
  JsString.startsWith key (JsString.toUpperCase s) = true ->
  JsString.startsWith key s = true.
Proof.
  revert s. induction key as [|x key IH]; intros s Hkey Hstarts;
    [reflexivity|].
  cbn [forallChars] in Hkey. apply andb_prop in Hkey as [Hx Hkey].
  destruct (toUpperCase_cases s)
    as [-> | [(c & r & -> & Hnone) | (k & form & rest & Hin & ->)]].
  - discriminate.
  - rewrite (toUpperCase_plain c r Hnone) in Hstarts.
    cbn [JsString.startsWith] in *.
    apply andb_prop in Hstarts as [Hxc Hstarts].
    apply Ascii.eqb_eq in Hxc. rewrite Hxc in Hx.
    rewrite (upperChar_beyond c Hx) in Hxc. subst x.
    rewrite Ascii.eqb_refl. exact (IH r Hkey Hstarts).
  - rewrite (toUpperCase_key k form rest Hin) in Hstarts.
    destruct (specialCasing_entry k form Hin) as (_ & _ & Hform & Hne).
    destruct form as [|f form]; [discriminate|].
    cbn [forallChars] in Hform. apply andb_prop in Hform as [Hf _].
    cbn [String.append JsString.startsWith] in Hstarts.
    apply andb_prop in Hstarts as [Hxf _].
    apply Ascii.eqb_eq in Hxf. subst f.
    rewrite (isUpper_not_beyond x Hf) in Hx. discriminate.
Qed.

Lemma toUpperCase_idem (s : string) :
  JsString.toUpperCase (JsString.toUpperCase s) = JsString.toUpperCase s.
Proof.
  induction s as [|c r Hnone IH|key form rest Hin IH] using toUpperCase_ind.
  - reflexivity.
  - rewrite (toUpperCase_plain c r Hnone).
    assert (Hnone' :
      JsString.upperForm JsString.specialCasing
        (String (JsString.upperChar c) (JsString.toUpperCase r)) = None).
    { apply upperForm_none. intros key form Hin.
      destruct (JsString.startsWith key
                  (String (JsString.upperChar c) (JsString.toUpperCase r)))
        eqn:Hstarts; [|reflexivity].
      destruct (specialCasing_entry key form Hin) as (Hkey & Hne & _).
      destruct key as [|x key]; [discriminate|].
      cbn [forallChars] in Hkey. apply andb_prop in Hkey as [Hx Hkey].
      cbn [JsString.startsWith] in Hstarts.
      apply andb_prop in Hstarts as [Hxc Hstarts].
      apply Ascii.eqb_eq in Hxc. rewrite Hxc in Hx.
      rewrite (upperChar_beyond c Hx) in Hxc. subst x.
      pose proof (startsWith_toUpperCase key r Hkey Hstarts) as Hr.
      pose proof (proj1 (upperForm_none _ _) Hnone (String c key) form Hin)
        as Hfalse.
      cbn [JsString.startsWith] in Hfalse.
      rewrite Ascii.eqb_refl, Hr in Hfalse. discriminate. }
    rewrite (toUpperCase_plain _ _ Hnone'). now rewrite upperChar_idem, IH.
  - rewrite (toUpperCase_key key form rest Hin).
    destruct (specialCasing_entry key form Hin) as (_ & _ & Hform & _).
    now rewrite (toUpperCase_capitals form _ Hform), IH.
Qed.

Lemma trimStart_head (c : ascii) (s : string) :
  JsString.isWhiteSpace c = false ->
  JsString.trimStart (String c s) = String c s.
Proof. intros H. cbn [JsString.trimStart]. now rewrite H. Qed.

Lemma toUpperCase_trimStart (s : string) :
  JsString.trimStart (JsString.toUpperCase s)
  = JsString.toUpperCase (JsString.trimStart s).
Proof.
  induction s as [|c r Hnone IH|key form rest Hin _] using toUpperCase_ind.
  - reflexivity.
  - rewrite (toUpperCase_plain c r Hnone).
    cbn [JsString.trimStart]. rewrite upperChar_white.
    destruct (JsString.isWhiteSpace c); [exact IH|].
    now rewrite (toUpperCase_plain c r Hnone).
  - rewrite (toUpperCase_key key form rest Hin).
    destruct (specialCasing_entry key form Hin) as (Hkey & Hne & Hform & Hnf).
    destruct key as [|k key]; [discriminate|].
    destruct form as [|f form]; [discriminate|].
    cbn [forallChars] in Hkey, Hform.
    apply andb_prop in Hkey as [Hk _]. apply andb_prop in Hform as [Hf _].
    cbn [String.append].
    rewrite (trimStart_head f _ (isUpper_not_white f Hf)).
    rewrite (trimStart_head k _ (beyondAscii_not_white k Hk)).
    symmetry. exact (toUpperCase_key (String k key) (String f form) rest Hin).
Qed.

(** What [trimEnd] keeps is the text up to its last character that is no
    white space. *)
Lemma trimEnd_prefix (s : string) :
  exists rest, s = JsString.trimEnd s ++ rest.
Proof.
  induction s as [|c s [rest IH]]; [now exists ""|].
  cbn [JsString.trimEnd].
  destruct (JsString.isWhiteSpace c && JsString.isEmpty (JsString.trimEnd s)).
  - now eexists.
  - exists rest. cbn [String.append]. now rewrite <- IH.
Qed.

Lemma trimEnd_keeps (p : ascii -> bool) (a b : string) :
  (forall c, p c = true -> JsString.isWhiteSpace c = false) ->
  forallChars p a = true ->
  JsString.trimEnd (a ++ b) = a ++ JsString.trimEnd b.
Proof.
  intros Hp. induction a as [|c a IH]; [reflexivity|].
  cbn [forallChars]. intros H. apply andb_prop in H as [Hc Ha].
  cbn [String.append JsString.trimEnd].
  now rewrite (Hp c Hc), (IH Ha).
Qed.

Lemma toUpperCase_trimEnd (s : string) :
  JsString.trimEnd (JsString.toUpperCase s)
  = JsString.toUpperCase (JsString.trimEnd s).
Proof.
  induction s as [|c r Hnone IH|key form rest Hin IH] using toUpperCase_ind.
  - reflexivity.
  - rewrite (toUpperCase_plain c r Hnone).
    cbn [JsString.trimEnd]. rewrite upperChar_white, IH, toUpperCase_empty.
    destruct (JsString.isWhiteSpace c && JsString.isEmpty (JsString.trimEnd r));
      [reflexivity|].
    symmetry. apply toUpperCase_plain.
    destruct (trimEnd_prefix r) as [rest Hrest].
    apply (upperForm_shorter _ rest). cbn [String.append].
    now rewrite <- Hrest.
  - rewrite (toUpperCase_key key form rest Hin).
    destruct (specialCasing_entry key form Hin) as (Hkey & _ & Hform & _).
    rewrite (trimEnd_keeps _ form _ isUpper_not_white Hform).
    rewrite (trimEnd_keeps _ key _ beyondAscii_not_white Hkey).
    now rewrite IH, (toUpperCase_key key form _ Hin).
Qed.

Lemma toUpperCase_trim (s : string) :
  JsString.trim (JsString.toUpperCase s)
  = JsString.toUpperCase (JsString.trim s).
Proof.
  unfold JsString.trim. now rewrite toUpperCase_trimStart, toUpperCase_trimEnd.
Qed.

Lemma toUpperCase_split (s : string) :
  JsString.split (JsString.toUpperCase s) ","
  = map JsString.toUpperCase (JsString.split s ",").
Proof.
  induction s as [|c r Hnone IH|key form rest Hin IH] using toUpperCase_ind.
  - reflexivity.
  - rewrite (toUpperCase_plain c r Hnone).
    destruct (Ascii.eqb "," c) eqn:Hc.
    + apply Ascii.eqb_eq in Hc. subst c.
      change (JsString.upperChar ",") with ","%char.
      now rewrite !split_comma, IH.
    + rewrite (split_other c r Hc).
      rewrite split_other by now rewrite upperChar_comma.
      rewrite IH.
      destruct (split_tokens r) as (token & tokens & Hr). rewrite Hr.
      cbn [map]. f_equal.
      symmetry. apply toUpperCase_plain.
      destruct (split_first r token tokens Hr) as [rest Hrest].
      apply (upperForm_shorter _ rest). cbn [String.append].
      now rewrite <- Hrest.
  - rewrite (toUpperCase_key key form rest Hin).
    destruct (specialCasing_entry key form Hin) as (Hkey & _ & Hform & _).
    destruct (split_tokens rest) as (token & tokens & Hrest).
    rewrite Hrest in IH. cbn [map] in IH.
    rewrite (split_prepend form _ _ _
               (forallChars_countChar _ "," form Hform eq_refl) IH).
    rewrite (split_prepend key _ _ _
               (forallChars_countChar _ "," key Hkey eq_refl) Hrest).
    cbn [map]. now rewrite (toUpperCase_key key form token Hin).
Qed.

Lemma modCodes_toUpperCase (text : string) :
  modCodes (JsString.toUpperCase text) = modCodes text.
Proof.
  unfold modCodes. rewrite toUpperCase_split, map_map.
  f_equal. apply map_ext. intros token.
  now rewrite toUpperCase_trim, toUpperCase_idem.
Qed.

Lemma modCodes_valid (text code : string) :
  In code (modCodes text) -> isModCode code = true.
Proof. unfold modCodes. intros H. now apply filter_In in H as [_ H]. Qed.

End ModsInput.

(** X9.  Whatever the text, every acronym [parseModsString] returns is
    two upper-case letters, there are never more acronyms than the text
    has commas plus one, and the case of the text does not matter. *)
Theorem parseModsString_acronyms (modsString : string) :
  (forall m, In m (parseModsString modsString) ->
     isModCode (acronym m) = true) /\
  (List.length (parseModsString modsString)
     <= countChar "," modsString + 1)%nat /\
  parseModsString (JsString.toUpperCase modsString)
  = parseModsString modsString.
Proof.
  rewrite !parseModsString_codes. split; [|split].
  - intros m Hm. apply in_map_iff in Hm as (code & <- & Hcode).
    exact (modCodes_valid _ _ Hcode).
  - rewrite length_map. unfold modCodes.
    etransitivity; [apply filter_length_le|].
    rewrite length_map. unfold JsString.split. rewrite split_length. lia.
  - now rewrite modCodes_toUpperCase.
Qed.

Section ModsRoundTrip.

Lemma isModCode_inv (code : string) :
  isModCode code = true ->
  exists a b, code = String a (String b "")
    /\ JsString.isUpper a = true /\ JsString.isUpper b = true.
Proof.
  destruct code as [|a [|b [|c r]]]; simpl; try discriminate.
  intros H. apply andb_prop in H as [Ha Hb]. eauto.
Qed.

Lemma upper_not_comma (a : ascii) :
  JsString.isUpper a = true -> Ascii.eqb "," a = false.
Proof.
  destruct a as [[] [] [] [] [] [] [] []]; vm_compute; intros H;
    (reflexivity || discriminate H).
Qed.

Lemma upper_not_white (a : ascii) :
  JsString.isUpper a = true -> JsString.isWhiteSpace a = false.
Proof.
  destruct a as [[] [] [] [] [] [] [] []]; vm_compute; intros H;
    (reflexivity || discriminate H).
Qed.

Lemma upper_upperChar (a : ascii) :
  JsString.isUpper a = true -> JsString.upperChar a = a.
Proof.
  destruct a as [[] [] [] [] [] [] [] []]; vm_compute; intros H;
    (reflexivity || discriminate H).
Qed.

(** A valid code is left alone by [trim] and [toUpperCase]. *)
Lemma isModCode_normal (code : string) :
  isModCode code = true ->
  JsString.toUpperCase (JsString.trim code) = code.
Proof.
  intros H. destruct (isModCode_inv code H) as (a & b & -> & Ha & Hb).
  unfold JsString.trim. cbn [JsString.trimStart].
  rewrite (upper_not_white a Ha).
  cbn [JsString.trimEnd]. rewrite (upper_not_white a Ha), (upper_not_white b Hb).
  cbn [andb].
  rewrite !toUpperCase_ascii by now apply isUpper_ascii.
  now rewrite (upper_upperChar a Ha), (upper_upperChar b Hb).
Qed.

(** Splitting a joined list of valid codes gives the list back. *)
Lemma split_join_codes (codes : list string) :
  (forall code, In code codes -> isModCode code = true) ->
  codes <> [] ->
  JsString.split (join "," codes) "," = codes.
Proof.
  unfold JsString.split.
  induction codes as [|x rest IH]; intros Hvalid Hne; [congruence|].
  destruct (isModCode_inv x (Hvalid x (or_introl eq_refl)))
    as (a & b & -> & Ha & Hb).
  assert (Hrest : forall code, In code rest -> isModCode code = true)
    by (intros code Hin; apply Hvalid; now right).
  destruct rest as [|y rest'].
  - cbn [join JsString.splitFrom JsString.startsWith].
    rewrite (upper_not_comma a Ha), (upper_not_comma b Hb). reflexivity.
  - change (join "," (String a (String b "") :: y :: rest'))
      with (String a (String b (String "," (join "," (y :: rest'))))).
    cbn [JsString.splitFrom JsString.startsWith].
    rewrite (upper_not_comma a Ha), (upper_not_comma b Hb).
    cbn [andb JsString.len Nat.sub]. simpl String.append.
    change (Ascii.eqb "," ",") with true. cbn [andb].
    f_equal. apply IH; [exact Hrest | discriminate].
Qed.

Lemma filter_all {A : Type} (p : A -> bool) (l : list A) :
  (forall x, In x l -> p x = true) -> List.filter p l = l.
Proof.
  induction l as [|x l IH]; intros H; simpl; [reflexivity|].
  rewrite (H x (or_introl eq_refl)). f_equal. apply IH.
  intros y Hy. apply H. now right.
Qed.

Lemma modCodes_join (codes : list string) :
  (forall code, In code codes -> isModCode code = true) ->
  modCodes (join "," codes) = codes.
Proof.
  intros Hvalid. destruct codes as [|x rest] eqn:E; [reflexivity|].
  rewrite <- E in *. unfold modCodes.
  rewrite split_join_codes by (assumption || (rewrite E; discriminate)).
  rewrite (map_ext_in _ (fun code => code)).
  - rewrite map_id. now apply filter_all.
  - intros code Hin. now apply isModCode_normal, Hvalid.
Qed.

Lemma acronym_eta (mods : list Mod) :
  map (fun code => {| acronym := code |}) (map acronym mods) = mods.
Proof.
  induction mods as [|[code] mods IH]; simpl; [reflexivity | now rewrite IH].
Qed.

End ModsRoundTrip.

(** X10.  Typing the placeholder of the mods input back in gives the mods
    of the score: for every list of mods whose acronyms are two upper-case
    letters, [parseModsString] of the placeholder is that list, in order;
    for a score without mods the placeholder ["No mods"] parses to no mod. *)
Theorem parseModsString_placeholder (mods : list Mod) :
  (forall m, In m mods -> isModCode (acronym m) = true) ->
  parseModsString (modsPlaceholder mods) = mods.
Proof.
  intros Hvalid. unfold modsPlaceholder.
  assert (Hcodes : forall code, In code (map acronym mods) ->
                                isModCode code = true).
  { intros code Hin. apply in_map_iff in Hin as (m & <- & Hm). now apply Hvalid. }
  destruct (isSet (join "," (map acronym mods))) eqn:Hset.
  - rewrite parseModsString_codes, modCodes_join by assumption.
    apply acronym_eta.
  - destruct mods as [|m mods]; [reflexivity|].
    exfalso. apply isSet_false in Hset.
    destruct (isModCode_inv (acronym m) (Hvalid m (or_introl eq_refl)))
      as (a & b & Hm & _).
    cbn [map join] in Hset. rewrite Hm in Hset.
    destruct (map acronym mods); discriminate.
Qed.

Lemma parseModsString_placeholder_witness :
  (forall m, In m Sample.threeMods -> isModCode (acronym m) = true) /\
  modsPlaceholder Sample.threeMods = "HD,DT,CL" /\
  parseModsString "HD,DT,CL" = Sample.threeMods.
Proof.
  assert (Hvalid : forall m, In m Sample.threeMods ->
                             isModCode (acronym m) = true).
  { intros m Hm. simpl in Hm.
    repeat (destruct Hm as [<- | Hm]); try contradiction; reflexivity. }
  split; [exact Hvalid|]. split; [reflexivity|].
  exact (parseModsString_placeholder Sample.threeMods Hvalid).
Defined.

Section ModsBlur.

Lemma isModCode_len (code : string) :
  isModCode code = true -> JsString.len code = 2%nat.
Proof.
  intros H. now destruct (isModCode_inv code H) as (a & b & -> & _).
Qed.

Lemma trim_empty_text (part : string) :
  JsString.len part = O -> JsString.trim part = "".
Proof. destruct part; [reflexivity | discriminate]. Qed.

(** The two filters of the blur handler keep the trimmed parts that are
    valid codes, and only those. *)
Lemma blur_filters (parts : list string) :
  List.filter (fun part => (JsString.len part =? 2)%nat)
    (map JsString.trim
       (List.filter
          (fun part => (JsString.len part =? 0)%nat
                       || isModCode (JsString.trim part)) parts))
  = List.filter isModCode (map JsString.trim parts).
Proof.
  induction parts as [|part parts IH]; [reflexivity|].
  cbn [List.filter map].
  destruct (isModCode (JsString.trim part)) eqn:Hcode.
  - rewrite orb_true_r. cbn [map List.filter].
    rewrite (isModCode_len _ Hcode). cbn. now rewrite IH.
  - rewrite orb_false_r.
    destruct (Nat.eqb_spec (JsString.len part) 0) as [Hzero|Hnz];
      [|exact IH].
    cbn [map List.filter]. rewrite (trim_empty_text part Hzero).
    cbn. exact IH.
Qed.

Lemma blur_cleaned (text : string) :
  fst (modsBlur text) = join "," (modCodes text).
Proof.
  unfold modsBlur. cbn [fst].
  destruct (isSet (JsString.toUpperCase text)) eqn:Hset.
  - rewrite blur_filters.
    rewrite <- (modCodes_toUpperCase text). unfold modCodes.
    f_equal. f_equal.
    rewrite toUpperCase_split, !map_map.
    apply map_ext. intros part.
    now rewrite toUpperCase_trim, toUpperCase_idem.
  - unfold isSet in Hset. apply negb_false_iff in Hset.
    rewrite toUpperCase_empty in Hset.
    destruct text; [reflexivity | discriminate].
Qed.

Lemma isModListTail_join (codes : list string) :
  (forall code, In code codes -> isModCode code = true) ->
  codes <> [] ->
  isModListTail (String "," (join "," codes)) = true.
Proof.
  induction codes as [|x rest IH]; intros Hvalid Hne; [congruence|].
  destruct (isModCode_inv x (Hvalid x (or_introl eq_refl)))
    as (a & b & -> & Ha & Hb).
  destruct rest as [|y rest'].
  - cbn. now rewrite Ha, Hb.
  - change (join "," (String a (String b "") :: y :: rest'))
      with (String a (String b (String "," (join "," (y :: rest'))))).
    cbn [isModListTail]. rewrite Ha, Hb.
    change (Ascii.eqb "," ",") with true. cbn [andb].
    apply IH; [|discriminate].
    intros code Hin. apply Hvalid. now right.
Qed.

(** A joined list of valid codes is empty or passes the test of the
    handler. *)
Lemma join_codes_style (codes : list string) :
  (forall code, In code codes -> isModCode code = true) ->
  JsString.isEmpty (join "," codes) || isModList (join "," codes) = true.
Proof.
  intros Hvalid. destruct codes as [|x rest]; [reflexivity|].
  pose proof (isModListTail_join (x :: rest) Hvalid ltac:(discriminate)) as H.
  destruct (isModCode_inv x (Hvalid x (or_introl eq_refl)))
    as (a & b & -> & Ha & Hb).
  destruct rest as [|y rest'].
  - cbn. now rewrite Ha, Hb.
  - change (join "," (String a (String b "") :: y :: rest'))
      with (String a (String b (String "," (join "," (y :: rest'))))) in *.
    cbn [JsString.isEmpty orb isModList]. rewrite Ha, Hb. cbn [andb].
    cbn [isModListTail] in H. rewrite Ha, Hb in H.
    change (Ascii.eqb "," ",") with true in H. cbn [andb] in H.
    apply isModListTail_join; [|discriminate].
    intros code Hin. apply Hvalid. now right.
Qed.

End ModsBlur.

(** X11.  Leaving the mods input rewrites its text to the valid codes it
    holds, upper-cased and joined by commas.  The rewritten text always
    gets the valid styling, the error styling is never applied on blur;
    the parser reads the same mods from the rewritten text as from the
    text typed; and a second blur changes nothing. *)
Theorem modsBlur_normalises (text : string) :
  fst (modsBlur text) = join "," (modCodes text) /\
  snd (modsBlur text) = true /\
  parseModsString (fst (modsBlur text)) = parseModsString text /\
  modsBlur (fst (modsBlur text)) = (fst (modsBlur text), true).
Proof.
  assert (Hvalid : forall code, In code (modCodes text) ->
                                isModCode code = true)
    by (intros code; apply modCodes_valid).
  assert (Hstyle : forall t, snd (modsBlur t) = true).
  { intros t.
    change (snd (modsBlur t))
      with (JsString.isEmpty (fst (modsBlur t)) || isModList (fst (modsBlur t))).
    rewrite blur_cleaned.
    apply join_codes_style. intros code. apply modCodes_valid. }
  assert (Hclean : fst (modsBlur text) = join "," (modCodes text))
    by apply blur_cleaned.
  split; [exact Hclean|]. split; [apply Hstyle|]. split.
  - rewrite Hclean, !parseModsString_codes. now rewrite modCodes_join.
  - rewrite (surjective_pairing (modsBlur (fst (modsBlur text)))).
    rewrite Hstyle. f_equal.
    rewrite blur_cleaned, Hclean. now rewrite modCodes_join.
Qed.

(** ** The numeric input handlers *)

Section NumericInputs.

Lemma lt_zero_num (q : Q) :
  JsOrder.lt (Num q) (JsNumber.ofZ 0) = false -> (0 <= q)%Q.
Proof.
  unfold JsOrder.lt, JsNumber.ofZ. intros H.
  destruct (Qlt_le_dec q (inject_Z 0)); [discriminate | assumption].
Qed.

Lemma gt_bound_num (q : Q) (bound : Z) :
  JsOrder.gt (Num q) (JsNumber.ofZ bound) = false -> (q <= inject_Z bound)%Q.
Proof.
  unfold JsOrder.gt, JsOrder.lt, JsNumber.ofZ. intros H.
  destruct (Qlt_le_dec (inject_Z bound) q); [discriminate | assumption].
Qed.

Lemma gt_bound_true (q : Q) (bound : Z) :
  JsOrder.gt (Num q) (JsNumber.ofZ bound) = true -> (0 <= bound) ->
  JsOrder.lt (Num q) (JsNumber.ofZ 0) = false.
Proof.
  unfold JsOrder.gt, JsOrder.lt, JsNumber.ofZ. intros H Hb.
  destruct (Qlt_le_dec (inject_Z bound) q) as [Hlt|]; [|discriminate].
  destruct (Qlt_le_dec q (inject_Z 0)) as [Hneg|]; [|reflexivity].
  exfalso. apply (Qlt_irrefl q).
  apply Qlt_trans with (y := inject_Z 0); [assumption|].
  apply Qle_lt_trans with (y := inject_Z bound); [|assumption].
  now rewrite <- Zle_Qle.
Qed.

(** A Number is [NaN] or a finite number within the bounds. *)
Lemma scoreInput_range (text : string) :
  JsNumber.parseInt (scoreInput text) = NaN \/
  exists q, JsNumber.parseInt (scoreInput text) = Num q
    /\ (0 <= q)%Q /\ (q <= 999999999)%Q.
Proof.
  unfold scoreInput.
  destruct (JsNumber.parseInt text) as [|negative|q] eqn:Hparse.
  - cbn. rewrite Hparse. now left.
  - destruct negative; cbn; right.
    + exists 0%Q. repeat split; discriminate.
    + exists 999999999%Q. repeat split; discriminate.
  - destruct (JsOrder.gt (Num q) (JsNumber.ofZ 999999999)) eqn:Hgt.
    + right. exists 999999999%Q. repeat split; discriminate.
    + destruct (JsOrder.lt (Num q) (JsNumber.ofZ 0)) eqn:Hlt.
      * right. exists 0%Q. repeat split; discriminate.
      * right. exists q. rewrite Hparse. split; [reflexivity|].
        split; [now apply lt_zero_num | now apply gt_bound_num].
Qed.

Lemma accuracyInput_range (text : string) :
  JsNumber.parseFloat (accuracyInput text) = NaN \/
  exists q, JsNumber.parseFloat (accuracyInput text) = Num q
    /\ (0 <= q)%Q /\ (q <= 100)%Q.
Proof.
  unfold accuracyInput.
  destruct (JsNumber.parseFloat text) as [|negative|q] eqn:Hparse.
  - cbn. rewrite Hparse. now left.
  - destruct negative; cbn; right.
    + exists 0%Q. repeat split; discriminate.
    + exists 100%Q. repeat split; discriminate.
  - destruct (JsOrder.gt (Num q) (JsNumber.ofZ 100)) eqn:Hgt.
    + right. exists 100%Q. repeat split; discriminate.
    + destruct (JsOrder.lt (Num q) (JsNumber.ofZ 0)) eqn:Hlt.
      * right. exists 0%Q. repeat split; discriminate.
      * right. exists q. rewrite Hparse. split; [reflexivity|].
        split; [now apply lt_zero_num | now apply gt_bound_num].
Qed.

(** [parseInt] gives [NaN] or an integer, never an infinity. *)
Lemma parseInt_finite (text : string) :
  JsNumber.parseInt text = NaN \/
  exists z, JsNumber.parseInt text = JsNumber.ofZ z.
Proof.
  unfold JsNumber.parseInt.
  destruct (JsNumber.readSign (JsString.trimStart text)) as [negative s1].
  match goal with
  | |- context [let (_, _) := ?prefix in _] =>
      destruct prefix as [radix s2]
  end.
  destruct (JsNumber.readDigits radix 0 0 s2) as [[m count] rest].
  destruct count; [now left | right; eauto].
Qed.

Lemma countInput_range (text : string) :
  JsNumber.parseInt (countInput text) = NaN \/
  exists q, JsNumber.parseInt (countInput text) = Num q /\ (0 <= q)%Q.
Proof.
  unfold countInput.
  destruct (parseInt_finite text) as [Hparse | [z Hparse]]; rewrite Hparse.
  - cbn. rewrite Hparse. now left.
  - unfold JsNumber.ofZ.
    destruct (JsOrder.lt (Num (inject_Z z)) (Num (inject_Z 0))) eqn:Hlt.
    + right. exists 0%Q. split; [reflexivity | discriminate].
    + right. exists (inject_Z z). rewrite Hparse.
      split; [reflexivity | now apply lt_zero_num].
Qed.

Lemma lt_zero_false (q : Q) :
  (0 <= q)%Q -> JsOrder.lt (Num q) (JsNumber.ofZ 0) = false.
Proof.
  intros H. unfold JsOrder.lt, JsNumber.ofZ.
  destruct (Qlt_le_dec q (inject_Z 0)) as [Hlt|]; [|reflexivity].
  exfalso. apply (Qlt_irrefl q). now apply Qlt_le_trans with (y := 0%Q).
Qed.

Lemma gt_bound_false (q : Q) (bound : Z) :
  (q <= inject_Z bound)%Q ->
  JsOrder.gt (Num q) (JsNumber.ofZ bound) = false.
Proof.
  intros H. unfold JsOrder.gt, JsOrder.lt, JsNumber.ofZ.
  destruct (Qlt_le_dec (inject_Z bound) q) as [Hlt|]; [|reflexivity].
  exfalso. apply (Qlt_irrefl q).
  now apply Qle_lt_trans with (y := inject_Z bound).
Qed.

Lemma scoreInput_fixed (text : string) :
  (JsNumber.parseInt text = NaN \/
   exists q, JsNumber.parseInt text = Num q
     /\ (0 <= q)%Q /\ (q <= 999999999)%Q) ->
  scoreInput text = text.
Proof.
  unfold scoreInput. intros [-> | (q & -> & Hlo & Hhi)]; [reflexivity|].
  now rewrite lt_zero_false, gt_bound_false.
Qed.

Lemma accuracyInput_fixed (text : string) :
  (JsNumber.parseFloat text = NaN \/
   exists q, JsNumber.parseFloat text = Num q
     /\ (0 <= q)%Q /\ (q <= 100)%Q) ->
  accuracyInput text = text.
Proof.
  unfold accuracyInput. intros [-> | (q & -> & Hlo & Hhi)]; [reflexivity|].
  now rewrite lt_zero_false, gt_bound_false.
Qed.

Lemma countInput_fixed (text : string) :
  (JsNumber.parseInt text = NaN \/
   exists q, JsNumber.parseInt text = Num q /\ (0 <= q)%Q) ->
  countInput text = text.
Proof.
  unfold countInput. intros [-> | (q & -> & Hlo)]; [reflexivity|].
  now rewrite lt_zero_false.
Qed.

Lemma handler_keeps_set (text : string) :
  text <> "" ->
  isSet (scoreInput text) = true /\ isSet (accuracyInput text) = true
  /\ isSet (countInput text) = true.
Proof.
  intros H. apply isSet_true in H.
  unfold scoreInput, accuracyInput, countInput.
  repeat split;
    repeat match goal with
           | |- context [if ?b then _ else _] => destruct b
           end; auto.
Qed.

Lemma div100_range (q : Q) :
  (0 <= q)%Q -> (q <= 100)%Q ->
  exists p, JsNumber.div100 (Num q) = Num p /\ (0 <= p)%Q /\ (p <= 1)%Q.
Proof.
  intros Hlo Hhi. exists (Qred (q / 100)). split; [reflexivity|].
  rewrite Qred_correct. split.
  - apply Qle_shift_div_l; [reflexivity|]. now rewrite Qmult_0_l.
  - apply Qle_shift_div_r; [reflexivity|]. now rewrite Qmult_1_l.
Qed.

End NumericInputs.

(** X12.  After its input handler has run, the text of a numeric override
    never parses to a number out of range: the score is within 0 and
    999999999, the accuracy within 0 and 100, a count is not negative
    (or the text does not parse at all).  A text that parses within the
    range, or that does not parse, is left as typed, and running a
    handler on its own result changes nothing. *)
Theorem inputHandlers_range (text : string) :
  (JsNumber.parseInt (scoreInput text) = NaN \/
   exists q, JsNumber.parseInt (scoreInput text) = Num q
     /\ (0 <= q)%Q /\ (q <= 999999999)%Q) /\
  (JsNumber.parseFloat (accuracyInput text) = NaN \/
   exists q, JsNumber.parseFloat (accuracyInput text) = Num q
     /\ (0 <= q)%Q /\ (q <= 100)%Q) /\
  (JsNumber.parseInt (countInput text) = NaN \/
   exists q, JsNumber.parseInt (countInput text) = Num q /\ (0 <= q)%Q) /\
  ((JsNumber.parseInt text = NaN \/
    exists q, JsNumber.parseInt text = Num q
      /\ (0 <= q)%Q /\ (q <= 999999999)%Q) ->
   scoreInput text = text) /\
  ((JsNumber.parseFloat text = NaN \/
    exists q, JsNumber.parseFloat text = Num q
      /\ (0 <= q)%Q /\ (q <= 100)%Q) ->
   accuracyInput text = text) /\
  scoreInput (scoreInput text) = scoreInput text /\
  accuracyInput (accuracyInput text) = accuracyInput text /\
  countInput (countInput text) = countInput text.
Proof.
  split; [apply scoreInput_range|].
  split; [apply accuracyInput_range|].
  split; [apply countInput_range|].
  split; [apply scoreInput_fixed|].
  split; [apply accuracyInput_fixed|].
  split; [apply scoreInput_fixed, scoreInput_range|].
  split; [apply accuracyInput_fixed, accuracyInput_range|].
  apply countInput_fixed, countInput_range.
Qed.

Lemma inputHandlers_range_witness :
  (exists q, JsNumber.parseInt "727" = Num q
     /\ (0 <= q)%Q /\ (q <= 999999999)%Q) /\
  scoreInput "727" = "727" /\
  scoreInput "-5" = "0" /\
  scoreInput "12345678901" = "999999999" /\
  accuracyInput "101.5" = "100".
Proof.
  assert (H : exists q, JsNumber.parseInt "727" = Num q
                /\ (0 <= q)%Q /\ (q <= 999999999)%Q).
  { exists 727%Q. repeat split; discriminate. }
  destruct (inputHandlers_range "727") as (_ & _ & _ & Hfixed & _).
  split; [exact H|]. split; [exact (Hfixed (or_intror H))|].
  repeat split; vm_compute; reflexivity.
Defined.

(** X13.  With a score loaded and the handlers run on what was typed, the
    resolved score is [NaN] or within 0 and 999999999, and the resolved
    accuracy is [NaN] or a fraction within 0 and 1. *)
Theorem extractScoreData_after_handlers (overrides : Overrides.t)
  (data : ScoreResponse) (currentMapData : option MapResponse)
  (typedScore typedAccuracy : string) :
  typedScore <> "" -> Overrides.score overrides = scoreInput typedScore ->
  typedAccuracy <> "" ->
  Overrides.accuracy overrides = accuracyInput typedAccuracy ->
  exists r,
    extractScoreData overrides (Some data) currentMapData = Some r /\
    (ScoreData.score r = NaN \/
     exists q, ScoreData.score r = Num q /\ (0 <= q)%Q /\ (q <= 999999999)%Q) /\
    (ScoreData.accuracy r = NaN \/
     exists q, ScoreData.accuracy r = Num q /\ (0 <= q)%Q /\ (q <= 1)%Q).
Proof.
  intros Hs Hso Ha Hao. eexists. split; [reflexivity|].
  cbn -[JsNumber.parseInt JsNumber.parseFloat parseModsString JsNumber.div100].
  rewrite Hso, Hao.
  destruct (handler_keeps_set typedScore Hs) as (-> & _ & _).
  destruct (handler_keeps_set typedAccuracy Ha) as (_ & -> & _).
  split; [apply scoreInput_range|].
  destruct (accuracyInput_range typedAccuracy) as [-> | (q & -> & Hlo & Hhi)].
  - now left.
  - right. now apply div100_range.
Qed.

Lemma extractScoreData_after_handlers_witness :
  "2000000000" <> "" /\ "250" <> "" /\
  exists r,
    extractScoreData Sample.typedOverrides (Some Sample.stableScore) None
      = Some r /\
    ScoreData.score r = JsNumber.ofZ 999999999 /\
    exists q, ScoreData.accuracy r = Num q /\ (0 <= q)%Q /\ (q <= 1)%Q.
Proof.
  split; [discriminate|]. split; [discriminate|].
  destruct (extractScoreData_after_handlers Sample.typedOverrides
              Sample.stableScore None "2000000000" "250"
              ltac:(discriminate) eq_refl ltac:(discriminate) eq_refl)
    as (r & Hr & _ & Hacc).
  exists r. split; [exact Hr|].
  injection Hr as <-. split; [reflexivity|].
  destruct Hacc as [Hnan | Hq]; [discriminate Hnan | exact Hq].
Defined.

(** ** Image references *)

Section ImageReferences.

Lemma encodeChar_safe (c : ascii) :
  forallChars isEncoded
    (if isUnreserved c then String c "" else percentEncode c) = true.
Proof. destruct c as [[] [] [] [] [] [] [] []]; reflexivity. Qed.

Lemma encodeURIComponent_safe (s : string) :
  forallChars isEncoded (encodeURIComponent s) = true.
Proof.
  induction s as [|c s IH]; [reflexivity|].
  cbn [encodeURIComponent]. rewrite forallChars_append, IH.
  now rewrite encodeChar_safe.
Qed.

Lemma unescapeAll_char (c : ascii) (rest : string) :
  unescapeAll ((if isUnreserved c then String c "" else percentEncode c)
               ++ rest)
  = String c (unescapeAll rest).
Proof. destruct c as [[] [] [] [] [] [] [] []]; reflexivity. Qed.

(** Reading an encoded text back gives the text. *)
Lemma unescapeAll_encode (s : string) :
  unescapeAll (encodeURIComponent s) = s.
Proof.
  induction s as [|c s IH]; [reflexivity|].
  cbn [encodeURIComponent]. now rewrite unescapeAll_char, IH.
Qed.

Lemma encodeURIComponent_inj (s t : string) :
  encodeURIComponent s = encodeURIComponent t -> s = t.
Proof.
  intros H. rewrite <- (unescapeAll_encode s), <- (unescapeAll_encode t).
  now rewrite H.
Qed.

Lemma append_inv_head (p s t : string) : p ++ s = p ++ t -> s = t.
Proof.
  induction p as [|c p IH]; simpl; [auto|].
  intros H. injection H as H. now apply IH.
Qed.

Lemma includes_append_r (needle s t : string) :
  includes needle t = true -> includes needle (s ++ t) = true.
Proof.
  intros H. induction s as [|c s IH]; [exact H|].
  cbn [String.append includes]. rewrite IH. apply orb_true_r.
Qed.

Lemma uint_digits (d : Decimal.uint) :
  forallChars isDigitChar (DecimalString.NilEmpty.string_of_uint d) = true.
Proof. induction d; simpl; auto. Qed.

Lemma decimalNumeral_digits (n : Z) :
  forallChars isDigitChar (decimalNumeral n) = true.
Proof.
  unfold decimalNumeral.
  destruct (N.to_uint (Z.to_N n)) eqn:E; try reflexivity;
    rewrite <- E; cbn [DecimalString.NilZero.string_of_uint];
    rewrite E; apply uint_digits.
Qed.

End ImageReferences.

(** X14.  The proxied address of an image: empty for an empty address,
    and otherwise the proxy route of its kind followed by the address as
    one query value, made of unreserved characters and escapes only, so
    that no [?], [&], [=], [#] or [/] of the address survives; two
    different addresses never get the same proxied address. *)
Theorem getProxiedImageUrl_encoding (type : string) :
  getProxiedImageUrl type "" = "" /\
  (forall originalUrl, originalUrl <> "" ->
     getProxiedImageUrl type originalUrl
     = "/api/proxy-image/" ++ type ++ "?url=" ++ encodeURIComponent originalUrl
     /\ forallChars isEncoded (encodeURIComponent originalUrl) = true
     /\ (forall c, In c ["?"; "&"; "="; "#"; "/"]%char ->
           countChar c (encodeURIComponent originalUrl) = O)) /\
  (forall originalUrl originalUrl',
     getProxiedImageUrl type originalUrl = getProxiedImageUrl type originalUrl' ->
     originalUrl = originalUrl').
Proof.
  split; [reflexivity|]. split.
  - intros url Hurl. split; [|split].
    + unfold getProxiedImageUrl. destruct url; [congruence | reflexivity].
    + apply encodeURIComponent_safe.
    + intros c Hc.
      apply (forallChars_countChar isEncoded);
        [apply encodeURIComponent_safe|].
      simpl in Hc.
      repeat (destruct Hc as [<- | Hc]); try contradiction; reflexivity.
  - intros url url' H. unfold getProxiedImageUrl in H.
    destruct url as [|c url], url' as [|c' url']; cbn [JsString.isEmpty] in H.
    + reflexivity.
    + discriminate.
    + discriminate.
    + apply append_inv_head in H. apply append_inv_head in H.
      apply append_inv_head in H. now apply encodeURIComponent_inj.
Qed.

Lemma getProxiedImageUrl_encoding_witness :
  "https://a.ppy.sh/2?x=1&y=2" <> "" /\
  getProxiedImageUrl "avatar" "https://a.ppy.sh/2?x=1&y=2"
  = "/api/proxy-image/avatar?url=https%3A%2F%2Fa.ppy.sh%2F2%3Fx%3D1%26y%3D2".
Proof.
  split; [discriminate|].
  destruct (getProxiedImageUrl_encoding "avatar") as (_ & Hurl & _).
  destruct (Hurl "https://a.ppy.sh/2?x=1&y=2" ltac:(discriminate)) as (-> & _).
  reflexivity.
Defined.

(** X15.  The address requested for an image of the card: for a proxied
    address of a non-empty image address the cache-busting parameter is
    appended with [&], and the address requested holds exactly one [?],
    the one of the proxy route; for the empty reference the request is
    [?_dl=...], relative to the page itself. *)
Theorem bustUrl_of_proxied (type originalUrl : string) (now : Z) :
  countChar "?" type = O -> originalUrl <> "" ->
  bustUrl (getProxiedImageUrl type originalUrl) now
  = getProxiedImageUrl type originalUrl ++ "&_dl=" ++ decimalNumeral now /\
  countChar "?" (bustUrl (getProxiedImageUrl type originalUrl) now) = 1%nat /\
  bustUrl (getProxiedImageUrl type "") now = "?_dl=" ++ decimalNumeral now.
Proof.
  intros Htype Hurl.
  assert (Hproxied : getProxiedImageUrl type originalUrl
                     = "/api/proxy-image/" ++ type ++ "?url="
                       ++ encodeURIComponent originalUrl).
  { unfold getProxiedImageUrl. destruct originalUrl; [congruence | reflexivity]. }
  assert (Hinc : includes "?" (getProxiedImageUrl type originalUrl) = true).
  { rewrite Hproxied. apply includes_append_r, includes_append_r. reflexivity. }
  assert (Hbust : bustUrl (getProxiedImageUrl type originalUrl) now
                  = getProxiedImageUrl type originalUrl ++ "&_dl="
                    ++ decimalNumeral now).
  { unfold bustUrl. now rewrite Hinc. }
  split; [exact Hbust|]. split; [|reflexivity].
  rewrite Hbust, Hproxied. rewrite !countChar_append, Htype.
  rewrite (forallChars_countChar isEncoded "?" _
             (encodeURIComponent_safe originalUrl) eq_refl).
  rewrite (forallChars_countChar isDigitChar "?" _
             (decimalNumeral_digits now) eq_refl).
  reflexivity.
Qed.

Lemma bustUrl_of_proxied_witness :
  countChar "?" "background" = O /\
  "https://assets.ppy.sh/beatmaps/1/covers/raw.jpg?v=2" <> "" /\
  bustUrl
    (getProxiedImageUrl "background"
       "https://assets.ppy.sh/beatmaps/1/covers/raw.jpg?v=2") 1700000000000
  = "/api/proxy-image/background?url=https%3A%2F%2Fassets.ppy.sh%2Fbeatmaps%2F1%2Fcovers%2Fraw.jpg%3Fv%3D2&_dl=1700000000000".
Proof.
  split; [reflexivity|]. split; [discriminate|].
  destruct (bustUrl_of_proxied "background"
              "https://assets.ppy.sh/beatmaps/1/covers/raw.jpg?v=2"
              1700000000000 eq_refl ltac:(discriminate)) as (-> & _).
  vm_compute. reflexivity.
Defined.

(** ** User data *)

(** X16.  On a map preview the user name and the avatar address are
    never empty (the guest name and the guest avatar stand in), so the
    avatar reference of the card is always a proxied address, and the
    user-rank line shows the text of the override as typed, unparsed and
    unformatted.  With a score loaded the same text is parsed and printed
    by the locale, and without an override a [null] rank makes the line
    raise. *)
Theorem extractUserData_rank_line (host : Host.t)
  (userOverrides : UserOverrides.t) :
  (forall mapData, exists u,
     extractUserData userOverrides None (Some mapData) = Some u /\
     UserData.username u <> "" /\ UserData.avatarUrl u <> "" /\
     avatarReference u
     = "/api/proxy-image/avatar?url=" ++ encodeURIComponent (UserData.avatarUrl u) /\
     UserData.country u = "xx" /\
     (UserOverrides.userRank userOverrides <> "" ->
      userRankLine host u
      = Normal ("#" ++ UserOverrides.userRank userOverrides)) /\
     (UserOverrides.userRank userOverrides = "" ->
      userRankLine host u
      = Normal ("#" ++ Host.toLocaleString host (JsNumber.ofZ 0)))) /\
  (forall data currentMapData, exists u,
     extractUserData userOverrides (Some data) currentMapData = Some u /\
     (UserOverrides.userRank userOverrides <> "" ->
      userRankLine host u
      = Normal ("#" ++ Host.toLocaleString host
                         (JsNumber.parseInt (UserOverrides.userRank userOverrides)))) /\
     (UserOverrides.userRank userOverrides = "" ->
      UpstreamUser.user_rank (user data) = None ->
      userRankLine host u = Throw)).
Proof.
  split.
  - intros mapData. eexists. split; [reflexivity|].
    unfold avatarReference, userRankLine, getProxiedImageUrl, formatScore.
    cbn [UserData.username UserData.avatarUrl UserData.country UserData.userRank].
    destruct (UserOverrides.username userOverrides) eqn:Hname;
      destruct (UserOverrides.avatarUrl userOverrides) eqn:Havatar;
      destruct (UserOverrides.userRank userOverrides) eqn:Hrank;
      cbn; repeat split; try discriminate; try congruence.
  - intros data currentMapData. eexists. split; [reflexivity|].
    unfold userRankLine, formatScore. cbn [UserData.userRank].
    split.
    + intros Hset. apply isSet_true in Hset. now rewrite Hset.
    + intros Hunset Hnull. apply isSet_false in Hunset.
      now rewrite Hunset, Hnull.
Qed.

Lemma extractUserData_rank_line_witness :
  UserOverrides.userRank Sample.rankTyped <> "" /\
  (forall host,
     (exists u,
        extractUserData Sample.rankTyped None (Some Sample.mapOnly) = Some u /\
        userRankLine host u = Normal "#12345") /\
     (exists u,
        extractUserData Sample.rankTyped (Some Sample.rankedReply) None = Some u /\
        userRankLine host u
        = Normal ("#" ++ Host.toLocaleString host (JsNumber.ofZ 12345)))).
Proof.
  split; [discriminate|].
  intros host.
  destruct (extractUserData_rank_line host Sample.rankTyped) as [Hmap Hscore].
  destruct (Hmap Sample.mapOnly) as (u & Hu & _ & _ & _ & _ & Hline & _).
  destruct (Hscore Sample.rankedReply None) as (u' & Hu' & Hline' & _).
  split.
  - exists u. split; [exact Hu|]. exact (Hline ltac:(discriminate)).
  - exists u'. split; [exact Hu'|]. exact (Hline' ltac:(discriminate)).
Defined.

(** ** Gradient colours: buckets, sampling point and colour format *)

Section GradientMore.

Lemma Qfloor_nonneg (x : Q) : (0 <= x)%Q -> 0 <= Qfloor x.
Proof.
  intros H. change 0 with (Qfloor (inject_Z 0)).
  now apply Qfloor_resp_le.
Qed.

Lemma bucket_cases (x : Q) :
  (0 <= x)%Q ->
  In (Z.min (Qfloor x) 10) [0; 1; 2; 3; 4; 5; 6; 7; 8; 9; 10].
Proof.
  intros H. apply Qfloor_nonneg in H.
  assert (Hrange : 0 <= Z.min (Qfloor x) 10 <= 10) by lia.
  set (i := Z.min (Qfloor x) 10) in *. simpl.
  assert (i = 0 \/ i = 1 \/ i = 2 \/ i = 3 \/ i = 4 \/ i = 5 \/ i = 6
          \/ i = 7 \/ i = 8 \/ i = 9 \/ i = 10) by lia.
  intuition auto.
Qed.

(** The eleven colours of the table are pairwise different and none is
    the sentinel. *)
Lemma colourOrSentinel_buckets (i j : Z) :
  In i [0; 1; 2; 3; 4; 5; 6; 7; 8; 9; 10] ->
  In j [0; 1; 2; 3; 4; 5; 6; 7; 8; 9; 10] ->
  colourMap !! i = Some (colourOrSentinel i) /\
  colourOrSentinel i <> sentinelColour /\
  (colourOrSentinel i = colourOrSentinel j -> i = j).
Proof.
  intros Hi Hj. simpl in Hi, Hj.
  repeat (destruct Hi as [<- | Hi]); try contradiction;
    (split; [reflexivity|]; split; [discriminate|]);
    repeat (destruct Hj as [<- | Hj]); try contradiction;
    vm_compute; intros H; (reflexivity || discriminate H).
Qed.

Lemma clamped_range (x : Q) :
  (0 <= Qmax 0 (Qmin 10 x))%Q /\ (Qmax 0 (Qmin 10 x) <= 10)%Q.
Proof.
  split; [apply Q.le_max_l|].
  apply Q.max_lub; [discriminate | apply Q.le_min_l].
Qed.

Lemma clamped_monotone (x y : Q) :
  (x <= y)%Q -> (Qmax 0 (Qmin 10 x) <= Qmax 0 (Qmin 10 y))%Q.
Proof.
  intros H. apply Q.max_le_compat_l. now apply Q.min_le_compat_l.
Qed.

Lemma position_scaled (c c' : Q) (w : Z) :
  0 <= w -> (c <= c')%Q ->
  (c / 10 * inject_Z w <= c' / 10 * inject_Z w)%Q.
Proof.
  intros Hw Hc. apply Qmult_le_compat_r.
  - apply Qmult_le_compat_r; [exact Hc | discriminate].
  - change 0%Q with (inject_Z 0). now rewrite <- Zle_Qle.
Qed.

End GradientMore.

(** X17.  Without the gradient image a rating that is not negative always
    gets a colour of the table, never the sentinel, and two such ratings
    get the same colour exactly when their integer parts, capped at 10,
    are the same. *)
Theorem getGradientColour_fallback_buckets (x y : Q) :
  (0 <= x)%Q -> (0 <= y)%Q ->
  (exists colour,
     getGradientColour None x = Normal colour /\
     colourMap !! Z.min (Qfloor x) 10 = Some colour /\
     colour <> sentinelColour) /\
  (getGradientColour None x = getGradientColour None y <->
   Z.min (Qfloor x) 10 = Z.min (Qfloor y) 10).
Proof.
  intros Hx Hy.
  pose proof (bucket_cases x Hx) as Hi.
  pose proof (bucket_cases y Hy) as Hj.
  destruct (colourOrSentinel_buckets _ _ Hi Hj) as (Hlook & Hsent & Hinj).
  unfold getGradientColour. split.
  - exists (colourOrSentinel (Z.min (Qfloor x) 10)). auto.
  - split.
    + intros H. injection H as H. now apply Hinj.
    + intros H. now rewrite H.
Qed.

Lemma getGradientColour_fallback_buckets_witness :
  (0 <= 52 # 10)%Q /\ (0 <= 59 # 10)%Q /\
  getGradientColour None (52 # 10) = getGradientColour None (59 # 10) /\
  getGradientColour None (52 # 10) = Normal "#FF5722".
Proof.
  assert (H1 : (0 <= 52 # 10)%Q) by discriminate.
  assert (H2 : (0 <= 59 # 10)%Q) by discriminate.
  destruct (getGradientColour_fallback_buckets (52 # 10) (59 # 10) H1 H2)
    as [_ Hsame].
  split; [exact H1|]. split; [exact H2|].
  split; [apply Hsame; reflexivity | reflexivity].
Defined.

(** X18.  With the gradient image loaded on a canvas at least one pixel
    wide, the pixel sampled for a rating always lies inside the row of
    the canvas: its column is between 0 and the width minus 1, it is
    column 0 for ratings up to 0 and the last column for ratings from 10
    on, and a higher rating never samples a column further left. *)
Theorem getGradientColour_sample_point (canvas : Canvas) (x y : Q) :
  1 <= width canvas ->
  let column := fun rating =>
    Qfloor (Qmax 0 (Qmin 10 rating) / 10 * inject_Z (width canvas - 1)) in
  getGradientColour (Some canvas) x
  = match getImageData canvas (column x) (height canvas / 2) with
    | Normal pixel => Normal (hexColour pixel)
    | Throw => Normal sentinelColour
    end /\
  0 <= column x <= width canvas - 1 /\
  ((x <= 0)%Q -> column x = 0) /\
  ((10 <= x)%Q -> column x = width canvas - 1) /\
  ((x <= y)%Q -> column x <= column y).
Proof.
  intros Hw column.
  destruct (clamped_range x) as [Hlo Hhi].
  assert (Hw' : 0 <= width canvas - 1) by lia.
  assert (Hzero : (0 / 10 * inject_Z (width canvas - 1) == inject_Z 0)%Q).
  { unfold Qeq. simpl. lia. }
  assert (Hfull : (10 / 10 * inject_Z (width canvas - 1)
                   == inject_Z (width canvas - 1))%Q).
  { change (10 / 10)%Q with (10 * / 10)%Q. rewrite Qmult_inv_r by discriminate.
    apply Qmult_1_l. }
  split; [|split; [|split; [|split]]].
  - unfold getGradientColour, sampleColour. fold (column x).
    destruct (getImageData canvas (column x) (height canvas / 2)); reflexivity.
  - split.
    + unfold column. rewrite <- (Qfloor_Z 0).
      apply Qfloor_resp_le.
      apply Qle_trans with (y := (0 / 10 * inject_Z (width canvas - 1))%Q);
        [rewrite Hzero; apply Qle_refl | now apply position_scaled].
    + unfold column. rewrite <- (Qfloor_Z (width canvas - 1)) at 2.
      apply Qfloor_resp_le.
      apply Qle_trans with (y := (10 / 10 * inject_Z (width canvas - 1))%Q);
        [now apply position_scaled | rewrite Hfull; apply Qle_refl].
  - intros Hx. unfold column.
    assert (E : (Qmax 0 (Qmin 10 x) == 0)%Q).
    { apply Q.max_l. apply Qle_trans with (y := x); [apply Q.le_min_r | exact Hx]. }
    rewrite E, Hzero. apply Qfloor_Z.
  - intros Hx. unfold column.
    assert (E : (Qmax 0 (Qmin 10 x) == 10)%Q).
    { rewrite Q.min_l by exact Hx. reflexivity. }
    rewrite E, Hfull. apply Qfloor_Z.
  - intros Hxy. unfold column. apply Qfloor_resp_le.
    apply position_scaled; [exact Hw' | now apply clamped_monotone].
Qed.

Lemma getGradientColour_sample_point_witness :
  1 <= width Sample.ramp /\ (52 # 10 <= 7)%Q /\
  getGradientColour (Some Sample.ramp) (52 # 10) = Normal "#3300cc" /\
  getGradientColour (Some Sample.ramp) (-3) = Normal "#0000ff" /\
  getGradientColour (Some Sample.ramp) 12 = Normal "#63009c".
Proof.
  assert (Hw : 1 <= width Sample.ramp) by (simpl; lia).
  destruct (getGradientColour_sample_point Sample.ramp (52 # 10) 7 Hw)
    as (Hcolour & _).
  split; [exact Hw|]. split; [discriminate|].
  split; [rewrite Hcolour; reflexivity|].
  split; vm_compute; reflexivity.
Defined.

Section ColourFormat.

Lemma byte_hex (n : N) :
  (n < 256)%N ->
  JsString.len (padStart (toString16 n) 2 "0") = 2%nat /\
  forallChars isHexDigit (padStart (toString16 n) 2 "0") = true.
Proof.
  intros Hn.
  assert (Hall :
    forallb
      (fun k => (JsString.len (padStart (toString16 k) 2 "0") =? 2)%nat
                && forallChars isHexDigit (padStart (toString16 k) 2 "0"))
      (map N.of_nat (seq 0 256)) = true) by (vm_compute; reflexivity).
  rewrite forallb_forall in Hall.
  assert (Hin : In n (map N.of_nat (seq 0 256))).
  { rewrite <- (N2Nat.id n). apply in_map. apply in_seq. lia. }
  specialize (Hall n Hin). apply andb_prop in Hall as [Hlen Hhex].
  split; [now apply Nat.eqb_eq | exact Hhex].
Qed.

Lemma hexColour_format (pixel : Pixel) :
  (red pixel < 256)%N -> (green pixel < 256)%N -> (blue pixel < 256)%N ->
  isHexColour (hexColour pixel) = true.
Proof.
  intros Hr Hg Hb.
  destruct (byte_hex _ Hr) as [Lr Xr].
  destruct (byte_hex _ Hg) as [Lg Xg].
  destruct (byte_hex _ Hb) as [Lb Xb].
  unfold hexColour.
  change ("#" ++ ?rest) with (String "#" rest).
  cbn [isHexColour]. rewrite !len_append, !forallChars_append.
  rewrite Lr, Lg, Lb, Xr, Xg, Xb. reflexivity.
Qed.

Lemma colourOrSentinel_format (index : Z) :
  index <= 10 -> isHexColour (colourOrSentinel index) = true.
Proof.
  intros Hle. destruct (Z_lt_le_dec index 0) as [Hneg|Hpos].
  - now rewrite colourOrSentinel_negative.
  - assert (index = 0 \/ index = 1 \/ index = 2 \/ index = 3 \/ index = 4
            \/ index = 5 \/ index = 6 \/ index = 7 \/ index = 8
            \/ index = 9 \/ index = 10) as H by lia.
    repeat (destruct H as [-> | H]); try subst index; reflexivity.
Qed.

End ColourFormat.

(** X19.  Whatever the rating, and with or without the gradient image
    (the canvas holding bytes), the colour returned is always written
    [#] followed by six hexadecimal digits: the sampled pixel is printed
    with two digits per component, and the table and the sentinel are
    such colours. *)
Theorem getGradientColour_format (gradient : option Canvas) (rating : Q) :
  (forall canvas, gradient = Some canvas -> bytePixels canvas) ->
  exists colour,
    getGradientColour gradient rating = Normal colour /\
    isHexColour colour = true /\ JsString.len colour = 7%nat.
Proof.
  intros Hbytes.
  assert (Hlen : forall colour, isHexColour colour = true ->
                                JsString.len colour = 7%nat).
  { intros [|c digits]; simpl; [discriminate|]. intros H.
    apply andb_prop in H as [H _]. apply andb_prop in H as [_ H].
    apply Nat.eqb_eq in H. now rewrite H. }
  assert (Hformat : exists colour,
    getGradientColour gradient rating = Normal colour /\
    isHexColour colour = true).
  { destruct gradient as [canvas|].
    - unfold getGradientColour, sampleColour.
      destruct (getImageData canvas _ _) as [pixel|] eqn:Hpixel.
      + exists (hexColour pixel). split; [reflexivity|].
        destruct (Hbytes canvas eq_refl _ _ _ Hpixel) as (Hr & Hg & Hb).
        now apply hexColour_format.
      + exists sentinelColour. split; reflexivity.
    - exists (colourOrSentinel (Z.min (Qfloor rating) 10)).
      split; [reflexivity|]. apply colourOrSentinel_format. lia. }
  destruct Hformat as (colour & Hcolour & Hhex).
  exists colour. auto.
Qed.

Lemma getGradientColour_format_witness :
  (forall canvas, Some Sample.dimRamp = Some canvas -> bytePixels canvas) /\
  exists colour,
    getGradientColour (Some Sample.dimRamp) (52 # 10) = Normal colour /\
    isHexColour colour = true /\ colour = "#050a00".
Proof.
  assert (Hbytes : forall canvas, Some Sample.dimRamp = Some canvas ->
                                  bytePixels canvas).
  { intros canvas Hc. injection Hc as <-. intros x y pixel Hp.
    injection Hp as <-. cbn. repeat split; apply N.mod_lt; discriminate. }
  split; [exact Hbytes|].
  destruct (getGradientColour_format (Some Sample.dimRamp) (52 # 10) Hbytes)
    as (colour & Hcolour & Hhex & _).
  exists colour. split; [exact Hcolour|]. split; [exact Hhex|].
  assert (E : getGradientColour (Some Sample.dimRamp) (52 # 10)
              = Normal "#050a00") by (vm_compute; reflexivity).
  rewrite E in Hcolour. now injection Hcolour as <-.
Defined.

(** ** Placeholders *)

(** X20.  After a reply for a score has arrived, also one that fails on a
    missing rank, the placeholders of the hit counts, the combo and the
    leaderboard position are faithful: for a value that is a natural
    number, printed by the host as its decimal numeral, the placeholder
    typed back as an override parses to the value itself. *)
Theorem placeholders_read_back (host : Host.t) (data : ScoreReply)
  (st : AppState) (placeholder : Form.t -> string)
  (value : Upstream.t -> number) (n : N) :
  In (placeholder, value)
    [ (Form.count300, Upstream.c300); (Form.count100, Upstream.c100);
      (Form.count50, Upstream.c50); (Form.countMiss, Upstream.misses);
      (Form.countSliderEnds, Upstream.cEnds);
      (Form.comboOverride, Upstream.max_combo);
      (Form.leaderboardOverride, Upstream.leaderboard) ] ->
  value (score (response data)) = JsNumber.ofZ (Z.of_N n) ->
  Host.toString host (JsNumber.ofZ (Z.of_N n)) = decimalNumeral (Z.of_N n) ->
  JsNumber.parseInt (placeholder (form (scoreFetched host data st)))
  = value (score (response data)).
Proof.
  intros Hin Hvalue Hprint.
  unfold scoreFetched, populateOverrideFields.
  simpl in Hin.
  destruct (UpstreamUser.user_rank (user data));
    repeat (destruct Hin as [Hin | Hin];
            [injection Hin as <- <-; cbn; rewrite Hvalue, Hprint;
             apply parseInt_numeral|]);
    contradiction.
Qed.

Lemma placeholders_read_back_witness :
  JsNumber.parseInt
    (Form.count300
       (form (scoreFetched Sample.host Sample.unrankedReply Sample.freshPage)))
  = JsNumber.ofZ 500.
Proof.
  exact (placeholders_read_back Sample.host Sample.unrankedReply
           Sample.freshPage
           Form.count300 Upstream.c300 500%N
           (or_introl eq_refl) eq_refl eq_refl).
Defined.
